(** * Shellman: the reversible file-operation engine and the listing pipeline

    A shallow embedding of [src/main.py].  Python values are modelled as
    follows.

    - [str] is [string]; [lower], [strip] and [splitlines] are those of
      Python on ASCII text, and the properties that depend on them are
      stated for names and texts in the ASCII range ([Str.is_ascii]).
    - [pathlib.Path] is the tuple of its [parts] (POSIX flavour).
    - An exception is a value of [exn]; a computation that may raise returns
      a [result].
    - The operating system (file system, clock, sub-processes, the zip, tar
      and gzip libraries) is an abstract world [W] with the operations of the
      class [OS]; every library call of the source is one operation.
    - The application object is the record [App]; its methods are
      computations in the state-and-exception monad [M].
    - The closures kept on the undo stack are functions on the world. *)

From Stdlib Require Import String Ascii List Bool Arith ZArith QArith Lia.
From Stdlib Require Import Permutation Sorted DecimalString Qround Qabs.
Import ListNotations.

Close Scope Q_scope.
Open Scope string_scope.
Open Scope list_scope.

(* ------------------------------------------------------------------ *)
(** ** Python strings *)

Module Str.

Definition is_upper (c : ascii) : bool :=
  let n := nat_of_ascii c in (65 <=? n)%nat && (n <=? 90)%nat.

Definition lower_char (c : ascii) : ascii :=
  if is_upper c then ascii_of_nat (nat_of_ascii c + 32) else c.

(** [s.lower()] on the ASCII range: the letters [A] to [Z] are replaced,
    every other character is kept. *)
Fixpoint lower (s : string) : string :=
  match s with
  | EmptyString => EmptyString
  | String c s' => String (lower_char c) (lower s')
  end.

(** [s.startswith(p)] *)
Definition startswith (p s : string) : bool := prefix p s.

(** [s.endswith(p)] *)
Definition endswith (p s : string) : bool :=
  (String.length p <=? String.length s)%nat &&
  String.eqb (substring (String.length s - String.length p) (String.length p) s) p.

(** [sub in s] *)
Fixpoint contains (sub s : string) : bool :=
  prefix sub s ||
  match s with
  | EmptyString => false
  | String _ s' => contains sub s'
  end.

(** [c.isspace()] on the ASCII range: TAB, LF, VT, FF, CR, FS, GS, RS, US
    and the space. *)
Definition isspace (c : ascii) : bool :=
  let n := nat_of_ascii c in
  ((9 <=? n)%nat && (n <=? 13)%nat) ||
  ((28 <=? n)%nat && (n <=? 31)%nat) || (n =? 32)%nat.

Fixpoint lstrip (s : string) : string :=
  match s with
  | EmptyString => EmptyString
  | String c s' => if isspace c then lstrip s' else s
  end.

Fixpoint rstrip (s : string) : string :=
  match s with
  | EmptyString => EmptyString
  | String c s' =>
      match rstrip s' with
      | EmptyString => if isspace c then EmptyString else String c EmptyString
      | r => String c r
      end
  end.

(** [s.strip()] on the ASCII range: the white space taken off is that of
    [isspace]. *)
Definition strip (s : string) : string := rstrip (lstrip s).

(** [s[i:]] for [0 <= i] *)
Fixpoint drop (i : nat) (s : string) : string :=
  match i, s with
  | O, _ => s
  | S _, EmptyString => EmptyString
  | S k, String _ s' => drop k s'
  end.

(** [s[:i]] for [0 <= i] *)
Definition take (i : nat) (s : string) : string := substring 0 i s.

(** [s.split(sep)] for a non-empty [sep]: the separators are found from
    left to right and do not overlap.  [skip] counts the characters of a
    separator that was just matched and is still to be stepped over; [cur]
    is the piece being read. *)
Fixpoint split_go (sep s : string) (skip : nat) (cur : string) : list string :=
  match s with
  | EmptyString => [cur]
  | String c s' =>
      match skip with
      | S k => split_go sep s' k cur
      | O =>
          if prefix sep s
          then cur :: split_go sep s' (String.length sep - 1) EmptyString
          else split_go sep s' 0 (cur ++ String c EmptyString)
      end
  end.

Definition split (sep s : string) : list string := split_go sep s 0 EmptyString.

(** The line boundaries of [str.splitlines] on the ASCII range:
    LF, VT, FF, CR, FS, GS, RS. *)
Definition is_linebreak (c : ascii) : bool :=
  let n := nat_of_ascii c in
  ((10 <=? n)%nat && (n <=? 13)%nat) || ((28 <=? n)%nat && (n <=? 30)%nat).

Definition is_cr (c : ascii) : bool := (nat_of_ascii c =? 13)%nat.
Definition is_lf (c : ascii) : bool := (nat_of_ascii c =? 10)%nat.

Fixpoint splitlines_go (s cur : string) (after_cr : bool) : list string :=
  match s with
  | EmptyString => match cur with EmptyString => [] | _ => [cur] end
  | String c s' =>
      if is_lf c && after_cr then splitlines_go s' EmptyString false
      else if is_linebreak c then cur :: splitlines_go s' EmptyString (is_cr c)
      else splitlines_go s' (cur ++ String c EmptyString) false
  end.

(** [s.splitlines()] *)
Definition splitlines (s : string) : list string :=
  splitlines_go s EmptyString false.

(** [s.rfind(".")]: the index of the last dot, if there is one. *)
Fixpoint rfind_dot (s : string) : option nat :=
  match s with
  | EmptyString => None
  | String c s' =>
      match rfind_dot s' with
      | Some i => Some (S i)
      | None => if Ascii.eqb c "."%char then Some 0%nat else None
      end
  end.

(** [str(n)] for a natural number *)
Definition of_nat (n : nat) : string := NilZero.string_of_uint (Nat.to_uint n).

(** The text is in the ASCII range, where [lower], [strip] and
    [splitlines] are those of Python. *)
Fixpoint is_ascii (s : string) : bool :=
  match s with
  | EmptyString => true
  | String c s' => (nat_of_ascii c <? 128)%nat && is_ascii s'
  end.

(** No letter of the text is a capital. *)
Fixpoint no_capital (s : string) : bool :=
  match s with
  | EmptyString => true
  | String c s' => negb (is_upper c) && no_capital s'
  end.

(** Two characters that are equal, or the capital and the small form of
    one letter. *)
Definition same_letter (c d : ascii) : bool :=
  Ascii.eqb c d
  || (is_upper c && (nat_of_ascii d =? nat_of_ascii c + 32)%nat)
  || (is_upper d && (nat_of_ascii c =? nat_of_ascii d + 32)%nat).

(** Two texts that differ at most in the case of their letters. *)
Fixpoint caseless (s t : string) : bool :=
  match s, t with
  | EmptyString, EmptyString => true
  | String c s', String d t' => same_letter c d && caseless s' t'
  | _, _ => false
  end.

(** Truthiness of a string: non-empty. *)
Definition truthy (s : string) : bool :=
  match s with EmptyString => false | _ => true end.

(** Truthiness of a list or a set: non-empty. *)
Definition truthy_list {A} (l : list A) : bool :=
  match l with [] => false | _ => true end.


End Str.

(* ------------------------------------------------------------------ *)
(** ** pathlib paths *)

(** A path is the tuple [Path(...).parts]: the root, when there is one,
    followed by the components. *)
Definition Path := list string.

(** [p == q]: the same parts. *)
Fixpoint Path_eqb (p q : Path) : bool :=
  match p, q with
  | [], [] => true
  | x :: p', y :: q' => String.eqb x y && Path_eqb p' q'
  | _, _ => false
  end.

(** Equality of two values of type [Path | None]. *)
Definition clipboard_eqb (x y : option Path) : bool :=
  match x, y with
  | Some p, Some q => Path_eqb p q
  | None, None => true
  | _, _ => false
  end.

Module PurePath.

(** [posixpath.splitroot]: no root, or ["//"] for exactly two leading
    slashes, or ["/"]. *)
Definition root_of (s : string) : string :=
  if negb (prefix "/" s) then ""
  else if negb (prefix "/" (Str.drop 1 s)) || prefix "/" (Str.drop 2 s) then "/"
  else "//".

Definition keep_component (x : string) : bool :=
  Str.truthy x && negb (String.eqb x ".").

(** [Path(s).parts] *)
Definition parts (s : string) : Path :=
  let root := root_of s in
  (if Str.truthy root then [root] else []) ++
  filter keep_component (Str.split "/" s).

(** The components after the anchor. *)
Definition tail (p : Path) : list string :=
  match p with
  | a :: r => if prefix "/" a then r else p
  | [] => []
  end.

(** [p.name] *)
Definition name (p : Path) : string := last (tail p) "".

(** [p.parent] *)
Definition parent (p : Path) : Path :=
  match tail p with
  | [] => p
  | _ => removelast p
  end.

(** [p / s] *)
Definition joinpath (p : Path) (s : string) : Path :=
  if prefix "/" s then parts s else p ++ parts s.

(** [p.suffix]: the text from the last dot of the name on, when that dot
    is neither the first nor the last character of the name. *)
Definition suffix (p : Path) : string :=
  let n := name p in
  match Str.rfind_dot n with
  | Some i =>
      if (0 <? i)%nat && (i <? String.length n - 1)%nat then Str.drop i n else ""
  | None => ""
  end.

(** [p.stem]: the name without its suffix. *)
Definition stem (p : Path) : string :=
  let n := name p in
  match Str.rfind_dot n with
  | Some i =>
      if (0 <? i)%nat && (i <? String.length n - 1)%nat then Str.take i n else n
  | None => n
  end.

End PurePath.

Notation "p // s" := (PurePath.joinpath p s) (at level 40, left associativity).

(* ------------------------------------------------------------------ *)
(** ** Helpers *)

Definition SORT_MODES : list string := ["name"; "size"; "modified"; "type"].

(** [is_archive]: check if a file is an extractable archive. *)
Definition is_archive (path : Path) : bool :=
  let name := Str.lower (PurePath.name path) in
  Str.endswith ".zip" name
  || Str.endswith ".tar" name
  || Str.endswith ".tar.gz" name
  || Str.endswith ".tgz" name
  || Str.endswith ".tar.bz2" name
  || Str.endswith ".tar.xz" name
  || Str.endswith ".gz" name
  || Str.endswith ".bz2" name.


(* ------------------------------------------------------------------ *)
(** ** Exceptions *)

(** The exceptions the source and [pathlib] tell apart: [PermissionError];
    the errors [Path.is_dir] and [Path.is_file] take for the answer "no" (an
    [OSError] whose [errno] is [ENOENT], [ENOTDIR], [EBADF] or [ELOOP], such
    as [FileNotFoundError], and [ValueError]), here [NotFoundError]; and
    every other subclass of [Exception].  Each carries the text of
    [str(e)]. *)
Inductive exn : Type :=
| PermissionError (msg : string)
| NotFoundError (msg : string)
| OtherError (msg : string).

Definition str_exn (e : exn) : string :=
  match e with PermissionError m | NotFoundError m | OtherError m => m end.

Inductive result (A : Type) : Type :=
| Ok (a : A)
| Raise (e : exn).

Arguments Ok {A} a.
Arguments Raise {A} e.

Module Res.

Definition bind {A B} (r : result A) (k : A -> result B) : result B :=
  match r with
  | Ok a => k a
  | Raise e => Raise e
  end.

(** [try: body / except Exception as e: handler(e)] *)
Definition try_except {A} (body : result A) (handler : exn -> result A) : result A :=
  match body with
  | Ok a => Ok a
  | Raise e => handler e
  end.

Fixpoint mapM {A B} (f : A -> result B) (l : list A) : result (list B) :=
  match l with
  | [] => Ok []
  | x :: l' =>
      bind (f x) (fun y => bind (mapM f l') (fun ys => Ok (y :: ys)))
  end.

End Res.

Declare Scope res_scope.
Delimit Scope res_scope with res.
Notation "x <- c1 ;; c2" := (Res.bind c1 (fun x => c2))
  (at level 61, c1 at next level, right associativity) : res_scope.

(* ------------------------------------------------------------------ *)
(** ** Python dictionaries with string keys *)

Module Dict.

Definition t (V : Type) := list (string * V).

(** [d[k] = v]: an existing key keeps its place. *)
Fixpoint set {V} (k : string) (v : V) (d : t V) : t V :=
  match d with
  | [] => [(k, v)]
  | (k', v') :: d' =>
      if String.eqb k' k then (k, v) :: d' else (k', v') :: set k v d'
  end.

(** [d.get(k, default)] *)
Fixpoint get {V} (k : string) (default : V) (d : t V) : V :=
  match d with
  | [] => default
  | (k', v') :: d' => if String.eqb k' k then v' else get k default d'
  end.

End Dict.

(* ------------------------------------------------------------------ *)
(** ** The version-status probe *)

(** What [subprocess.run(..., capture_output=True, text=True)] returns. *)
Record CompletedProcess : Type := {
  returncode : Z;
  stdout : string
}.

(** The status code of a porcelain line from its two status columns [xy]
    (the [if]/[elif] chain of [get_git_status]). *)
Definition status_code (xy : string) : string :=
  let x := substring 0 1 xy in
  let y := substring 1 1 xy in
  if String.eqb (Str.strip xy) "??" then "?"
  else if Str.contains x "A" || String.eqb y "A" then "A"
  else if String.eqb x "M" || String.eqb y "M" then "M"
  else if String.eqb x "D" || String.eqb y "D" then "D"
  else if String.eqb x "R" || String.eqb y "R" then "R"
  else "~".

(** The top-level name a porcelain path stands for. *)
Definition status_name (filepath : string) : string :=
  let filepath :=
    if Str.contains " -> " filepath
    then last (Str.split " -> " filepath) ""
    else filepath in
  match PurePath.parts filepath with
  | first :: _ => first
  | [] => filepath
  end.

(** One turn of the loop over the lines of the output: [None] is the
    [continue] of a line shorter than four characters, otherwise the key and
    the code stored in the map. *)
Definition status_entry (line : string) : option (string * string) :=
  if (String.length line <? 4)%nat then None
  else
    let xy := Str.take 2 line in
    let filepath := Str.strip (Str.drop 3 line) in
    Some (status_name filepath, status_code xy).

Definition status_map_of (lines : list string) : Dict.t string :=
  fold_left
    (fun status_map line =>
       match status_entry line with
       | None => status_map
       | Some (name, code) => Dict.set name code status_map
       end)
    lines [].



(** The probe has no data: the sub-process could not be run to its end, or
    it ended with a non-zero exit status. *)
Definition probe_failed (run : result CompletedProcess) : Prop :=
  match run with
  | Raise _ => True
  | Ok cp => returncode cp <> 0%Z
  end.

(** [get_git_status], given what [subprocess.run(["git", "status",
    "--porcelain"], cwd=directory, timeout=2)] did: returned a completed
    process, or raised (the tool is missing, the timeout expired, ...). *)
Definition get_git_status (run : result CompletedProcess) : result (Dict.t string) :=
  Res.try_except
    (result <- run ;;
     if negb (returncode result =? 0)%Z then Ok []
     else Ok (status_map_of (Str.splitlines (stdout result))))%res
    (fun _ => Ok []).

(* ------------------------------------------------------------------ *)
(** ** State and exceptions *)

(** A computation over a state [S] that returns a value or raises; the
    state it leaves behind is kept in both cases. *)
Definition SE (S A : Type) : Type := S -> result A * S.

Module SE.

Definition ret {S A} (a : A) : SE S A := fun s => (Ok a, s).

Definition raise {S A} (e : exn) : SE S A := fun s => (Raise e, s).

Definition bind {S A B} (c : SE S A) (k : A -> SE S B) : SE S B :=
  fun s =>
    match c s with
    | (Ok a, s') => k a s'
    | (Raise e, s') => (Raise e, s')
    end.

Definition get {S} : SE S S := fun s => (Ok s, s).

Definition modify {S} (f : S -> S) : SE S unit := fun s => (Ok tt, f s).

(** [try: body / except Exception as e: handler(e)] *)
Definition try_except {S A} (body : SE S A) (handler : exn -> SE S A) : SE S A :=
  fun s =>
    match body s with
    | (Ok a, s') => (Ok a, s')
    | (Raise e, s') => handler e s'
    end.

(** The outcome of [body] as a value. *)
Definition attempt {S A} (body : SE S A) : SE S (result A) :=
  fun s => let (r, s') := body s in (Ok r, s').

Definition of_result {S A} (r : result A) : SE S A := fun s => (r, s).

(** [for x in l: body(x)] *)
Fixpoint for_each {S A} (l : list A) (body : A -> SE S unit) : SE S unit :=
  match l with
  | [] => ret tt
  | x :: l' => bind (body x) (fun _ => for_each l' body)
  end.

(** [c] relates every state to the state it leaves, however it ends. *)
Definition preserves {S A} (R : S -> S -> Prop) (c : SE S A) : Prop :=
  forall s, R s (snd (c s)).

(** When [c] raises, it relates the state to the state it leaves. *)
Definition raising {S A} (R : S -> S -> Prop) (c : SE S A) : Prop :=
  forall s e, fst (c s) = Raise e -> R s (snd (c s)).

(** [c] never raises. *)
Definition total {S A} (c : SE S A) : Prop :=
  forall s, exists x, fst (c s) = Ok x.

End SE.

Declare Scope se_scope.
Delimit Scope se_scope with se.
Notation "x <- c1 ;; c2" := (SE.bind c1 (fun x => c2))
  (at level 61, c1 at next level, right associativity) : se_scope.
Notation "c1 ;; c2" := (SE.bind c1 (fun _ => c2))
  (at level 61, right associativity) : se_scope.

(* ------------------------------------------------------------------ *)
(** ** The operating system *)

Inductive file_type : Type := S_IFDIR | S_IFREG | S_IFOTHER.

(** The fields of [os.stat_result] the source reads.  [st_mtime] is a
    finite float, that is, a rational number. *)
Record stat_result : Type := {
  st_type : file_type;
  st_size : Z;
  st_mtime : Q
}.

(** The library calls of the source, over a world [W].  A call that only
    reads takes the world; a call that may change it is a computation. *)
Class OS (W : Type) : Type := {
  (** [Path.home()] *)
  Path_home : Path;
  (** [p.stat()] *)
  os_stat : W -> Path -> result stat_result;
  (** [list(p.iterdir())] *)
  iterdir : W -> Path -> result (list Path);
  (** [list(p.rglob("*"))] *)
  rglob : W -> Path -> result (list Path);
  (** [subprocess.run(["git", "status", "--porcelain"], cwd=str(p),
      capture_output=True, text=True, timeout=2)] *)
  run_git_status : W -> Path -> result CompletedProcess;
  (** [disk_usage_str(p)], which formats floats and never raises *)
  disk_usage_str : W -> Path -> string;
  (** [datetime.now().strftime("%Y%m%d_%H%M%S_%f")] *)
  strftime_now : W -> string;
  (** [p.mkdir(parents=True, exist_ok=True)] *)
  mkdir_parents : Path -> SE W unit;
  (** [shutil.move(str(src), str(dst))] *)
  shutil_move : Path -> Path -> SE W unit;
  (** [shutil.copytree(str(src), str(dst))] *)
  shutil_copytree : Path -> Path -> SE W unit;
  (** [shutil.copy2(str(src), str(dst))] *)
  shutil_copy2 : Path -> Path -> SE W unit;
  (** [shutil.rmtree(str(p))] *)
  shutil_rmtree : Path -> SE W unit;
  (** [p.unlink(missing_ok=True)] *)
  unlink_missing_ok : Path -> SE W unit;
  (** [zipfile.ZipFile(out, "w", zipfile.ZIP_DEFLATED)] *)
  zip_open_w : Path -> SE W unit;
  (** [zf.write(src, arcname)] on the archive being written at [out] *)
  zip_write : Path -> Path -> Path -> SE W unit;
  (** leaving the [with] block of the archive being written at [out] *)
  zip_close : Path -> SE W unit;
  (** [with zipfile.ZipFile(path, "r") as zf: zf.extractall(dest)] *)
  zip_extractall : Path -> Path -> SE W unit;
  (** [with tarfile.open(path, "r:*") as tf: tf.extractall(dest)] *)
  tar_extractall : Path -> Path -> SE W unit;
  (** [with gzip.open(path, "rb") as gz, open(dest, "wb") as out:
       shutil.copyfileobj(gz, out)] *)
  gzip_copy : Path -> Path -> SE W unit
}.

(* ------------------------------------------------------------------ *)
(** ** Python's ordering of the sort keys *)

Class PyOrd (K : Type) : Type := {
  py_eq : K -> K -> bool;
  py_lt : K -> K -> bool
}.

#[export] Instance PyOrd_bool : PyOrd bool :=
  {| py_eq := Bool.eqb; py_lt := fun a b => negb a && b |}.

#[export] Instance PyOrd_Z : PyOrd Z :=
  {| py_eq := Z.eqb; py_lt := Z.ltb |}.

#[export] Instance PyOrd_Q : PyOrd Q :=
  {| py_eq := Qeq_bool; py_lt := fun a b => negb (Qle_bool b a) |}.

#[export] Instance PyOrd_str : PyOrd string :=
  {| py_eq := String.eqb; py_lt := String.ltb |}.

(** Tuples compare by their first differing component. *)
#[export] Instance PyOrd_pair {A B} `{PyOrd A} `{PyOrd B} : PyOrd (A * B) :=
  {| py_eq := fun x y => py_eq (fst x) (fst y) && py_eq (snd x) (snd y);
     py_lt := fun x y =>
       if py_eq (fst x) (fst y) then py_lt (snd x) (snd y)
       else py_lt (fst x) (fst y) |}.

(** [sorted(l, key=key)]: the keys are computed once, in order; the sort is
    stable and compares keys with [<] only. *)
Fixpoint insert_keyed {K A} `{PyOrd K} (x : K * A) (l : list (K * A)) : list (K * A) :=
  match l with
  | [] => [x]
  | y :: l' =>
      if py_lt (fst y) (fst x) then y :: insert_keyed x l' else x :: y :: l'
  end.

Definition sort_keyed {K A} `{PyOrd K} (l : list (K * A)) : list (K * A) :=
  fold_right insert_keyed [] l.

Definition sorted {K A} `{PyOrd K} (l : list A) (key : A -> result K) : result (list A) :=
  (keys <- Res.mapM key l ;;
   Ok (map snd (sort_keyed (combine keys l))))%res.

(* ------------------------------------------------------------------ *)
(** ** The undo stack *)

Module UndoStack.

(** A reversible operation: its description and the closure that undoes
    it, which acts on the world and may raise. *)
Definition entry (W : Type) : Type := string * SE W unit.

(** [self._stack]; the top of the stack is the end of the list. *)
Definition t (W : Type) : Type := list (entry W).

Definition init {W} : t W := [].

Definition push {W} (description : string) (undo_fn : SE W unit) (s : t W) : t W :=
  s ++ [(description, undo_fn)].

(** [pop]: the popped entry, or [None], and the stack that is left. *)
Definition pop {W} (s : t W) : option (entry W) * t W :=
  match s with
  | [] => (None, s)
  | x :: s' => (Some (last s' x), removelast s)
  end.

Definition peek {W} (s : t W) : option string :=
  match s with
  | [] => None
  | x :: s' => Some (fst (last s' x))
  end.

Definition clear {W} (s : t W) : t W := [].

End UndoStack.

(* ------------------------------------------------------------------ *)
(** ** The application *)

(** The part of the [DataTable] widget the source reads back. *)
Record DataTable : Type := {
  row_count : nat;
  cursor_row : Z
}.

Section FileManagerApp.

Context {W : Type} {os : OS W}.

Definition TRASH_DIR : Path := Path_home // ".shellman_trash".

Record App : Type := mkApp {
  current_dir : Path;
  show_hidden : bool;
  clipboard : option Path;
  clipboard_op : string;
  sort_mode : string;
  filter_text : string;
  _row_entries : list Path;
  (** a set: no path occurs twice; the order is the one [list(...)]
      iterates in *)
  _selected : list Path;
  _undo : UndoStack.t W;
  _git_status : Dict.t string;
  table : DataTable;
  (** the message of the status bar *)
  status : string;
  world : W
}.

Definition M (A : Type) : Type := SE App A.

Definition with_current_dir (v : Path) (a : App) : App :=
  mkApp v (show_hidden a) (clipboard a) (clipboard_op a) (sort_mode a)
        (filter_text a) (_row_entries a) (_selected a) (_undo a)
        (_git_status a) (table a) (status a) (world a).

Definition with_git_status (v : Dict.t string) (a : App) : App :=
  mkApp (current_dir a) (show_hidden a) (clipboard a) (clipboard_op a) (sort_mode a)
        (filter_text a) (_row_entries a) (_selected a) (_undo a)
        v (table a) (status a) (world a).

Definition with_clipboard (v : option Path) (a : App) : App :=
  mkApp (current_dir a) (show_hidden a) v (clipboard_op a) (sort_mode a)
        (filter_text a) (_row_entries a) (_selected a) (_undo a)
        (_git_status a) (table a) (status a) (world a).

Definition with_clipboard_op (v : string) (a : App) : App :=
  mkApp (current_dir a) (show_hidden a) (clipboard a) v (sort_mode a)
        (filter_text a) (_row_entries a) (_selected a) (_undo a)
        (_git_status a) (table a) (status a) (world a).

Definition with_row_entries (v : list Path) (a : App) : App :=
  mkApp (current_dir a) (show_hidden a) (clipboard a) (clipboard_op a) (sort_mode a)
        (filter_text a) v (_selected a) (_undo a)
        (_git_status a) (table a) (status a) (world a).

Definition with_selected (v : list Path) (a : App) : App :=
  mkApp (current_dir a) (show_hidden a) (clipboard a) (clipboard_op a) (sort_mode a)
        (filter_text a) (_row_entries a) v (_undo a)
        (_git_status a) (table a) (status a) (world a).

Definition with_undo (v : UndoStack.t W) (a : App) : App :=
  mkApp (current_dir a) (show_hidden a) (clipboard a) (clipboard_op a) (sort_mode a)
        (filter_text a) (_row_entries a) (_selected a) v
        (_git_status a) (table a) (status a) (world a).

Definition with_table (v : DataTable) (a : App) : App :=
  mkApp (current_dir a) (show_hidden a) (clipboard a) (clipboard_op a) (sort_mode a)
        (filter_text a) (_row_entries a) (_selected a) (_undo a)
        (_git_status a) v (status a) (world a).

Definition with_status (v : string) (a : App) : App :=
  mkApp (current_dir a) (show_hidden a) (clipboard a) (clipboard_op a) (sort_mode a)
        (filter_text a) (_row_entries a) (_selected a) (_undo a)
        (_git_status a) (table a) v (world a).

Definition with_world (v : W) (a : App) : App :=
  mkApp (current_dir a) (show_hidden a) (clipboard a) (clipboard_op a) (sort_mode a)
        (filter_text a) (_row_entries a) (_selected a) (_undo a)
        (_git_status a) (table a) (status a) v.

(** A library call made by the application. *)
Definition io {A} (c : SE W A) : M A :=
  fun a => let (r, w) := c (world a) in (r, with_world w a).

(** *** Reading the file system *)

(** [p.is_dir()] and [p.is_file()] of [pathlib] (Python 3.10 to 3.13):
    the type [stat] reports; [False] when the [stat] call fails because the
    path is not there; any other exception of the [stat] call is raised
    again. *)
Definition is_dir (w : W) (p : Path) : result bool :=
  match os_stat w p with
  | Ok s => Ok (match st_type s with S_IFDIR => true | _ => false end)
  | Raise (NotFoundError _) => Ok false
  | Raise e => Raise e
  end.

Definition is_file (w : W) (p : Path) : result bool :=
  match os_stat w p with
  | Ok s => Ok (match st_type s with S_IFREG => true | _ => false end)
  | Raise (NotFoundError _) => Ok false
  | Raise e => Raise e
  end.

(** *** UI helpers *)

Definition set_status (msg : string) : M unit := SE.modify (with_status msg).

(** The key functions of [_sort_entries]. *)
Definition _size (w : W) (p : Path) : result Z :=
  Res.try_except
    (f <- is_file w p ;;
     if f then (s <- os_stat w p ;; Ok (st_size s)) else Ok 0%Z)%res
    (fun _ => Ok 0%Z).

Definition _mtime (w : W) (p : Path) : result Q :=
  Res.try_except
    (s <- os_stat w p ;; Ok (st_mtime s))%res
    (fun _ => Ok 0%Q).

(** [_sort_entries]; [self.sort_mode] is the argument [mode] and the file
    system the keys are read from is [w]. *)
Definition _sort_entries (w : W) (mode : string) (entries : list Path)
  : result (list Path) :=
  if String.eqb mode "name" then
    sorted entries
      (fun p => (d <- is_dir w p ;; Ok (negb d, Str.lower (PurePath.name p)))%res)
  else if String.eqb mode "size" then
    sorted entries
      (fun p => (d <- is_dir w p ;; sz <- _size w p ;; Ok (negb d, sz))%res)
  else if String.eqb mode "modified" then
    sorted entries
      (fun p => (d <- is_dir w p ;; mt <- _mtime w p ;; Ok (negb d, Qopp mt))%res)
  else if String.eqb mode "type" then
    sorted entries
      (fun p => (d <- is_dir w p ;;
                 Ok (negb d,
                     (Str.lower (PurePath.suffix p), Str.lower (PurePath.name p))))%res)
  else Ok entries.

(** The two filters of [refresh_table]. *)
Definition not_hidden (e : Path) : bool :=
  negb (Str.startswith "." (PurePath.name e)).

Definition matches_filter (text : string) (e : Path) : bool :=
  Str.contains (Str.lower text) (Str.lower (PurePath.name e)).

(** [table.clear()]: no rows, and the cursor back on the first row. *)
Definition table_clear : M unit :=
  SE.modify (with_table {| row_count := 0; cursor_row := 0 |}).

(** [table.add_row(...)]; the text of the cells is not modelled. *)
Definition table_add_row : M unit :=
  SE.modify (fun a =>
    with_table {| row_count := S (row_count (table a));
                  cursor_row := cursor_row (table a) |} a).

(** The status line [refresh_table] ends with. *)
Definition summary (a : App) : string :=
  let count := List.length (_row_entries a) in
  let sel_count := List.length (_selected a) in
  let sel_note :=
    match sel_count with
    | O => ""
    | _ => ("  (" ++ Str.of_nat sel_count ++ " selected)")%string
    end in
  let filter_note :=
    if Str.truthy (filter_text a)
    then ("  [filter: '" ++ filter_text a ++ "']")%string else "" in
  let hidden_note := if show_hidden a then "" else "  (hidden excluded)" in
  let undo_note :=
    match UndoStack.peek (_undo a) with
    | Some d => if Str.truthy d then ("  [undo: " ++ d ++ "]")%string else ""
    | None => ""
    end in
  let disk := disk_usage_str (world a) (current_dir a) in
  (Str.of_nat count ++ " items" ++ sel_note ++ filter_note ++ hidden_note
    ++ undo_note ++ disk)%string.

Definition refresh_table : M unit :=
  (table_clear ;;
   a <- SE.get ;;
   match iterdir (world a) (current_dir a) with
   | Raise (PermissionError _) => set_status "⚠  Permission denied"
   | Raise e => SE.raise e
   | Ok raw_entries =>
       entries <- SE.of_result (_sort_entries (world a) (sort_mode a) raw_entries) ;;
       (* Apply hidden filter *)
       let entries :=
         if negb (show_hidden a) then filter not_hidden entries else entries in
       (* Apply text filter *)
       let entries :=
         if Str.truthy (filter_text a)
         then filter (matches_filter (filter_text a)) entries else entries in
       SE.modify (with_row_entries []) ;;
       SE.for_each entries (fun entry =>
         (* the icon: [entry.is_dir()]; the other cells do not raise *)
         a <- SE.get ;;
         SE.of_result (is_dir (world a) entry) ;;
         table_add_row ;;
         SE.modify (fun a => with_row_entries (_row_entries a ++ [entry]) a)) ;;
       a <- SE.get ;;
       set_status (summary a)
   end)%se.

Definition selected_entry (a : App) : option Path :=
  let row_idx := cursor_row (table a) in
  if (row_idx <? 0)%Z || (row_count (table a) =? 0)%nat then None
  else nth_error (_row_entries a) (Z.to_nat row_idx).

(** Return selected paths if any, otherwise just the cursor row entry. *)
Definition _effective_targets (a : App) : list Path :=
  match _selected a with
  | _ :: _ => _selected a
  | [] =>
      match selected_entry a with
      | Some entry => [entry]
      | None => []
      end
  end.

(** *** Reactive attributes *)

(** The path bar and the directory tree are not modelled. *)
Definition watch_current_dir (new_dir : Path) : M unit :=
  (SE.modify (with_selected []) ;;
   a <- SE.get ;;
   status_map <- SE.of_result (get_git_status (run_git_status (world a) new_dir)) ;;
   SE.modify (with_git_status status_map) ;;
   refresh_table)%se.

(** [self.current_dir = v]: the watcher runs when the value changes. *)
Definition assign_current_dir (v : Path) : M unit :=
  (a <- SE.get ;;
   SE.modify (with_current_dir v) ;;
   if Path_eqb (current_dir a) v then SE.ret tt
   else watch_current_dir v)%se.

Definition watch_clipboard (path : option Path) : M unit :=
  match path with
  | Some path =>
      (a <- SE.get ;;
       let op := if String.eqb (clipboard_op a) "cut" then "✂ Cut" else "📋 Copied" in
       set_status (op ++ ": " ++ PurePath.name path ++ "  — press [V] to paste"))%se
  | None => SE.ret tt
  end.

(** [self.clipboard = v]: the watcher runs when the value changes. *)
Definition assign_clipboard (v : option Path) : M unit :=
  (a <- SE.get ;;
   SE.modify (with_clipboard v) ;;
   if clipboard_eqb (clipboard a) v then SE.ret tt
   else watch_clipboard v)%se.

Definition push_undo (description : string) (undo_fn : SE W unit) : M unit :=
  SE.modify (fun a => with_undo (UndoStack.push description undo_fn (_undo a)) a).

(** The closure pushed by a copy-paste and by an extraction: delete the
    produced file or directory. *)
Definition remove_path (d : Path) : SE W unit :=
  fun w =>
    match is_dir w d with
    | Ok true => shutil_rmtree d w
    | Ok false => unlink_missing_ok d w
    | Raise e => (Raise e, w)
    end.

(** *** Actions *)

(** The closure pushed by a delete: move every trashed path back. *)
Definition _undo_delete (moves : list (Path * Path)) : SE W unit :=
  SE.for_each moves (fun m => shutil_move (fst m) (snd m)).

(** The loop of [action_delete] over the targets.  [None] is the [return]
    of the [except] branch, otherwise the moves that were made. *)
Fixpoint trash_each (targets : list Path) (undo_moves : list (Path * Path))
  : M (option (list (Path * Path))) :=
  match targets with
  | [] => SE.ret (Some undo_moves)
  | entry :: rest =>
      (r <- SE.attempt
             (a <- SE.get ;;
              let ts := strftime_now (world a) in
              let trash_path := TRASH_DIR // (ts ++ "_" ++ PurePath.name entry) in
              io (shutil_move entry trash_path) ;;
              SE.ret trash_path) ;;
       match r with
       | Ok trash_path => trash_each rest (undo_moves ++ [(trash_path, entry)])
       | Raise e =>
           set_status ("⚠  Error deleting " ++ PurePath.name entry ++ ": " ++ str_exn e) ;;
           SE.ret None
       end)%se
  end.

(** [action_delete]; [confirmed] is the answer of the confirmation
    dialog. *)
Definition action_delete (confirmed : bool) : M unit :=
  (a <- SE.get ;;
   let targets := _effective_targets a in
   match targets with
   | [] => set_status "⚠  No item selected."
   | first :: others =>
       let label :=
         match others with
         | [] => PurePath.name first
         | _ => (Str.of_nat (List.length targets) ++ " items")%string
         end in
       if confirmed then
         io (mkdir_parents TRASH_DIR) ;;
         done <- trash_each targets [] ;;
         match done with
         | None => SE.ret tt
         | Some undo_moves =>
             SE.modify (with_selected []) ;;
             refresh_table ;;
             set_status ("✔  Deleted: " ++ label ++ "  (press U to undo)") ;;
             push_undo ("delete " ++ label) (_undo_delete undo_moves)
         end
       else SE.ret tt
   end)%se.

Definition action_copy_item : M unit :=
  (a <- SE.get ;;
   match selected_entry a with
   | None => set_status "⚠  No item selected."
   | Some entry =>
       assign_clipboard (Some entry) ;;
       SE.modify (with_clipboard_op "copy")
   end)%se.

Definition action_cut_item : M unit :=
  (a <- SE.get ;;
   match selected_entry a with
   | None => set_status "⚠  No item selected."
   | Some entry =>
       assign_clipboard (Some entry) ;;
       SE.modify (with_clipboard_op "cut") ;;
       set_status ("✂  Cut: " ++ PurePath.name entry
                   ++ "  — navigate to destination and press V to move")
   end)%se.

Definition action_paste_item : M unit :=
  (a <- SE.get ;;
   match clipboard a with
   | None =>
       set_status "⚠  Clipboard is empty. Use [C] to copy or [T] to cut first."
   | Some src =>
       let dst := current_dir a // PurePath.name src in
       if Path_eqb dst src then
         set_status "⚠  Source and destination are the same."
       else
         SE.try_except
           ((if String.eqb (clipboard_op a) "cut" then
               io (shutil_move src dst) ;;
               let original_src := src in
               assign_clipboard None ;;
               set_status ("✔  Moved: " ++ PurePath.name src) ;;
               (* Undo: move back *)
               push_undo ("move " ++ PurePath.name src) (shutil_move dst original_src)
             else
               src_is_dir <- SE.of_result (is_dir (world a) src) ;;
               (if src_is_dir
                then io (shutil_copytree src dst)
                else io (shutil_copy2 src dst)) ;;
               set_status ("✔  Copied: " ++ PurePath.name src) ;;
               (* Undo: delete the copy *)
               push_undo ("copy " ++ PurePath.name src) (remove_path dst)) ;;
            refresh_table)
           (fun e => set_status ("⚠  Error: " ++ str_exn e))
   end)%se.

Definition action_undo : M unit :=
  (a <- SE.get ;;
   let (op, rest) := UndoStack.pop (_undo a) in
   SE.modify (with_undo rest) ;;
   match op with
   | None => set_status "⚠  Nothing to undo."
   | Some (description, undo_fn) =>
       SE.try_except
         (io undo_fn ;;
          refresh_table ;;
          set_status ("↩  Undone: " ++ description))
         (fun e => set_status ("⚠  Undo failed: " ++ str_exn e))
   end)%se.

(** [_extract_archive] *)
Definition _extract_archive (path : Path) : M unit :=
  (a <- SE.get ;;
   let dest := current_dir a // PurePath.stem path in
   SE.try_except
     (let name := Str.lower (PurePath.name path) in
      let finish (dest : Path) : M unit :=
        refresh_table ;;
        set_status ("✔  Extracted: " ++ PurePath.name path ++ "  →  "
                    ++ PurePath.name dest) ;;
        (* Undo: delete extracted output *)
        push_undo ("extract " ++ PurePath.name path) (remove_path dest) in
      if Str.endswith ".zip" name then
        io (zip_extractall path dest) ;; finish dest
      else if existsb (fun sfx => Str.endswith sfx name)
                      [".tar.gz"; ".tgz"; ".tar.bz2"; ".tar.xz"; ".tar"] then
        io (tar_extractall path dest) ;; finish dest
      else if Str.endswith ".gz" name then
        let dest := current_dir a // PurePath.stem path in
        io (gzip_copy path dest) ;; finish dest
      else
        set_status ("⚠  Unsupported archive format: " ++ PurePath.suffix path))
     (fun e => set_status ("⚠  Extraction error: " ++ str_exn e)))%se.

(** [f.relative_to(base)] *)
Fixpoint relative_to (f base : Path) : result Path :=
  match base, f with
  | [], _ => Ok f
  | b :: base', x :: f' =>
      if String.eqb b x then relative_to f' base'
      else Raise (OtherError "is not in the subpath")
  | _ :: _, [] => Raise (OtherError "is not in the subpath")
  end.

(** The body of the [with zipfile.ZipFile(out_path, "w", ...)] block. *)
Definition zip_targets (out_path : Path) (targets : list Path) : M unit :=
  SE.for_each targets (fun t =>
    (a <- SE.get ;;
     t_is_dir <- SE.of_result (is_dir (world a) t) ;;
     if t_is_dir then
       files <- SE.of_result (rglob (world a) t) ;;
       SE.for_each files (fun f =>
         arcname <- SE.of_result (relative_to f (PurePath.parent t)) ;;
         io (zip_write out_path f arcname))
     else io (zip_write out_path t [PurePath.name t]))%se).

(** [with zipfile.ZipFile(out_path, "w", ...) as zf: body]: the archive is
    closed however the body ends. *)
Definition with_zip_w (out_path : Path) (body : M unit) : M unit :=
  (io (zip_open_w out_path) ;;
   r <- SE.attempt body ;;
   io (zip_close out_path) ;;
   SE.of_result r)%se.

(** The name of the archive: [result if result.endswith(".zip") else
    result + ".zip"]. *)
Definition archive_name (result : string) : string :=
  if Str.endswith ".zip" result then result else (result ++ ".zip")%string.

(** The callback [handle] of [action_archive]; [result] is what the name
    dialog returns. *)
Definition archive_handle (targets : list Path) (result : option string) : M unit :=
  match result with
  | None => SE.ret tt
  | Some result =>
      if negb (Str.truthy result) then SE.ret tt
      else
        (a <- SE.get ;;
         let name := archive_name result in
         let out_path := current_dir a // name in
         SE.try_except
           (with_zip_w out_path (zip_targets out_path targets) ;;
            SE.modify (with_selected []) ;;
            refresh_table ;;
            set_status ("✔  Created archive: " ++ name) ;;
            (* Undo: delete the zip *)
            push_undo ("zip " ++ name) (unlink_missing_ok out_path))
           (fun e => set_status ("⚠  Archive error: " ++ str_exn e)))%se
  end.

(** [action_archive]; [result] is what the name dialog returns. *)
Definition action_archive (result : option string) : M unit :=
  (a <- SE.get ;;
   let entry := selected_entry a in
   let targets := _effective_targets a in
   (* If cursor is on a single archive file and nothing is selected *)
   let extract :=
     match entry with
     | Some entry =>
         if is_archive entry && negb (Str.truthy_list (_selected a))
         then Some entry else None
     | None => None
     end in
   match extract with
   | Some entry => _extract_archive entry
   | None =>
       (* Otherwise zip the targets (or the cursor entry if no selection) *)
       match targets with
       | [] => set_status "⚠  No items selected to zip. Use Space to select files."
       | _ :: _ => archive_handle targets result
       end
   end)%se.

(** *** Vocabulary of the properties *)

(** The kind of every entry can be read: [is_dir] returns. *)
Definition readable (w : W) (l : list Path) : Prop :=
  Forall (fun p => exists d, is_dir w p = Ok d) l.

(** What [is_dir] returns, where it returns. *)
Definition dir_flag (w : W) (p : Path) : bool :=
  match is_dir w p with Ok d => d | Raise _ => false end.



(** All directories come before everything else. *)
Definition dirs_first (w : W) (l : list Path) : Prop :=
  exists ds fs,
    l = ds ++ fs
    /\ Forall (fun p => is_dir w p = Ok true) ds
    /\ Forall (fun p => is_dir w p = Ok false) fs.

(** Two application states that differ at most in what is displayed:
    the table, the rows behind it and the status bar. *)
Definition same_session (a b : App) : Prop :=
  current_dir b = current_dir a
  /\ show_hidden b = show_hidden a
  /\ clipboard b = clipboard a
  /\ clipboard_op b = clipboard_op a
  /\ sort_mode b = sort_mode a
  /\ filter_text b = filter_text a
  /\ _selected b = _selected a
  /\ _undo b = _undo a
  /\ _git_status b = _git_status a
  /\ world b = world a.

(** Two application states with the same text in the status bar. *)
Definition same_status (a b : App) : Prop := status b = status a.

(** The order of two keyed entries by their primary key, [not is_dir]. *)
Definition primary_le {K' : Type} (x y : (bool * K') * Path) : Prop :=
  fst (fst x) = true -> fst (fst y) = true.

(** The values of the key functions, which do not raise. *)
Definition size_key (w : W) (p : Path) : Z :=
  match _size w p with Ok z => z | Raise _ => 0%Z end.

Definition mtime_key (w : W) (p : Path) : Q :=
  match _mtime w p with Ok q => q | Raise _ => 0%Q end.

(** The sort keys of the four modes, where [is_dir] returns. *)
Definition name_key (w : W) (p : Path) : bool * string :=
  (negb (dir_flag w p), Str.lower (PurePath.name p)).

Definition size_keys (w : W) (p : Path) : bool * Z :=
  (negb (dir_flag w p), size_key w p).

Definition modified_key (w : W) (p : Path) : bool * Q :=
  (negb (dir_flag w p), Qopp (mtime_key w p)).

Definition type_key (w : W) (p : Path) : bool * (string * string) :=
  (negb (dir_flag w p), (Str.lower (PurePath.suffix p), Str.lower (PurePath.name p))).

Definition sorted_on {K'} `{PyOrd K'} (key : Path -> K') (l : list Path) : list Path :=
  map snd (sort_keyed (map (fun p => (key p, p)) l)).

(** Soft delete as a run of moves on the world alone: each entry in
    turn is moved under the trash directory; the run stops at the first
    move that raises.  The result is the moves made, the entry that
    failed (if one did) with its exception, and the world that is left. *)
Fixpoint trash_moves (w : W) (targets : list Path)
  : list (Path * Path) * option (Path * exn) * W :=
  match targets with
  | [] => ([], None, w)
  | entry :: rest =>
      let trash_path :=
        TRASH_DIR // (strftime_now w ++ "_" ++ PurePath.name entry) in
      match shutil_move entry trash_path w with
      | (Ok _, w1) =>
          let '(moves, failed, w2) := trash_moves w1 rest in
          ((trash_path, entry) :: moves, failed, w2)
      | (Raise e, w1) => ([], Some (entry, e), w1)
      end
  end.

(** Only the world may differ. *)
Definition only_world (a b : App) : Prop := b = with_world (world b) a.

(** The cursor is on an archive and nothing is selected: the condition
    under which [action_archive] extracts. *)
Definition cursor_on_archive (a : App) (entry : Path) : Prop :=
  selected_entry a = Some entry
  /\ _selected a = []
  /\ is_archive entry = true.

(** The suffixes [_extract_archive] hands to [tarfile]. *)
Definition tar_suffixes : list string :=
  [".tar.gz"; ".tgz"; ".tar.bz2"; ".tar.xz"; ".tar"].

(** What an extraction of [path] by the library call [extractor] leaves
    when the call succeeds: the world the call left, made with the
    destination [dest]; and, when the listing that follows does not
    raise, the report of [dest] in the status bar and an undo entry that
    deletes [dest]. *)
Definition extracted_with (extractor : Path -> Path -> SE W unit)
           (a : App) (path dest : Path) (after : App) : Prop :=
  forall w1,
    extractor path dest (world a) = (Ok tt, w1) ->
    world after = w1
    /\ (fst (refresh_table (with_world w1 a)) = Ok tt ->
        status after
        = ("✔  Extracted: " ++ PurePath.name path ++ "  →  " ++ PurePath.name dest)%string
        /\ _undo after
           = UndoStack.push ("extract " ++ PurePath.name path) (remove_path dest)
                            (_undo a)).


(** The listing in the words of the specification: of the sorted entries,
    those that pass the hidden-file policy, and of these, those that match
    the filter. *)
Definition listing_of (a : App) (sorted_entries : list Path) : list Path :=
  filter (matches_filter (filter_text a))
    (filter (fun e => show_hidden a || not_hidden e) sorted_entries).

(** The state [refresh_table] leaves when it has listed [listing]. *)
Definition listed (listing : list Path) (a : App) : App :=
  let a' :=
    with_row_entries listing
      (with_table {| row_count := List.length listing; cursor_row := 0 |} a) in
  with_status (summary a') a'.

End FileManagerApp.

Arguments App W : clear implicits.
Arguments M W A : clear implicits.

(* ------------------------------------------------------------------ *)
(** ** A small world to run the application in *)

(** A file system kept as a table from paths to nodes, with a clock.  It
    implements the operations of [OS] in the simplest way that lets the
    actions above be evaluated; the properties below are proved for every
    implementation of [OS] and are only evaluated here. *)
Module Sim.

Inductive member : Type :=
| MDir
| MFile (bytes : string).

(** What a file holds: plain bytes, the gzip stream of some bytes, or a
    tar or zip container with its stored entries. *)
Inductive content : Type :=
| Data (bytes : string)
| Gz (payload : string)
| Tar (members : list (Path * member))
| Zip (members : list (Path * member)).

(** [Pinned] is an empty file that can be neither moved nor removed (a
    file with the immutable flag).  [Sealed] is an entry that is listed by
    its directory but cannot be examined (an entry of a directory that may
    be read but not searched). *)
Inductive node : Type :=
| Dir
| File (c : content) (mtime : Q)
| Pinned
| Sealed.

Record t : Type := {
  nodes : list (Path * node);
  clock : nat
}.

Definition tick (ns : list (Path * node)) (w : t) : t :=
  {| nodes := ns; clock := S (clock w) |}.

Fixpoint lookup (p : Path) (ns : list (Path * node)) : option node :=
  match ns with
  | [] => None
  | (q, n) :: ns' => if Path_eqb q p then Some n else lookup p ns'
  end.

Fixpoint set_node (p : Path) (n : node) (ns : list (Path * node))
  : list (Path * node) :=
  match ns with
  | [] => [(p, n)]
  | (q, m) :: ns' =>
      if Path_eqb q p then (p, n) :: ns' else (q, m) :: set_node p n ns'
  end.

(** [q] is [p] or lies below it. *)
Fixpoint within (p q : Path) : bool :=
  match p, q with
  | [], _ => true
  | x :: p', y :: q' => String.eqb x y && within p' q'
  | _ :: _, [] => false
  end.

Definition below (p q : Path) : bool := within p q && negb (Path_eqb p q).

Definition rebase (src dst : Path) (e : Path * node) : Path * node :=
  if within src (fst e) then (dst ++ skipn (List.length src) (fst e), snd e) else e.

Definition size_of (c : content) : Z :=
  match c with
  | Data b => Z.of_nat (String.length b)
  | Gz b => Z.of_nat (String.length b) + 18
  | Tar ms | Zip ms => 512 * Z.of_nat (List.length ms)
  end.

Definition raw_bytes (c : content) : string :=
  match c with
  | Data b => b
  | Gz b => ("gz:" ++ b)%string
  | Tar _ => "tar"
  | Zip _ => "zip"
  end.

Definition enoent {A} : result A := Raise (NotFoundError "No such file or directory").

Definition eperm {A} : result A := Raise (PermissionError "Operation not permitted").

Definition stat (w : t) (p : Path) : result stat_result :=
  match lookup p (nodes w) with
  | Some Dir => Ok {| st_type := S_IFDIR; st_size := 4096; st_mtime := 0%Q |}
  | Some (File c m) => Ok {| st_type := S_IFREG; st_size := size_of c; st_mtime := m |}
  | Some Pinned => Ok {| st_type := S_IFREG; st_size := 0; st_mtime := 0%Q |}
  | Some Sealed => Raise (PermissionError "Permission denied")
  | None => enoent
  end.

Definition children (w : t) (p : Path) : list Path :=
  filter (fun q => Path_eqb (removelast q) p && negb (Path_eqb q p))
         (map fst (nodes w)).

Definition listdir (w : t) (p : Path) : result (list Path) :=
  match lookup p (nodes w) with
  | Some Dir => Ok (children w p)
  | Some Sealed => Raise (PermissionError "Permission denied")
  | Some (File _ _) | Some Pinned => Raise (NotFoundError "Not a directory")
  | None => enoent
  end.

Definition descendants (w : t) (p : Path) : result (list Path) :=
  Ok (filter (below p) (map fst (nodes w))).

(** Make [p] and every missing ancestor a directory. *)
Fixpoint make_dirs (k : nat) (p : Path) (ns : list (Path * node))
  : list (Path * node) :=
  match k with
  | O => ns
  | S k' =>
      let ns' := make_dirs k' p ns in
      let q := firstn k p in
      match lookup q ns' with
      | None => set_node q Dir ns'
      | Some _ => ns'
      end
  end.

Definition mkdirs (p : Path) : SE t unit :=
  fun w => (Ok tt, tick (make_dirs (List.length p) p (nodes w)) w).

Definition present (p : Path) (ns : list (Path * node)) : bool :=
  match lookup p ns with Some _ => true | None => false end.

(** Where [shutil.move] and [shutil.copy2] put the source: inside [dst],
    under its own name, when [dst] is a directory that exists, and at [dst]
    otherwise. *)
Definition real_dst (src dst : Path) (ns : list (Path * node)) : Path :=
  match lookup dst ns with
  | Some Dir => dst ++ [last src ""]
  | _ => dst
  end.

(** [os.rename(src, dst)] once it is allowed: what was at [dst] is
    replaced, and the source goes there with everything below it. *)
Definition renamed (src dst : Path) (ns : list (Path * node)) : list (Path * node) :=
  map (rebase src dst) (filter (fun e => negb (Path_eqb (fst e) dst)) ns).

(** [shutil.move(src, dst)].  Moving a path to itself changes nothing; an
    existing directory at [dst] takes the source inside, unless the name is
    taken there; a file at the destination is replaced by a file; a
    directory is not moved into itself; a source that lies below a path
    that is not there cannot be reached. *)
Definition move (src dst : Path) : SE t unit :=
  fun w =>
    let ns := nodes w in
    let target := real_dst src dst ns in
    match lookup src ns with
    | None => (enoent, tick ns w)
    | Some Pinned | Some Sealed => (eperm, tick ns w)
    | Some n =>
        if Path_eqb src dst then (Ok tt, tick ns w)
        else if negb (Path_eqb target dst) && present target ns
        then (Raise (OtherError "Destination path already exists"), tick ns w)
        else if Path_eqb src target then (Ok tt, tick ns w)
        else if within src target
        then (Raise (OtherError "Cannot move a directory into itself"), tick ns w)
        else if below target src then (enoent, tick ns w)
        else
          match lookup (removelast target) ns, lookup target ns, n with
          | Some Dir, None, _ => (Ok tt, tick (renamed src target ns) w)
          | Some Dir, Some (File _ _), File _ _ =>
              (Ok tt, tick (renamed src target ns) w)
          | Some Dir, Some _, _ => (Raise (OtherError "File exists"), tick ns w)
          | _, _, _ => (enoent, tick ns w)
          end
    end.

(** [shutil.copytree(src, dst)]: the destination must not exist. *)
Definition copytree (src dst : Path) : SE t unit :=
  fun w =>
    match lookup src (nodes w), lookup dst (nodes w),
          lookup (removelast dst) (nodes w) with
    | Some Dir, None, Some Dir =>
        (Ok tt,
         tick (nodes w ++ map (rebase src dst)
                            (filter (fun e => within src (fst e)) (nodes w))) w)
    | Some Dir, Some _, _ => (Raise (OtherError "File exists"), tick (nodes w) w)
    | Some Sealed, _, _ => (eperm, tick (nodes w) w)
    | Some (File _ _), _, _ | Some Pinned, _, _ =>
        (Raise (NotFoundError "Not a directory"), tick (nodes w) w)
    | _, _, _ => (enoent, tick (nodes w) w)
    end.

(** [shutil.copy2(src, dst)]: the file is copied with its modification
    time, into [dst] when that is a directory, and over a file that is
    already there. *)
Definition copy2 (src dst : Path) : SE t unit :=
  fun w =>
    let ns := nodes w in
    let target := real_dst src dst ns in
    let copied :=
      match lookup src ns with
      | Some (File c m) => Ok (File c m)
      | Some Pinned => Ok (File (Data "") 0%Q)
      | Some Dir => Raise (OtherError "Is a directory")
      | Some Sealed => Raise (PermissionError "Permission denied")
      | None => enoent
      end in
    match copied, lookup (removelast target) ns, lookup target ns with
    | Ok n, Some Dir, None | Ok n, Some Dir, Some (File _ _) =>
        (Ok tt, tick (set_node target n ns) w)
    | Ok _, Some Dir, Some Dir => (Raise (OtherError "Is a directory"), tick ns w)
    | Ok _, Some Dir, Some _ => (eperm, tick ns w)
    | Ok _, _, _ => (enoent, tick ns w)
    | Raise e, _, _ => (Raise e, tick ns w)
    end.

Definition rmtree (p : Path) : SE t unit :=
  fun w =>
    match lookup p (nodes w) with
    | Some Dir =>
        (Ok tt, tick (filter (fun e => negb (within p (fst e))) (nodes w)) w)
    | _ => (Raise (OtherError "Not a directory"), tick (nodes w) w)
    end.

Definition unlink (p : Path) : SE t unit :=
  fun w =>
    match lookup p (nodes w) with
    | Some Dir => (Raise (OtherError "Is a directory"), tick (nodes w) w)
    | Some Pinned => (eperm, tick (nodes w) w)
    | _ =>
        (Ok tt, tick (filter (fun e => negb (Path_eqb (fst e) p)) (nodes w)) w)
    end.

Definition zip_open (out : Path) : SE t unit :=
  fun w => (Ok tt, tick (set_node out (File (Zip []) 0%Q) (nodes w)) w).

Definition zip_add (out src arcname : Path) : SE t unit :=
  fun w =>
    match lookup out (nodes w), lookup src (nodes w) with
    | Some (File (Zip ms) m), Some Dir =>
        (Ok tt, tick (set_node out (File (Zip (ms ++ [(arcname, MDir)])) m) (nodes w)) w)
    | Some (File (Zip ms) m), Some (File c _) =>
        (Ok tt,
         tick (set_node out (File (Zip (ms ++ [(arcname, MFile (raw_bytes c))])) m)
                        (nodes w)) w)
    | _, _ => (enoent, tick (nodes w) w)
    end.

Definition unpack (dest : Path) (ms : list (Path * member)) (ns : list (Path * node))
  : list (Path * node) :=
  fold_left
    (fun ns m =>
       let q := dest ++ fst m in
       match snd m with
       | MDir => make_dirs (List.length q) q ns
       | MFile b =>
           set_node q (File (Data b) 0%Q)
                    (make_dirs (List.length q - 1) (removelast q) ns)
       end)
    ms (make_dirs (List.length dest) dest ns).

Definition unzip (path dest : Path) : SE t unit :=
  fun w =>
    match lookup path (nodes w) with
    | Some (File (Zip ms) _) => (Ok tt, tick (unpack dest ms (nodes w)) w)
    | Some _ => (Raise (OtherError "File is not a zip file"), tick (nodes w) w)
    | None => (enoent, tick (nodes w) w)
    end.

Definition untar (path dest : Path) : SE t unit :=
  fun w =>
    match lookup path (nodes w) with
    | Some (File (Tar ms) _) => (Ok tt, tick (unpack dest ms (nodes w)) w)
    | Some _ => (Raise (OtherError "file could not be opened successfully"),
                 tick (nodes w) w)
    | None => (enoent, tick (nodes w) w)
    end.

(** The output file is opened, and so created, before the stream is
    read. *)
Definition gunzip (path dest : Path) : SE t unit :=
  fun w =>
    match lookup path (nodes w) with
    | Some (File (Gz b) _) =>
        (Ok tt, tick (set_node dest (File (Data b) 0%Q) (nodes w)) w)
    | Some _ =>
        (Raise (OtherError "Not a gzipped file"),
         tick (set_node dest (File (Data "") 0%Q) (nodes w)) w)
    | None => (enoent, tick (nodes w) w)
    end.

#[global] Instance os : OS t := {|
  Path_home := ["/"; "home"; "user"];
  os_stat := stat;
  iterdir := listdir;
  rglob := descendants;
  run_git_status := fun _ _ =>
    Ok {| returncode := 128; stdout := "fatal: not a git repository" |};
  disk_usage_str := fun _ _ => "";
  strftime_now := fun w => ("19700101_000000_" ++ Str.of_nat (clock w))%string;
  mkdir_parents := mkdirs;
  shutil_move := move;
  shutil_copytree := copytree;
  shutil_copy2 := copy2;
  shutil_rmtree := rmtree;
  unlink_missing_ok := unlink;
  zip_open_w := zip_open;
  zip_write := zip_add;
  zip_close := fun _ w => (Ok tt, w);
  zip_extractall := unzip;
  tar_extractall := untar;
  gzip_copy := gunzip
|}.

(** A session in a directory [cwd] of a world [w], before the first
    listing. *)
Definition start (cwd : Path) (w : t) : App t :=
  {| current_dir := cwd;
     show_hidden := false;
     clipboard := None;
     clipboard_op := "copy";
     sort_mode := "name";
     filter_text := "";
     _row_entries := [];
     _selected := [];
     _undo := UndoStack.init;
     _git_status := [];
     table := {| row_count := 0; cursor_row := 0 |};
     status := "";
     world := w |}.

Definition docs : Path := ["/"; "home"; "user"; "docs"].
Definition inbox : Path := ["/"; "home"; "user"; "inbox"].

(** A home directory with two sub-directories. *)
Definition w0 : t :=
  {| nodes :=
       [ (["/"], Dir);
         (["/"; "home"], Dir);
         (["/"; "home"; "user"], Dir);
         (docs, Dir);
         (inbox, Dir);
         (docs ++ ["b.txt"], File (Data "hello") (5 # 1));
         (docs ++ ["Sub"], Dir);
         (docs ++ ["a.txt"], File (Data "hi") (9 # 1));
         (docs ++ [".git"], Dir);
         (docs ++ ["ghost"], Pinned);
         (docs ++ ["data.tar.gz"],
          File (Tar [(["x"], MDir); (["x"; "y.txt"], MFile "why")]) (1 # 1));
         (docs ++ ["note.gz"], File (Gz "remember") (2 # 1)) ];
     clock := 0 |}.

Definition vault : Path := ["/"; "home"; "user"; "vault"].

(** The same home directory with a third sub-directory, which may be read
    but not searched: its entry is listed and cannot be examined. *)
Definition w_vault : t :=
  {| nodes := nodes w0 ++ [ (vault, Dir); (vault ++ ["key"], Sealed) ];
     clock := 0 |}.


(** The cursor moved to row [i] of the table. *)
Definition cursor_at (i : Z) (a : App t) : App t :=
  with_table {| row_count := row_count (table a); cursor_row := i |} a.

(** The session after the first listing of [docs], with the cursor on
    the row of [a.txt]. *)
Definition on_a_txt : App t :=
  cursor_at 1 (snd (refresh_table (start docs w0))).

(** The same with all hidden files shown and the cursor on the row of
    [data.tar.gz]. *)
Definition on_data_tar_gz : App t :=
  cursor_at 3 (snd (refresh_table (start docs w0))).

Definition on_note_gz : App t :=
  cursor_at 5 (snd (refresh_table (start docs w0))).

(** Three entries selected for deletion; the second cannot be moved. *)
Definition batch : App t :=
  with_selected [docs ++ ["a.txt"]; docs ++ ["ghost"]; docs ++ ["b.txt"]] on_a_txt.

(** The cursor on [data.tar.gz], which is also the only selected
    entry. *)
Definition archive_selected : App t :=
  with_selected [docs ++ ["data.tar.gz"]] on_data_tar_gz.

(** The session after the first listing of the empty directory [inbox]. *)
Definition in_inbox : App t := snd (refresh_table (start inbox w0)).

End Sim.

(* ------------------------------------------------------------------ *)
(** ** The order of the sort keys *)

(** [x <= y] and "neither is smaller", both read off [<] as [sorted]
    does. *)
Definition py_le {K} `{PyOrd K} (x y : K) : bool := negb (py_lt y x).

Definition py_equiv {K} `{PyOrd K} (x y : K) : bool := py_le x y && py_le y x.

(** What [sorted] needs of the comparison of its keys: [<] is asymmetric,
    [<=] is transitive, and [==] holds exactly between keys of which
    neither is smaller. *)
Record PyOrdLaws (K : Type) `{PyOrd K} : Prop := {
  law_asym : forall x y : K, py_lt x y = true -> py_lt y x = false;
  law_le_trans : forall x y z : K,
      py_le x y = true -> py_le y z = true -> py_le x z = true;
  law_eq : forall x y : K, py_eq x y = py_equiv x y
}.

(* ------------------------------------------------------------------ *)
(** ** Vocabulary of the further properties *)



(** A text of white space only. *)
Fixpoint blank (s : string) : bool :=
  match s with
  | EmptyString => true
  | String c s' => Str.isspace c && blank s'
  end.

(** The sort mode that follows [mode] in [SORT_MODES], going round. *)
Definition next_sort_mode (mode : string) : string :=
  if String.eqb mode "name" then "size"
  else if String.eqb mode "size" then "modified"
  else if String.eqb mode "modified" then "type"
  else "name".

(** The names [_extract_archive] can extract. *)
Definition extractable (path : Path) : bool :=
  let name := Str.lower (PurePath.name path) in
  Str.endswith ".zip" name
  || existsb (fun sfx => Str.endswith sfx name)
             [".tar.gz"; ".tgz"; ".tar.bz2"; ".tar.xz"; ".tar"]
  || Str.endswith ".gz" name.

(* ------------------------------------------------------------------ *)
(** ** More of the application *)

(** *** The size shown for a file *)

(** The integer nearest to [q], ties to the even one. *)
Definition round_half_even (q : Q) : Z :=
  let f := Qfloor q in
  match Qcompare (q - inject_Z f) (1 # 2) with
  | Lt => f
  | Gt => (f + 1)%Z
  | Eq => if Z.even f then f else (f + 1)%Z
  end.

(** [str(n)] for an integer that is not negative. *)
Definition str_Z (n : Z) : string := Str.of_nat (Z.to_nat n).

(** [f"{x:.1f}"]: the decimal with one digit after the point that is
    nearest to [x], ties to the even digit. *)
Definition format_1f (x : Q) : string :=
  let t := round_half_even (Qabs x * 10) in
  ((if py_lt x 0%Q then "-" else "")
   ++ str_Z (t / 10) ++ "." ++ str_Z (t mod 10))%string.

(** The loop of [human_size] over the units that are left.  The float the
    source divides is the rational [size] here: dividing by 1024 is exact
    on floats, and an integer below [2^53] is a float. *)
Fixpoint human_size_loop (units : list string) (size : Q) : string :=
  match units with
  | [] => (format_1f size ++ " PB")%string
  | unit :: units' =>
      if py_lt size 1024%Q then (format_1f size ++ " " ++ unit)%string
      else human_size_loop units' (size / 1024)%Q
  end.

(** [human_size] *)
Definition human_size (size : Z) : string :=
  human_size_loop ["B"; "KB"; "MB"; "GB"; "TB"] (inject_Z size).

(** The units of [human_size], from bytes up. *)
Definition size_units : list string := ["B"; "KB"; "MB"; "GB"; "TB"; "PB"].

(** The size after [k] rounds of the loop. *)
Definition scaled (k : nat) (size : Q) : Q :=
  Nat.iter k (fun x => (x / 1024)%Q) size.

Definition pow1024 (k : nat) : positive := Nat.iter k (Pos.mul 1024) 1%positive.

(** What creating a file or a directory may raise: [FileExistsError], which
    the source tells apart, or another exception. *)
Inductive create_error : Type :=
| FileExistsError (msg : string)
| CreateError (e : exn).

(** The remaining calls of [pathlib] that change the file system. *)
Class OSFiles (W : Type) : Type := {
  (** [p.touch(exist_ok=False)] *)
  touch_new : Path -> W -> option create_error * W;
  (** [p.mkdir(parents=False, exist_ok=False)] *)
  mkdir_new : Path -> W -> option create_error * W;
  (** [p.rename(target)] *)
  path_rename : Path -> Path -> SE W unit;
  (** [p.rmdir()] *)
  path_rmdir : Path -> SE W unit;
  (** The home directory [expanduser] finds for a user name; the empty
      name is the current user. *)
  gethomedir : W -> string -> result Path
}.

Section FileManagerViews.

Context {W : Type} {os : OS W}.

Definition with_show_hidden (v : bool) (a : App W) : App W :=
  mkApp (current_dir a) v (clipboard a) (clipboard_op a) (sort_mode a)
        (filter_text a) (_row_entries a) (_selected a) (_undo a)
        (_git_status a) (table a) (status a) (world a).

Definition with_sort_mode (v : string) (a : App W) : App W :=
  mkApp (current_dir a) (show_hidden a) (clipboard a) (clipboard_op a) v
        (filter_text a) (_row_entries a) (_selected a) (_undo a)
        (_git_status a) (table a) (status a) (world a).

Definition with_filter_text (v : string) (a : App W) : App W :=
  mkApp (current_dir a) (show_hidden a) (clipboard a) (clipboard_op a) (sort_mode a)
        v (_row_entries a) (_selected a) (_undo a)
        (_git_status a) (table a) (status a) (world a).

(** Two entries have equal sort keys under [mode] ([==] on the key
    tuples); under a value of [mode] that is not a sort mode nothing is
    compared. *)
Definition same_sort_key (w : W) (mode : string) (p q : Path) : bool :=
  if String.eqb mode "name" then py_eq (name_key w q) (name_key w p)
  else if String.eqb mode "size" then py_eq (size_keys w q) (size_keys w p)
  else if String.eqb mode "modified" then py_eq (modified_key w q) (modified_key w p)
  else if String.eqb mode "type" then py_eq (type_key w q) (type_key w p)
  else true.

(** *** Reactive attributes *)

(** The sort bar is not modelled. *)
Definition watch_sort_mode (mode : string) : M W unit := refresh_table.

Definition watch_filter_text (text : string) : M W unit := refresh_table.

(** [self.sort_mode = v]: the watcher runs when the value changes. *)
Definition assign_sort_mode (v : string) : M W unit :=
  (a <- SE.get ;;
   SE.modify (with_sort_mode v) ;;
   if String.eqb (sort_mode a) v then SE.ret tt else watch_sort_mode v)%se.

(** [self.filter_text = v]: the watcher runs when the value changes. *)
Definition assign_filter_text (v : string) : M W unit :=
  (a <- SE.get ;;
   SE.modify (with_filter_text v) ;;
   if String.eqb (filter_text a) v then SE.ret tt else watch_filter_text v)%se.

(** *** The key handler for Space *)

(** [self._selected.discard(entry)] *)
Definition set_discard (entry : Path) (s : list Path) : list Path :=
  filter (fun p => negb (Path_eqb p entry)) s.

(** [entry in self._selected] *)
Definition set_mem (entry : Path) (s : list Path) : bool :=
  existsb (fun p => Path_eqb p entry) s.

(** [self._selected.add(entry)] of an entry that is not in the set.  Where
    a new element lands in the iteration order of a set is not specified;
    here it is the end. *)
Definition set_add (entry : Path) (s : list Path) : list Path := s ++ [entry].

(** [table.move_cursor(row=i)] *)
Definition move_cursor (i : Z) : M W unit :=
  SE.modify (fun a => with_table {| row_count := row_count (table a);
                                    cursor_row := i |} a).

(** [on_key]; [key] is [event.key] and [has_focus] is [table.has_focus]. *)
Definition on_key (key : string) (has_focus : bool) : M W unit :=
  if String.eqb key "space" then
    if has_focus then
      (a <- SE.get ;;
       match selected_entry a with
       | Some entry =>
           (if set_mem entry (_selected a)
            then SE.modify (with_selected (set_discard entry (_selected a)))
            else SE.modify (with_selected (set_add entry (_selected a)))) ;;
           refresh_table ;;
           (* Move cursor down *)
           a <- SE.get ;;
           if (cursor_row (table a) <? Z.of_nat (row_count (table a)) - 1)%Z
           then move_cursor (cursor_row (table a) + 1)
           else SE.ret tt
       | None => SE.ret tt
       end)%se
    else SE.ret tt
  else SE.ret tt.

(** *** Navigation *)

(** [on_row_selected] *)
Definition on_row_selected : M W unit :=
  (a <- SE.get ;;
   match selected_entry a with
   | Some entry =>
       entry_is_dir <- SE.of_result (is_dir (world a) entry) ;;
       if entry_is_dir then assign_current_dir entry else SE.ret tt
   | None => SE.ret tt
   end)%se.

(** [on_filter_changed]; [value] is [event.value]. *)
Definition on_filter_changed (value : string) : M W unit := assign_filter_text value.

(** *** Actions *)

Definition action_go_up : M W unit :=
  (a <- SE.get ;;
   let parent := PurePath.parent (current_dir a) in
   if negb (Path_eqb parent (current_dir a)) then assign_current_dir parent
   else SE.ret tt)%se.

Definition action_refresh : M W unit :=
  (a <- SE.get ;;
   status_map <- SE.of_result
                   (get_git_status (run_git_status (world a) (current_dir a))) ;;
   SE.modify (with_git_status status_map) ;;
   refresh_table ;;
   set_status "Refreshed.")%se.

Definition action_toggle_hidden : M W unit :=
  (SE.modify (fun a => with_show_hidden (negb (show_hidden a)) a) ;;
   refresh_table)%se.

(** [l.index(x)]: the first position of [x], if it occurs. *)
Fixpoint list_index (x : string) (l : list string) : option nat :=
  match l with
  | [] => None
  | y :: l' =>
      if String.eqb y x then Some 0%nat
      else match list_index x l' with
           | Some i => Some (S i)
           | None => None
           end
  end.

Definition action_cycle_sort : M W unit :=
  (a <- SE.get ;;
   match list_index (sort_mode a) SORT_MODES with
   | None =>
       SE.raise (OtherError ("'" ++ sort_mode a ++ "' is not in list"))
   | Some idx =>
       assign_sort_mode
         (nth ((idx + 1) mod List.length SORT_MODES) SORT_MODES "") ;;
       a <- SE.get ;;
       set_status ("Sort: " ++ sort_mode a)
   end)%se.

(** [action_toggle_filter]; [display] is [fi.display] and the value
    returned is what it is afterwards.  The focus is not modelled. *)
Definition action_toggle_filter (display : bool) : M W bool :=
  if display then (assign_filter_text "" ;; SE.ret false)%se
  else SE.ret true.

(** [action_clear_filter], with [fi.display] as in [action_toggle_filter]. *)
Definition action_clear_filter (display : bool) : M W bool :=
  if display then (assign_filter_text "" ;; SE.ret false)%se
  else SE.ret display.

(** *** Creating and renaming *)

Context {osf : OSFiles W}.

(** [action_new_file]; [result] is what the name dialog returns. *)
Definition action_new_file (result : option string) : M W unit :=
  match result with
  | None => SE.ret tt
  | Some result =>
      if negb (Str.truthy result) then SE.ret tt
      else
        (a <- SE.get ;;
         let target := current_dir a // result in
         let (failed, w) := touch_new target (world a) in
         SE.modify (with_world w) ;;
         match failed with
         | None =>
             SE.try_except
               (refresh_table ;;
                set_status ("✔  Created file: " ++ result) ;;
                (* Undo: delete the new file *)
                push_undo ("create " ++ result) (unlink_missing_ok target))
               (fun e => set_status ("⚠  Error: " ++ str_exn e))
         | Some (FileExistsError _) =>
             set_status ("⚠  File already exists: " ++ result)
         | Some (CreateError e) => set_status ("⚠  Error: " ++ str_exn e)
         end)%se
  end.

(** [action_new_dir]; [result] is what the name dialog returns. *)
Definition action_new_dir (result : option string) : M W unit :=
  match result with
  | None => SE.ret tt
  | Some result =>
      if negb (Str.truthy result) then SE.ret tt
      else
        (a <- SE.get ;;
         let target := current_dir a // result in
         let (failed, w) := mkdir_new target (world a) in
         SE.modify (with_world w) ;;
         match failed with
         | None =>
             SE.try_except
               (refresh_table ;;
                set_status ("✔  Created directory: " ++ result) ;;
                (* Undo: remove the new directory *)
                push_undo ("mkdir " ++ result) (path_rmdir target))
               (fun e => set_status ("⚠  Error: " ++ str_exn e))
         | Some (FileExistsError _) =>
             set_status ("⚠  Directory already exists: " ++ result)
         | Some (CreateError e) => set_status ("⚠  Error: " ++ str_exn e)
         end)%se
  end.

(** [action_rename]; [result] is what the name dialog returns. *)
Definition action_rename (result : option string) : M W unit :=
  (a <- SE.get ;;
   match selected_entry a with
   | None => set_status "⚠  No item selected."
   | Some entry =>
       match result with
       | None => SE.ret tt
       | Some result =>
           if Str.truthy result && negb (String.eqb result (PurePath.name entry))
           then
             let target := current_dir a // result in
             SE.try_except
               (io (path_rename entry target) ;;
                refresh_table ;;
                set_status ("✔  Renamed to: " ++ result) ;;
                (* Undo: rename back *)
                push_undo ("rename " ++ PurePath.name entry)
                          (path_rename target entry))
               (fun e => set_status ("⚠  Error: " ++ str_exn e))
           else SE.ret tt
       end
   end)%se.

(** [p.expanduser()]: a path that is relative and begins with a
    component in [~] has that component replaced by a home directory. *)
Definition expanduser (w : W) (p : Path) : result Path :=
  match p with
  | first :: rest =>
      if prefix "~" first
      then (homedir <- gethomedir w (Str.drop 1 first) ;; Ok (homedir ++ rest))%res
      else Ok p
  | [] => Ok p
  end.

(** [action_goto]; [result] is what the path dialog returns. *)
Definition action_goto (result : option string) : M W unit :=
  match result with
  | None => SE.ret tt
  | Some result =>
      if negb (Str.truthy result) then SE.ret tt
      else
        (a <- SE.get ;;
         p <- SE.of_result (expanduser (world a) (PurePath.parts result)) ;;
         p_is_dir <- SE.of_result (is_dir (world a) p) ;;
         if p_is_dir then assign_current_dir p
         else set_status ("⚠  Not a directory: " ++ result))%se
  end.

(** *** The name dialog *)

(** What [InputModal] is dismissed with: the stripped text of the input on
    OK or Enter ([Some text]), nothing on Cancel ([None]). *)
Definition InputModal_confirm (value : string) : option string :=
  Some (Str.strip value).

End FileManagerViews.

(* ------------------------------------------------------------------ *)
(** ** Creating and renaming in the small world *)

Module SimFiles.

Definition creatable (w : Sim.t) (p : Path) : option create_error :=
  match Sim.lookup p (Sim.nodes w), Sim.lookup (removelast p) (Sim.nodes w) with
  | Some _, _ => Some (FileExistsError "File exists")
  | None, Some Sim.Dir => None
  | None, _ => Some (CreateError (NotFoundError "No such file or directory"))
  end.

Definition touch (p : Path) (w : Sim.t) : option create_error * Sim.t :=
  match creatable w p with
  | None =>
      (None, Sim.tick (Sim.set_node p (Sim.File (Sim.Data "") 0%Q) (Sim.nodes w)) w)
  | Some e => (Some e, Sim.tick (Sim.nodes w) w)
  end.

Definition mkdir (p : Path) (w : Sim.t) : option create_error * Sim.t :=
  match creatable w p with
  | None => (None, Sim.tick (Sim.set_node p Sim.Dir (Sim.nodes w)) w)
  | Some e => (Some e, Sim.tick (Sim.nodes w) w)
  end.

Definition rmdir (p : Path) : SE Sim.t unit :=
  fun w =>
    match Sim.lookup p (Sim.nodes w), Sim.children w p with
    | Some Sim.Dir, [] =>
        (Ok tt,
         Sim.tick (filter (fun e => negb (Path_eqb (fst e) p)) (Sim.nodes w)) w)
    | _, _ => (Raise (OtherError "Directory not empty"), Sim.tick (Sim.nodes w) w)
    end.

(** [os.rename(src, dst)]: a file replaces a file and a directory replaces
    an empty directory; nothing is put inside a directory at [dst]. *)
Definition rename (src dst : Path) : SE Sim.t unit :=
  fun w =>
    let ns := Sim.nodes w in
    match Sim.lookup src ns with
    | None => (Sim.enoent, Sim.tick ns w)
    | Some Sim.Pinned | Some Sim.Sealed => (Sim.eperm, Sim.tick ns w)
    | Some n =>
        if Path_eqb src dst then (Ok tt, Sim.tick ns w)
        else if Sim.within src dst
        then (Raise (OtherError "Invalid argument"), Sim.tick ns w)
        else
          match Sim.lookup (removelast dst) ns, Sim.lookup dst ns, n with
          | Some Sim.Dir, None, _ => (Ok tt, Sim.tick (Sim.renamed src dst ns) w)
          | Some Sim.Dir, Some (Sim.File _ _), Sim.File _ _ =>
              (Ok tt, Sim.tick (Sim.renamed src dst ns) w)
          | Some Sim.Dir, Some Sim.Dir, Sim.Dir =>
              match Sim.children w dst with
              | [] => (Ok tt, Sim.tick (Sim.renamed src dst ns) w)
              | _ :: _ => (Raise (OtherError "Directory not empty"), Sim.tick ns w)
              end
          | Some Sim.Dir, Some Sim.Dir, _ =>
              (Raise (OtherError "Is a directory"), Sim.tick ns w)
          | Some Sim.Dir, Some _, Sim.Dir =>
              (Raise (NotFoundError "Not a directory"), Sim.tick ns w)
          | Some Sim.Dir, Some _, _ => (Sim.eperm, Sim.tick ns w)
          | _, _, _ => (Sim.enoent, Sim.tick ns w)
          end
    end.

#[global] Instance files : OSFiles Sim.t := {|
  touch_new := touch;
  mkdir_new := mkdir;
  path_rename := rename;
  path_rmdir := rmdir;
  gethomedir := fun _ user =>
    if String.eqb user "" then Ok ["/"; "home"; "user"]
    else Raise (OtherError "Could not determine home directory.")
|}.

End SimFiles.
(* ------------------------------------------------------------------ *)
(** * Properties *)

(** ** Sanity checks of the string and path models *)

Example stem_tar_gz : PurePath.stem ["/"; "home"; "data.tar.gz"] = "data.tar".
Proof. reflexivity. Qed.

Example stem_gz : PurePath.stem ["/"; "home"; "note.gz"] = "note".
Proof. reflexivity. Qed.

Example stem_hidden : PurePath.stem ["/"; "home"; ".bashrc"] = ".bashrc".
Proof. reflexivity. Qed.

Example parts_nested : PurePath.parts "src/./lib//a.py" = ["src"; "lib"; "a.py"].
Proof. reflexivity. Qed.

Example parts_abs : PurePath.parts "/usr/bin" = ["/"; "usr"; "bin"].
Proof. reflexivity. Qed.

Example join_name : ["/"; "home"] // "a.txt" = ["/"; "home"; "a.txt"].
Proof. reflexivity. Qed.

Example split_arrow : Str.split " -> " "old.txt -> new.txt" = ["old.txt"; "new.txt"].
Proof. reflexivity. Qed.

Example split_no_overlap : Str.split " -> " "a -> -> b" = ["a"; "-> b"].
Proof. reflexivity. Qed.

Example is_archive_tgz : is_archive ["/"; "d"; "Backup.TGZ"] = true.
Proof. reflexivity. Qed.

Example is_archive_txt : is_archive ["/"; "d"; "a.txt"] = false.
Proof. reflexivity. Qed.

Example status_modified : status_entry " M src/main.py" = Some ("src", "M").
Proof. reflexivity. Qed.

Example status_untracked_dir : status_entry "?? docs/" = Some ("docs", "?").
Proof. reflexivity. Qed.

Example status_rename : status_entry "R  old.txt -> lib/new.txt" = Some ("lib", "R").
Proof. reflexivity. Qed.

Example status_added_modified : status_entry "AM a.txt" = Some ("a.txt", "A").
Proof. reflexivity. Qed.

Example status_last_line_wins :
  get_git_status (Ok {| returncode := 0;
                        stdout := " M src/a.py" ++ String (ascii_of_nat 10) "?? src/b.py" |})
  = Ok [("src", "?")].
Proof. reflexivity. Qed.

(* ------------------------------------------------------------------ *)
(** ** Strings *)

Section StringFacts.

Local Open Scope string_scope.


Lemma append_assoc (a b c : string) :
  ((a ++ b) ++ c)%string = (a ++ (b ++ c))%string.
Proof. induction a as [|x a IH]; simpl; [reflexivity | now rewrite IH]. Qed.







End StringFacts.

(* ------------------------------------------------------------------ *)
(** ** The version-status probe *)

Section Probe.

Local Open Scope string_scope.

















(** C9.  The probe never raises: whatever the sub-process did, it returns
    a mapping; and when the sub-process could not be run to its end (the
    tool is missing, the timeout expired) or ended with a non-zero exit
    status (not a repository), the mapping is empty. *)
Theorem get_git_status_never_raises (run : result CompletedProcess) :
  (exists status_map, get_git_status run = Ok status_map)
  /\ (probe_failed run -> get_git_status run = Ok []).
Proof.
  unfold get_git_status. destruct run as [cp | e]; simpl.
  - destruct (returncode cp =? 0)%Z eqn:E; simpl.
    + split; [eauto |]. intros H. apply Z.eqb_eq in E. now elim H.
    + split; [eauto | reflexivity].
  - split; [eauto | reflexivity].
Qed.

Lemma get_git_status_never_raises_witness :
  get_git_status (Ok {| returncode := 128; stdout := "fatal: not a git repository" |})
  = Ok []
  /\ get_git_status (Raise (OtherError "Command timed out after 2 seconds")) = Ok [].
Proof.
  split.
  - apply (proj2 (get_git_status_never_raises _)). simpl. discriminate.
  - apply (proj2 (get_git_status_never_raises _)). exact I.
Defined.

End Probe.

(* ------------------------------------------------------------------ *)
(** ** What a computation leaves unchanged *)

Section Frames.

Context {S : Type} (R : S -> S -> Prop).
Hypothesis R_refl : forall s, R s s.
Hypothesis R_trans : forall s t u, R s t -> R t u -> R s u.

Lemma preserves_ret {A} (x : A) : SE.preserves R (SE.ret x).
Proof. intros s. apply R_refl. Qed.

Lemma preserves_raise {A} (e : exn) : SE.preserves R (@SE.raise S A e).
Proof. intros s. apply R_refl. Qed.

Lemma preserves_get : SE.preserves R (@SE.get S).
Proof. intros s. apply R_refl. Qed.

Lemma preserves_of_result {A} (r : result A) : SE.preserves R (SE.of_result r).
Proof. intros s. apply R_refl. Qed.

Lemma preserves_modify (f : S -> S) :
  (forall s, R s (f s)) -> SE.preserves R (SE.modify f).
Proof. intros Hf s. apply Hf. Qed.

Lemma preserves_bind {A B} (c : SE S A) (k : A -> SE S B) :
  SE.preserves R c -> (forall x, SE.preserves R (k x)) ->
  SE.preserves R (SE.bind c k).
Proof.
  intros Hc Hk s. unfold SE.bind. specialize (Hc s).
  destruct (c s) as [[x|e] s']; cbn [snd] in *; [| exact Hc].
  eapply R_trans; [exact Hc | apply Hk].
Qed.


Lemma preserves_attempt {A} (body : SE S A) :
  SE.preserves R body -> SE.preserves R (SE.attempt body).
Proof.
  intros Hb s. unfold SE.attempt. specialize (Hb s).
  now destruct (body s) as [r s'].
Qed.

Lemma preserves_for_each {A} (l : list A) (body : A -> SE S unit) :
  (forall x, SE.preserves R (body x)) -> SE.preserves R (SE.for_each l body).
Proof.
  intros Hb; induction l as [|x l IH]; simpl.
  - apply preserves_ret.
  - apply preserves_bind; [apply Hb | intros _; exact IH].
Qed.

Lemma raising_preserves {A} (c : SE S A) : SE.preserves R c -> SE.raising R c.
Proof. intros Hc s e _. apply Hc. Qed.

Lemma raising_total {A} (c : SE S A) : SE.total c -> SE.raising R c.
Proof. intros Hc s e He. destruct (Hc s) as [x Hx]. congruence. Qed.

Lemma raising_bind {A B} (c : SE S A) (k : A -> SE S B) :
  SE.preserves R c -> (forall x, SE.raising R (k x)) ->
  SE.raising R (SE.bind c k).
Proof.
  intros Hc Hk s e. unfold SE.bind. specialize (Hc s).
  destruct (c s) as [[x|e'] s']; cbn [snd fst] in *; [| intros _; exact Hc].
  intros He. eapply R_trans; [exact Hc | now apply (Hk x s' e)].
Qed.

(** A handler that does not raise makes the whole [try] statement
    total. *)
Lemma total_try_except {A} (body : SE S A) (handler : exn -> SE S A) :
  (forall e, SE.total (handler e)) -> SE.total (SE.try_except body handler).
Proof.
  intros Hh s. unfold SE.try_except.
  destruct (body s) as [[x|e] s']; [now exists x | apply Hh].
Qed.


End Frames.

(* ------------------------------------------------------------------ *)
(** ** Sorting *)

Section Sorting.

Context {K A : Type} `{PyOrd K}.

Lemma insert_keyed_perm (x : K * A) (l : list (K * A)) :
  Permutation (x :: l) (insert_keyed x l).
Proof.
  induction l as [|y l IH]; simpl; [reflexivity |].
  destruct (py_lt (fst y) (fst x)); [| reflexivity].
  rewrite perm_swap. now constructor.
Qed.

Lemma sort_keyed_perm (l : list (K * A)) : Permutation l (sort_keyed l).
Proof.
  induction l as [|x l IH]; simpl; [reflexivity |].
  rewrite <- insert_keyed_perm. now constructor.
Qed.

Lemma mapM_ok (key : A -> result K) (f : A -> K) (l : list A) :
  (forall p, In p l -> key p = Ok (f p)) ->
  Res.mapM key l = Ok (map f l).
Proof.
  induction l as [|x l IH]; intros Hkey; simpl; [reflexivity |].
  rewrite (Hkey x) by now left. simpl.
  rewrite IH; [reflexivity |]. intros p Hp. apply Hkey. now right.
Qed.

(** The keys are all computed: where one raises, so does [mapM]. *)
Lemma mapM_returns (key : A -> result K) (l : list A) (ks : list K) :
  Res.mapM key l = Ok ks -> Forall (fun p => exists k, key p = Ok k) l.
Proof.
  revert ks; induction l as [|x l IH]; intros ks E; [constructor |].
  simpl in E. destruct (key x) as [k|e] eqn:Ek; [| discriminate].
  simpl in E. destruct (Res.mapM key l) as [ks'|e]; [| discriminate].
  constructor; [now exists k | now apply (IH ks')].
Qed.

Lemma mapM_raises (key : A -> result K) (l : list A) (p : A) (e : exn) :
  In p l -> key p = Raise e -> exists e', Res.mapM key l = Raise e'.
Proof.
  intros Hin Hp. destruct (Res.mapM key l) as [ks|e'] eqn:E; [| now exists e'].
  apply mapM_returns in E. rewrite Forall_forall in E.
  destruct (E p Hin) as [k Hk]. congruence.
Qed.

Lemma combine_map_self (f : A -> K) (l : list A) :
  combine (map f l) l = map (fun p => (f p, p)) l.
Proof. induction l as [|x l IH]; simpl; [reflexivity | now rewrite IH]. Qed.

(** With a key function that does not raise on the entries, [sorted]
    returns. *)
Lemma sorted_ok (key : A -> result K) (f : A -> K) (l : list A) :
  (forall p, In p l -> key p = Ok (f p)) ->
  sorted l key = Ok (map snd (sort_keyed (map (fun p => (f p, p)) l))).
Proof.
  intros Hkey. unfold sorted. rewrite (mapM_ok key f l Hkey). simpl.
  now rewrite combine_map_self.
Qed.

Lemma sorted_returns (key : A -> result K) (l s : list A) :
  sorted l key = Ok s -> Forall (fun p => exists k, key p = Ok k) l.
Proof.
  unfold sorted. intros E.
  destruct (Res.mapM key l) as [ks|e] eqn:Ek; [| discriminate].
  now apply (mapM_returns key l ks).
Qed.

Lemma sorted_raises (key : A -> result K) (l : list A) (p : A) (e : exn) :
  In p l -> key p = Raise e -> exists e', sorted l key = Raise e'.
Proof.
  intros Hin Hp. unfold sorted.
  destruct (mapM_raises key l p e Hin Hp) as [e' ->]. now exists e'.
Qed.

Lemma sorted_perm (f : A -> K) (l : list A) :
  Permutation l (map snd (sort_keyed (map (fun p => (f p, p)) l))).
Proof.
  rewrite <- sort_keyed_perm, map_map. simpl. now rewrite map_id.
Qed.

(** Insertion keeps a list ordered by any transitive relation that the
    comparison of the keys respects. *)
Section Ordered.

Variable R : K * A -> K * A -> Prop.
Hypothesis R_trans : forall x y z, R x y -> R y z -> R x z.
Hypothesis R_lt : forall x y, py_lt (fst y) (fst x) = true -> R y x.
Hypothesis R_ge : forall x y, py_lt (fst y) (fst x) = false -> R x y.

Lemma insert_keyed_sorted (x : K * A) (l : list (K * A)) :
  StronglySorted R l -> StronglySorted R (insert_keyed x l).
Proof.
  induction 1 as [|y l Hs IH Hy]; simpl.
  - constructor; constructor.
  - destruct (py_lt (fst y) (fst x)) eqn:E.
    + constructor; [exact IH |].
      rewrite <- insert_keyed_perm. constructor; [now apply R_lt | exact Hy].
    + constructor; [now constructor |].
      constructor; [now apply R_ge |].
      eapply Forall_impl; [| exact Hy]. intros z Hz.
      eapply R_trans; [apply R_ge; exact E | exact Hz].
Qed.

Lemma sort_keyed_sorted (l : list (K * A)) : StronglySorted R (sort_keyed l).
Proof.
  induction l as [|x l IH]; simpl; [constructor | now apply insert_keyed_sorted].
Qed.

End Ordered.

End Sorting.

(* ------------------------------------------------------------------ *)
(** ** Texts that differ in case *)

Section Case.

Local Open Scope string_scope.

Lemma same_letter_lower (c d : ascii) :
  Str.same_letter c d = Ascii.eqb (Str.lower_char c) (Str.lower_char d).
Proof.
  assert (Hall : forallb (fun n =>
            forallb (fun m =>
               Bool.eqb (Str.same_letter (ascii_of_nat n) (ascii_of_nat m))
                        (Ascii.eqb (Str.lower_char (ascii_of_nat n))
                                   (Str.lower_char (ascii_of_nat m))))
              (seq 0 256)) (seq 0 256) = true) by (vm_compute; reflexivity).
  rewrite forallb_forall in Hall.
  assert (Hin : forall x : ascii, In (nat_of_ascii x) (seq 0 256)).
  { intros x. apply in_seq. pose proof (nat_ascii_bounded x). lia. }
  specialize (Hall _ (Hin c)). rewrite forallb_forall in Hall.
  specialize (Hall _ (Hin d)). rewrite !ascii_nat_embedding in Hall.
  now apply eqb_prop.
Qed.

Lemma caseless_lower (s t : string) :
  Str.caseless s t = String.eqb (Str.lower s) (Str.lower t).
Proof.
  revert t; induction s as [|c s IH]; intros [|d t]; try reflexivity.
  cbn [Str.caseless Str.lower String.eqb]. rewrite same_letter_lower, IH.
  now destruct (Ascii.eqb (Str.lower_char c) (Str.lower_char d)).
Qed.

Lemma caseless_iff (s t : string) :
  Str.caseless s t = true <-> Str.lower s = Str.lower t.
Proof. rewrite caseless_lower. apply String.eqb_eq. Qed.

Lemma lower_char_small (c : ascii) :
  Str.is_upper (Str.lower_char c) = false
  /\ Str.lower_char (Str.lower_char c) = Str.lower_char c.
Proof.
  assert (Hall : forallb (fun n =>
            negb (Str.is_upper (Str.lower_char (ascii_of_nat n)))
            && Ascii.eqb (Str.lower_char (Str.lower_char (ascii_of_nat n)))
                         (Str.lower_char (ascii_of_nat n)))
            (seq 0 256) = true) by (vm_compute; reflexivity).
  rewrite forallb_forall in Hall.
  assert (Hin : In (nat_of_ascii c) (seq 0 256)).
  { apply in_seq. pose proof (nat_ascii_bounded c). lia. }
  specialize (Hall _ Hin). rewrite ascii_nat_embedding in Hall.
  apply andb_true_iff in Hall as [Hu He].
  split; [now apply negb_true_iff | now apply Ascii.eqb_eq].
Qed.

(** [lower] gives the text with every capital replaced by its small
    letter: the same text up to case, without a capital. *)
Lemma lower_small (s : string) :
  Str.caseless (Str.lower s) s = true /\ Str.no_capital (Str.lower s) = true.
Proof.
  split.
  - apply caseless_iff. induction s as [|c s IH]; [reflexivity |].
    cbn [Str.lower]. now rewrite (proj2 (lower_char_small c)), IH.
  - induction s as [|c s IH]; [reflexivity |].
    cbn [Str.lower Str.no_capital]. now rewrite (proj1 (lower_char_small c)), IH.
Qed.

Lemma lower_app (s t : string) : Str.lower (s ++ t) = Str.lower s ++ Str.lower t.
Proof. induction s as [|c s IH]; simpl; [reflexivity | now rewrite IH]. Qed.

Lemma lower_app_inv (n x y : string) :
  Str.lower n = x ++ y ->
  exists n1 n2, n = n1 ++ n2 /\ Str.lower n1 = x /\ Str.lower n2 = y.
Proof.
  revert n; induction x as [|c x IH]; intros n E.
  - exists "", n. repeat split. exact E.
  - destruct n as [|d n]; [discriminate |].
    cbn [Str.lower append] in E. injection E as Ec En.
    destruct (IH n En) as (n1 & n2 & -> & H1 & H2).
    exists (String d n1), n2. cbn [Str.lower append]. now rewrite Ec, H1.
Qed.

Lemma prefix_iff (p s : string) : prefix p s = true <-> exists t, s = p ++ t.
Proof.
  revert s; induction p as [|c p IH]; intros s.
  - split; [intros _; now exists s | intros _; now destruct s].
  - destruct s as [|d s]; cbn [prefix append].
    + split; [discriminate | intros [t E]; discriminate].
    + destruct (ascii_dec c d) as [->|N].
      * rewrite IH. split; intros [t E]; exists t; [now rewrite E | now injection E].
      * split; [discriminate |]. intros [t E]. injection E as E _. now elim N.
Qed.

Lemma contains_iff (sub s : string) :
  Str.contains sub s = true <-> exists pre post, s = pre ++ sub ++ post.
Proof.
  induction s as [|c s IH].
  - cbn [Str.contains]. rewrite orb_false_r, prefix_iff. split.
    + intros [t E]. now exists "", t.
    + intros (pre & post & E). destruct pre; [| discriminate].
      now exists post.
  - cbn [Str.contains]. rewrite orb_true_iff, prefix_iff, IH. split.
    + intros [[t E]|(pre & post & E)].
      * now exists "", t.
      * exists (String c pre), post. cbn [append]. now rewrite E.
    + intros (pre & post & E). destruct pre as [|d pre].
      * left. now exists post.
      * right. cbn [append] in E. injection E as _ E. now exists pre, post.
Qed.

(** The filter is a search for a piece of the name that is the text up to
    the case of the letters. *)
Lemma matches_filter_iff (text : string) (e : Path) :
  matches_filter text e = true
  <-> exists pre mid post,
        PurePath.name e = pre ++ mid ++ post /\ Str.caseless mid text = true.
Proof.
  unfold matches_filter. rewrite contains_iff. split.
  - intros (P & Q & E).
    destruct (lower_app_inv _ _ _ E) as (n1 & n2 & En & _ & E2).
    destruct (lower_app_inv _ _ _ E2) as (mid & post & Em & Hm & _).
    exists n1, mid, post. split; [now rewrite En, Em |].
    now apply caseless_iff.
  - intros (pre & mid & post & E & Hm). apply caseless_iff in Hm.
    exists (Str.lower pre), (Str.lower post).
    now rewrite E, !lower_app, Hm.
Qed.

End Case.

(* ------------------------------------------------------------------ *)
(** ** The listing pipeline *)

Section Listing.

Context {W : Type} {os : OS W}.

Implicit Types (w : W) (p : Path) (l entries : list Path).

Lemma primary_le_lt {K'} `{PyOrd K'} (x y : (bool * K') * Path) :
  py_lt (fst y) (fst x) = true -> primary_le y x.
Proof.
  destruct x as [[a1 b1] p1], y as [[a2 b2] p2]; unfold primary_le; simpl.
  destruct a1, a2; simpl; congruence.
Qed.

Lemma primary_le_ge {K'} `{PyOrd K'} (x y : (bool * K') * Path) :
  py_lt (fst y) (fst x) = false -> primary_le x y.
Proof.
  destruct x as [[a1 b1] p1], y as [[a2 b2] p2]; unfold primary_le; simpl.
  destruct a1, a2; simpl; congruence.
Qed.

(** *** Reading the kind of an entry *)

Lemma is_dir_flag w p (d : bool) : is_dir w p = Ok d -> dir_flag w p = d.
Proof. unfold dir_flag. now intros ->. Qed.

Lemma readable_flag w l p :
  readable w l -> In p l -> is_dir w p = Ok (dir_flag w p).
Proof.
  intros Hr Hin. unfold readable in Hr. rewrite Forall_forall in Hr.
  destruct (Hr p Hin) as [d Hd]. now rewrite (is_dir_flag w p d Hd).
Qed.

Lemma readable_perm w l l' : Permutation l l' -> readable w l -> readable w l'.
Proof. intros Hp. unfold readable. now apply Permutation_Forall. Qed.

Lemma readable_filter w (f : Path -> bool) l : readable w l -> readable w (filter f l).
Proof.
  unfold readable. rewrite !Forall_forall. intros Hr p Hp.
  apply filter_In in Hp as [Hp _]. now apply Hr.
Qed.

(** A failing [stat] call makes [is_dir] raise, unless it fails because
    the path is not there. *)
Lemma is_dir_stat w p (s : stat_result) :
  os_stat w p = Ok s ->
  is_dir w p = Ok (match st_type s with S_IFDIR => true | _ => false end).
Proof. unfold is_dir. now intros ->. Qed.

Lemma is_dir_denied w p (msg : string) :
  os_stat w p = Raise (PermissionError msg) ->
  is_dir w p = Raise (PermissionError msg).
Proof. unfold is_dir. now intros ->. Qed.

Lemma is_dir_missing w p (msg : string) :
  os_stat w p = Raise (NotFoundError msg) -> is_dir w p = Ok false.
Proof. unfold is_dir. now intros ->. Qed.

Lemma keyed_dirs_first {K'} w (l : list ((bool * K') * Path)) :
  StronglySorted primary_le l ->
  Forall (fun kp => is_dir w (snd kp) = Ok (negb (fst (fst kp)))) l ->
  dirs_first w (map snd l).
Proof.
  induction 1 as [|kp l Hs IH Hkp]; intros Hinv.
  - exists [], []. repeat split; constructor.
  - inversion Hinv as [|? ? Hk Hl]; subst.
    destruct (fst (fst kp)) eqn:Hd; cbn [negb] in Hk.
    + exists [], (map snd (kp :: l)). repeat split; [constructor |].
      simpl. constructor; [exact Hk |].
      apply Forall_map. rewrite Forall_forall in Hkp, Hl |- *.
      intros y Hy. specialize (Hkp y Hy Hd). rewrite (Hl y Hy), Hkp. reflexivity.
    + destruct (IH Hl) as (ds & fs & E & Hds & Hfs).
      exists (snd kp :: ds), fs. simpl. rewrite E.
      repeat split; [now constructor | exact Hfs].
Qed.

(** Sorting on a key whose first component is [not p.is_dir()] puts the
    directories first. *)
Lemma sorted_dirs_first {K'} `{PyOrd K'} w (f : Path -> K') l :
  readable w l ->
  dirs_first w
    (map snd (sort_keyed (map (fun p => ((negb (dir_flag w p), f p), p)) l))).
Proof.
  intros Hr. apply keyed_dirs_first.
  - apply sort_keyed_sorted.
    + unfold primary_le. auto.
    + intros x y. apply primary_le_lt.
    + intros x y. apply primary_le_ge.
  - eapply Permutation_Forall; [apply sort_keyed_perm |].
    apply Forall_map, Forall_forall. intros p Hp. cbn [fst snd].
    rewrite negb_involutive. now apply (readable_flag w l).
Qed.

Lemma dirs_first_filter w (f : Path -> bool) l :
  dirs_first w l -> dirs_first w (filter f l).
Proof.
  intros (ds & fs & -> & Hds & Hfs).
  exists (filter f ds), (filter f fs). rewrite filter_app.
  repeat split; apply Forall_forall; intros x Hx; apply filter_In in Hx as [Hx _];
    [rewrite Forall_forall in Hds; now apply Hds
    | rewrite Forall_forall in Hfs; now apply Hfs].
Qed.

(** *** The key functions of the size and the modified mode *)

(** [_size] and [_mtime] do not raise. *)
Lemma _size_ok w p : _size w p = Ok (size_key w p).
Proof.
  unfold size_key, _size, is_file.
  destruct (os_stat w p) as [s|[m|m|m]]; simpl; try reflexivity.
  now destruct (st_type s).
Qed.

Lemma _mtime_ok w p : _mtime w p = Ok (mtime_key w p).
Proof. unfold mtime_key, _mtime. destruct (os_stat w p); reflexivity. Qed.

(** The size of a regular file is its [st_size]; everything else counts
    as 0. *)
Lemma _size_regular w p (s : stat_result) :
  os_stat w p = Ok s -> st_type s = S_IFREG -> _size w p = Ok (st_size s).
Proof. intros E Ht. unfold _size, is_file. rewrite E. simpl. now rewrite Ht. Qed.

Lemma _size_not_regular w p (s : stat_result) :
  os_stat w p = Ok s -> st_type s <> S_IFREG -> _size w p = Ok 0%Z.
Proof.
  intros E Ht. unfold _size, is_file. rewrite E. simpl.
  destruct (st_type s); try reflexivity. now elim Ht.
Qed.

Lemma _size_stat_fails w p e : os_stat w p = Raise e -> _size w p = Ok 0%Z.
Proof. intros E. unfold _size, is_file. rewrite E. now destruct e. Qed.

(** The modification time is [st_mtime], and 0 when [stat] fails. *)
Lemma _mtime_stat w p (s : stat_result) :
  os_stat w p = Ok s -> _mtime w p = Ok (st_mtime s).
Proof. intros E. unfold _mtime. now rewrite E. Qed.

Lemma _mtime_stat_fails w p e : os_stat w p = Raise e -> _mtime w p = Ok 0%Q.
Proof. intros E. unfold _mtime. now rewrite E. Qed.

Lemma _size_dir w p : is_dir w p = Ok true -> _size w p = Ok 0%Z.
Proof.
  unfold _size, is_file, is_dir.
  destruct (os_stat w p) as [s|[m|m|m]]; simpl; try reflexivity; try discriminate.
  now destruct (st_type s).
Qed.

(** *** What [_sort_entries] returns *)

(** Under each of the four modes, when the kind of every entry can be
    read. *)
Lemma _sort_entries_name w l :
  readable w l -> _sort_entries w "name" l = Ok (sorted_on (name_key w) l).
Proof.
  intros Hr. unfold _sort_entries. simpl. apply sorted_ok.
  intros p Hp. now rewrite (readable_flag w l p Hr Hp).
Qed.

Lemma _sort_entries_size w l :
  readable w l -> _sort_entries w "size" l = Ok (sorted_on (size_keys w) l).
Proof.
  intros Hr. unfold _sort_entries. simpl. apply sorted_ok.
  intros p Hp. rewrite (readable_flag w l p Hr Hp). simpl. now rewrite _size_ok.
Qed.

Lemma _sort_entries_modified w l :
  readable w l -> _sort_entries w "modified" l = Ok (sorted_on (modified_key w) l).
Proof.
  intros Hr. unfold _sort_entries. simpl. apply sorted_ok.
  intros p Hp. rewrite (readable_flag w l p Hr Hp). simpl. now rewrite _mtime_ok.
Qed.

Lemma _sort_entries_type w l :
  readable w l -> _sort_entries w "type" l = Ok (sorted_on (type_key w) l).
Proof.
  intros Hr. unfold _sort_entries. simpl. apply sorted_ok.
  intros p Hp. now rewrite (readable_flag w l p Hr Hp).
Qed.

(** A value of the mode that is none of the four: nothing is sorted and
    nothing is read. *)
Lemma _sort_entries_other w (mode : string) l :
  ~ In mode SORT_MODES -> _sort_entries w mode l = Ok l.
Proof.
  intros Hmode. unfold _sort_entries.
  destruct (String.eqb_spec mode "name") as [->|_]; [elim Hmode; simpl; auto |].
  destruct (String.eqb_spec mode "size") as [->|_]; [elim Hmode; simpl; auto |].
  destruct (String.eqb_spec mode "modified") as [->|_]; [elim Hmode; simpl; auto |].
  destruct (String.eqb_spec mode "type") as [->|_]; [elim Hmode; simpl; auto |].
  reflexivity.
Qed.

(** When the kind of every entry can be read, [_sort_entries] returns a
    permutation of its argument, under every value of the mode. *)
Lemma _sort_entries_returns w mode l :
  readable w l ->
  exists l', _sort_entries w mode l = Ok l' /\ Permutation l l'.
Proof.
  intros Hr.
  destruct (String.eqb_spec mode "name") as [->|N1].
  { eexists; split; [now apply _sort_entries_name | apply sorted_perm]. }
  destruct (String.eqb_spec mode "size") as [->|N2].
  { eexists; split; [now apply _sort_entries_size | apply sorted_perm]. }
  destruct (String.eqb_spec mode "modified") as [->|N3].
  { eexists; split; [now apply _sort_entries_modified | apply sorted_perm]. }
  destruct (String.eqb_spec mode "type") as [->|N4].
  { eexists; split; [now apply _sort_entries_type | apply sorted_perm]. }
  exists l. split; [| reflexivity]. apply _sort_entries_other.
  simpl. intros [E|[E|[E|[E|[]]]]]; congruence.
Qed.

(** Under the four modes the sort reads the kind of every entry: it
    returns only when [is_dir] returns for each of them, and it raises as
    soon as [is_dir] raises for one. *)
Lemma bind_is_dir_ok {B} w p (k : bool -> result B) (y : B) :
  Res.bind (is_dir w p) k = Ok y -> exists d, is_dir w p = Ok d.
Proof. destruct (is_dir w p) as [d|e]; [now exists d | discriminate]. Qed.

Lemma _sort_entries_readable w mode l l' :
  In mode SORT_MODES -> _sort_entries w mode l = Ok l' -> readable w l.
Proof.
  intros Hmode E. unfold readable.
  simpl in Hmode. destruct Hmode as [<-|[<-|[<-|[<-|[]]]]];
    unfold _sort_entries in E; simpl in E;
    apply sorted_returns in E; eapply Forall_impl; try exact E;
    intros p [k Hk]; exact (bind_is_dir_ok _ _ _ _ Hk).
Qed.

Lemma _sort_entries_raises w mode l p (e : exn) :
  In mode SORT_MODES -> In p l -> is_dir w p = Raise e ->
  exists e', _sort_entries w mode l = Raise e'.
Proof.
  intros Hmode Hin Hp.
  simpl in Hmode. destruct Hmode as [<-|[<-|[<-|[<-|[]]]]];
    unfold _sort_entries; simpl;
    apply (sorted_raises _ l p e Hin); now rewrite Hp.
Qed.

(** Under the four modes of [SORT_MODES] the directories come first. *)
Lemma _sort_entries_dirs_first w mode l l' :
  In mode SORT_MODES ->
  _sort_entries w mode l = Ok l' ->
  dirs_first w l'.
Proof.
  intros Hmode E.
  pose proof (_sort_entries_readable w mode l l' Hmode E) as Hr.
  simpl in Hmode. destruct Hmode as [<-|[<-|[<-|[<-|[]]]]].
  - rewrite _sort_entries_name in E by exact Hr. injection E as <-.
    now apply sorted_dirs_first.
  - rewrite _sort_entries_size in E by exact Hr. injection E as <-.
    now apply sorted_dirs_first.
  - rewrite _sort_entries_modified in E by exact Hr. injection E as <-.
    now apply sorted_dirs_first.
  - rewrite _sort_entries_type in E by exact Hr. injection E as <-.
    now apply (sorted_dirs_first w (fun p => (Str.lower (PurePath.suffix p),
                                               Str.lower (PurePath.name p)))).
Qed.

(** *** [refresh_table] *)

Lemma filter_all {A} (f : A -> bool) (l : list A) :
  (forall x, f x = true) -> filter f l = l.
Proof.
  intros Hf; induction l as [|x l IH]; simpl; [reflexivity |].
  now rewrite Hf, IH.
Qed.

Lemma matches_empty_filter p : matches_filter "" p = true.
Proof. unfold matches_filter. simpl. now destruct (Str.lower (PurePath.name p)). Qed.

Lemma hidden_step (a : App W) l :
  (if negb (show_hidden a) then filter not_hidden l else l)
  = filter (fun e => show_hidden a || not_hidden e) l.
Proof.
  destruct (show_hidden a); simpl; [| reflexivity].
  symmetry. now apply filter_all.
Qed.

Lemma filter_step (a : App W) l :
  (if Str.truthy (filter_text a) then filter (matches_filter (filter_text a)) l else l)
  = filter (matches_filter (filter_text a)) l.
Proof.
  destruct (filter_text a) eqn:E; simpl; [| reflexivity].
  symmetry. apply filter_all. apply matches_empty_filter.
Qed.

(** The loop over the entries adds one row per entry and keeps the entry
    behind it, as long as the kind of the entry can be read. *)
Lemma rows_loop l (a : App W) :
  readable (world a) l ->
  SE.for_each l (fun entry =>
    (a <- SE.get ;;
     SE.of_result (is_dir (world a) entry) ;;
     table_add_row ;;
     SE.modify (fun a => with_row_entries (_row_entries a ++ [entry]) a))%se) a
  = (Ok tt,
     with_row_entries (_row_entries a ++ l)
       (with_table {| row_count := row_count (table a) + List.length l;
                      cursor_row := cursor_row (table a) |} a)).
Proof.
  revert a; induction l as [|x l IH]; intros a Hr.
  - destruct a as [? ? ? ? ? ? ? ? ? ? [? ?] ? ?]; simpl.
    unfold SE.ret, with_row_entries, with_table; simpl.
    now rewrite app_nil_r, Nat.add_0_r.
  - inversion Hr as [|? ? [d Hd] Hl]; subst.
    cbn [SE.for_each]. unfold SE.bind at 1. unfold SE.bind at 1.
    unfold SE.get at 1. unfold SE.bind at 1. unfold SE.of_result at 1.
    rewrite Hd. unfold SE.bind at 1.
    unfold table_add_row at 1, SE.modify at 1 2. rewrite IH by exact Hl.
    destruct a as [? ? ? ? ? ? ? ? ? ? [? ?] ? ?]; simpl.
    unfold with_row_entries, with_table; simpl.
    now rewrite <- app_assoc, Nat.add_succ_r.
Qed.

(** The loop stops at the first entry whose kind cannot be read: the rows
    before it are in the table, and the exception leaves the loop. *)
Lemma rows_loop_raises pre p post (e : exn) (a : App W) :
  readable (world a) pre ->
  is_dir (world a) p = Raise e ->
  SE.for_each (pre ++ p :: post) (fun entry =>
    (a <- SE.get ;;
     SE.of_result (is_dir (world a) entry) ;;
     table_add_row ;;
     SE.modify (fun a => with_row_entries (_row_entries a ++ [entry]) a))%se) a
  = (Raise e,
     with_row_entries (_row_entries a ++ pre)
       (with_table {| row_count := row_count (table a) + List.length pre;
                      cursor_row := cursor_row (table a) |} a)).
Proof.
  revert a; induction pre as [|x pre IH]; intros a Hr Hp.
  - cbn [app SE.for_each]. unfold SE.bind at 1. unfold SE.bind at 1.
    unfold SE.get at 1. unfold SE.bind at 1. unfold SE.of_result at 1.
    rewrite Hp.
    destruct a as [? ? ? ? ? ? ? ? ? ? [? ?] ? ?]; simpl.
    unfold with_row_entries, with_table; simpl.
    now rewrite app_nil_r, Nat.add_0_r.
  - inversion Hr as [|? ? [d Hd] Hl]; subst.
    cbn [app SE.for_each]. unfold SE.bind at 1. unfold SE.bind at 1.
    unfold SE.get at 1. unfold SE.bind at 1. unfold SE.of_result at 1.
    rewrite Hd. unfold SE.bind at 1.
    unfold table_add_row at 1, SE.modify at 1 2.
    rewrite IH; [| exact Hl | exact Hp].
    destruct a as [? ? ? ? ? ? ? ? ? ? [? ?] ? ?]; simpl.
    unfold with_row_entries, with_table; simpl.
    now rewrite <- app_assoc, Nat.add_succ_r.
Qed.

(** When the directory can be listed, the sort returns and the kind of
    every entry to show can be read, [refresh_table] shows the sorted
    entries that pass the two filters. *)
Lemma refresh_table_ok (a : App W) raw sorted_entries :
  iterdir (world a) (current_dir a) = Ok raw ->
  _sort_entries (world a) (sort_mode a) raw = Ok sorted_entries ->
  readable (world a) (listing_of a sorted_entries) ->
  refresh_table a = (Ok tt, listed (listing_of a sorted_entries) a).
Proof.
  intros Hraw Hsort Hr. unfold refresh_table.
  unfold SE.bind at 1. unfold table_clear, SE.modify at 1.
  unfold SE.bind at 1. unfold SE.get at 1.
  cbn [world current_dir sort_mode with_table show_hidden filter_text].
  rewrite Hraw, Hsort.
  unfold SE.bind at 1. unfold SE.of_result at 1.
  rewrite hidden_step, filter_step.
  unfold SE.bind at 1. unfold SE.modify at 1.
  unfold SE.bind at 1. rewrite rows_loop by exact Hr.
  unfold SE.bind, SE.get, set_status, SE.modify.
  unfold listed, listing_of. destruct a; reflexivity.
Qed.

(** When the directory can be listed and the kind of every entry in it can
    be read, [refresh_table] returns with the listing. *)
Lemma refresh_table_listed (a : App W) raw :
  iterdir (world a) (current_dir a) = Ok raw ->
  readable (world a) raw ->
  exists sorted_entries,
    _sort_entries (world a) (sort_mode a) raw = Ok sorted_entries
    /\ Permutation raw sorted_entries
    /\ refresh_table a = (Ok tt, listed (listing_of a sorted_entries) a).
Proof.
  intros Hraw Hr.
  destruct (_sort_entries_returns (world a) (sort_mode a) raw Hr) as (s & Hs & Hperm).
  exists s. split; [exact Hs |]. split; [exact Hperm |].
  apply (refresh_table_ok a raw s Hraw Hs).
  unfold listing_of. do 2 apply readable_filter.
  exact (readable_perm _ _ _ Hperm Hr).
Qed.

(** Under the four modes, an entry whose kind cannot be read makes
    [refresh_table] raise, with the table emptied and the rows behind it
    left as they were. *)
Lemma refresh_table_raises (a : App W) raw p (e : exn) :
  iterdir (world a) (current_dir a) = Ok raw ->
  In (sort_mode a) SORT_MODES ->
  In p raw -> is_dir (world a) p = Raise e ->
  exists e',
    refresh_table a
    = (Raise e', with_table {| row_count := 0; cursor_row := 0 |} a).
Proof.
  intros Hraw Hmode Hin Hp.
  destruct (_sort_entries_raises (world a) (sort_mode a) raw p e Hmode Hin Hp)
    as [e' He'].
  exists e'. unfold refresh_table.
  unfold SE.bind at 1. unfold table_clear, SE.modify at 1.
  unfold SE.bind at 1. unfold SE.get at 1.
  cbn [world current_dir sort_mode with_table].
  rewrite Hraw, He'. reflexivity.
Qed.

Lemma same_session_refl (a : App W) : same_session a a.
Proof. unfold same_session. now repeat split. Qed.

Lemma same_session_trans (a b c : App W) :
  same_session a b -> same_session b c -> same_session a c.
Proof.
  unfold same_session.
  intros (A1 & A2 & A3 & A4 & A5 & A6 & A7 & A8 & A9 & A10)
         (B1 & B2 & B3 & B4 & B5 & B6 & B7 & B8 & B9 & B10).
  repeat split; congruence.
Qed.

Ltac session_kept :=
  lazymatch goal with
  | |- SE.preserves _ (SE.bind _ _) =>
      apply (preserves_bind same_session same_session_trans);
        [session_kept | intros ?; session_kept]
  | |- SE.preserves _ SE.get => apply preserves_get; exact same_session_refl
  | |- SE.preserves _ (SE.of_result _) =>
      apply preserves_of_result; exact same_session_refl
  | |- SE.preserves _ (SE.ret _) => apply preserves_ret; exact same_session_refl
  | |- SE.preserves _ (SE.raise _) => apply preserves_raise; exact same_session_refl
  | |- SE.preserves _ (SE.for_each _ _) =>
      apply (preserves_for_each same_session same_session_refl same_session_trans);
        intros ?; session_kept
  | |- SE.preserves _ (SE.modify _) =>
      apply preserves_modify; intros ?; unfold same_session; cbn; now repeat split
  | |- SE.preserves _ (set_status _) => unfold set_status; session_kept
  | |- SE.preserves _ table_clear => unfold table_clear; session_kept
  | |- SE.preserves _ table_add_row => unfold table_add_row; session_kept
  | |- SE.preserves _ (match ?x with _ => _ end) => destruct x; session_kept
  end.

(** However it ends, [refresh_table] changes only what is displayed. *)
Lemma refresh_table_frame (a : App W) : same_session a (snd (refresh_table a)).
Proof.
  revert a. change (SE.preserves same_session (@refresh_table W os)).
  unfold refresh_table. cbv zeta. session_kept.
Qed.

(** C2.  When the directory can be listed and the kind of every entry in
    it can be read, the rows shown are: the entries sorted, then without
    the hidden ones (names starting with a dot, unless hidden files are
    shown), then only those whose name contains the filter text up to the
    case of the letters.  Under each of the four sort modes all directories
    come before all other entries.  Names and filter text are in the ASCII
    range. *)
Theorem listing_pipeline (a : App W) (raw : list Path) :
  iterdir (world a) (current_dir a) = Ok raw ->
  readable (world a) raw ->
  Forall (fun e => Str.is_ascii (PurePath.name e) = true) raw ->
  Str.is_ascii (filter_text a) = true ->
  exists sorted_entries,
    _sort_entries (world a) (sort_mode a) raw = Ok sorted_entries
    /\ Permutation raw sorted_entries
    /\ let listing :=
         filter (fun e => Str.contains (Str.lower (filter_text a))
                                       (Str.lower (PurePath.name e)))
           (filter (fun e => show_hidden a
                             || negb (Str.startswith "." (PurePath.name e)))
              sorted_entries) in
       fst (refresh_table a) = Ok tt
       /\ _row_entries (snd (refresh_table a)) = listing
       /\ row_count (table (snd (refresh_table a))) = List.length listing
       /\ (In (sort_mode a) SORT_MODES -> dirs_first (world a) listing)
       /\ (forall e,
             In e listing
             <-> In e sorted_entries
                 /\ (show_hidden a = true
                     \/ Str.startswith "." (PurePath.name e) = false)
                 /\ exists pre mid post,
                      PurePath.name e = (pre ++ mid ++ post)%string
                      /\ Str.caseless mid (filter_text a) = true).
Proof.
  intros Hraw Hr _ _.
  destruct (refresh_table_listed a raw Hraw Hr) as (s & Hs & Hperm & Hrun).
  exists s. split; [exact Hs |]. split; [exact Hperm |].
  rewrite Hrun. cbv zeta.
  split; [reflexivity |]. split; [reflexivity |]. split; [reflexivity |].
  split.
  - intros Hmode. do 2 apply dirs_first_filter.
    exact (_sort_entries_dirs_first _ _ _ _ Hmode Hs).
  - intros e. rewrite !filter_In, orb_true_iff, negb_true_iff.
    change (Str.contains (Str.lower (filter_text a)) (Str.lower (PurePath.name e)))
      with (matches_filter (filter_text a) e).
    rewrite matches_filter_iff. tauto.
Qed.

(** C10.  [_sort_entries] is not total.  Its helpers take a failing
    [stat] call for size 0 and modification time 0, and a directory for
    size 0; but the first component of every key, [not p.is_dir()], is
    computed outside them, so that under each of the four modes one entry
    whose [stat] call is denied makes the sort raise.  When the kind of
    every entry can be read, the sort returns a permutation of its
    argument, and under the size mode the directories come first. *)
Theorem sort_entries_stat_denied w (mode : string) entries :
  (forall p (msg : string),
      In mode SORT_MODES -> In p entries ->
      os_stat w p = Raise (PermissionError msg) ->
      _size w p = Ok 0%Z /\ _mtime w p = Ok 0%Q
      /\ exists e, _sort_entries w mode entries = Raise e)
  /\ (forall p e, os_stat w p = Raise e ->
                  _size w p = Ok 0%Z /\ _mtime w p = Ok 0%Q)
  /\ (forall p, is_dir w p = Ok true -> _size w p = Ok 0%Z)
  /\ (readable w entries ->
      (exists sorted_entries,
          _sort_entries w mode entries = Ok sorted_entries
          /\ Permutation entries sorted_entries)
      /\ (exists by_size,
            _sort_entries w "size" entries = Ok by_size /\ dirs_first w by_size)).
Proof.
  split.
  { intros p msg Hmode Hin Hstat.
    split; [exact (_size_stat_fails w p _ Hstat) |].
    split; [exact (_mtime_stat_fails w p _ Hstat) |].
    exact (_sort_entries_raises w mode entries p _ Hmode Hin
             (is_dir_denied w p msg Hstat)). }
  split; [intros p e E; split; [exact (_size_stat_fails w p e E)
                               | exact (_mtime_stat_fails w p e E)] |].
  split; [exact (_size_dir w) |].
  intros Hr. split; [now apply _sort_entries_returns |].
  eexists; split; [now apply _sort_entries_size | now apply sorted_dirs_first].
Qed.

End Listing.

(* ------------------------------------------------------------------ *)
(** ** The listing pipeline, evaluated *)

Example sim_listing_by_name :
  _row_entries (snd (refresh_table (Sim.start Sim.docs Sim.w0)))
  = map (fun n => Sim.docs ++ [n]) ["Sub"; "a.txt"; "b.txt"; "data.tar.gz"; "ghost"; "note.gz"].
Proof. vm_compute. reflexivity. Qed.

Lemma sim_docs_readable : readable Sim.w0 (Sim.children Sim.w0 Sim.docs).
Proof. repeat constructor; eexists; vm_compute; reflexivity. Qed.

Lemma listing_pipeline_witness :
  let a := with_filter_text "A.TX" (Sim.start Sim.docs Sim.w0) in
  dirs_first Sim.w0 (_row_entries (snd (refresh_table a)))
  /\ _row_entries (snd (refresh_table a)) = [Sim.docs ++ ["a.txt"]]
  /\ In (Sim.docs ++ ["a.txt"]) (_row_entries (snd (refresh_table a))).
Proof.
  intros a.
  assert (Hraw : iterdir (world a) (current_dir a) = Ok (Sim.children Sim.w0 Sim.docs))
    by reflexivity.
  assert (Hnames : Forall (fun e => Str.is_ascii (PurePath.name e) = true)
                          (Sim.children Sim.w0 Sim.docs))
    by (repeat constructor).
  destruct (listing_pipeline a _ Hraw sim_docs_readable Hnames eq_refl)
    as (s & Hs & Hperm & _ & Hrows & _ & Hdirs & Hin).
  split; [| split].
  - rewrite Hrows. apply Hdirs. simpl. auto.
  - vm_compute. reflexivity.
  - rewrite Hrows. apply Hin.
    split; [apply (Permutation_in _ Hperm); vm_compute; auto 10 |].
    split; [right; reflexivity |].
    exists "", "a.tx", "t". split; reflexivity.
Defined.

Lemma sort_entries_stat_denied_witness :
  let key := Sim.vault ++ ["key"] in
  iterdir Sim.w_vault Sim.vault = Ok [key]
  /\ _size Sim.w_vault key = Ok 0%Z
  /\ _mtime Sim.w_vault key = Ok 0%Q
  /\ (exists e, _sort_entries Sim.w_vault "size" [key] = Raise e)
  /\ _sort_entries Sim.w_vault "size" [key]
     = Raise (PermissionError "Permission denied")
  /\ fst (refresh_table (Sim.start Sim.vault Sim.w_vault))
     = Raise (PermissionError "Permission denied").
Proof.
  intros key.
  destruct (sort_entries_stat_denied Sim.w_vault "size" [key]) as (Hdenied & _).
  destruct (Hdenied key "Permission denied") as (Hs & Hm & He);
    [simpl; auto | now left | reflexivity |].
  split; [reflexivity |]. split; [exact Hs |]. split; [exact Hm |].
  split; [exact He |]. split; vm_compute; reflexivity.
Defined.

Example sim_listing_by_size :
  _sort_entries Sim.w0 "size" (Sim.children Sim.w0 Sim.docs)
  = Ok (map (fun n => Sim.docs ++ [n])
            ["Sub"; ".git"; "ghost"; "a.txt"; "b.txt"; "note.gz"; "data.tar.gz"]).
Proof. vm_compute. reflexivity. Qed.

Example sim_listing_by_modified :
  _sort_entries Sim.w0 "modified" (Sim.children Sim.w0 Sim.docs)
  = Ok (map (fun n => Sim.docs ++ [n])
            ["Sub"; ".git"; "a.txt"; "b.txt"; "note.gz"; "data.tar.gz"; "ghost"]).
Proof. vm_compute. reflexivity. Qed.

(* ------------------------------------------------------------------ *)
(** ** The undo stack *)

Section Undo.

Context {W : Type} {os : OS W}.

Implicit Types (a : App W) (s rest : UndoStack.t W) (f : SE W unit) (d : string).

Lemma pop_push d f s :
  UndoStack.pop (UndoStack.push d f s) = (Some (d, f), s).
Proof.
  unfold UndoStack.pop, UndoStack.push.
  destruct s as [|x s]; [reflexivity |].
  cbn [app]. rewrite last_last. f_equal.
  change (x :: (s ++ [(d, f)])) with ((x :: s) ++ [(d, f)]).
  apply removelast_last.
Qed.

Lemma with_undo_same a : with_undo (_undo a) a = a.
Proof. now destruct a. Qed.

(** Undo on an empty stack only reports. *)
Lemma action_undo_empty a :
  _undo a = [] ->
  action_undo a = (Ok tt, with_status "⚠  Nothing to undo." a).
Proof.
  intros E. unfold action_undo, SE.bind, SE.get. rewrite E. simpl.
  unfold SE.modify, set_status. rewrite <- E at 1. now rewrite with_undo_same.
Qed.

(** Undo on a non-empty stack: the top entry is gone, its closure has
    been run once on the world, the rest of the session is as before, and
    nothing is raised. *)
Lemma action_undo_top a d f rest :
  _undo a = UndoStack.push d f rest ->
  exists msg a',
    action_undo a = (Ok tt, with_status msg a')
    /\ same_session (with_world (snd (f (world a))) (with_undo rest a)) a'
    /\ (forall e, fst (f (world a)) = Raise e ->
          msg = ("⚠  Undo failed: " ++ str_exn e)%string
          /\ a' = with_world (snd (f (world a))) (with_undo rest a)).
Proof.
  intros E. unfold action_undo. unfold SE.bind at 1. unfold SE.get at 1.
  rewrite E, pop_push. unfold SE.bind at 1. unfold SE.modify at 1.
  unfold SE.try_except. unfold SE.bind at 1. unfold io at 1.
  cbn [world with_undo].
  destruct (f (world a)) as [[[]|e] w'] eqn:Hf; cbn [snd fst].
  - pose proof (refresh_table_frame (with_world w' (with_undo rest a))) as Hframe.
    unfold SE.bind at 1.
    destruct (refresh_table (with_world w' (with_undo rest a))) as [[[]|e] a'];
      cbn [snd] in Hframe.
    + eexists _, a'. split; [reflexivity |]. split; [exact Hframe |].
      intros e; discriminate.
    + eexists _, a'. split; [reflexivity |]. split; [exact Hframe |].
      intros e'; discriminate.
  - eexists _, _. split; [reflexivity |].
    split; [unfold same_session; repeat split |].
    intros e' [= <-]. split; reflexivity.
Qed.

(** C7.  Undo takes the top entry off the stack and runs its closure.  If
    the closure raises, the failure is reported in the status bar, the
    entry is neither run again nor pushed back, nothing propagates, and
    the stack holds one entry less than before. *)
Theorem undo_failure_drops_entry a d f rest (e : exn) :
  _undo a = UndoStack.push d f rest ->
  fst (f (world a)) = Raise e ->
  action_undo a
  = (Ok tt,
     with_status ("⚠  Undo failed: " ++ str_exn e)
       (with_world (snd (f (world a))) (with_undo rest a)))
  /\ _undo (snd (action_undo a)) = rest
  /\ S (List.length (_undo (snd (action_undo a)))) = List.length (_undo a).
Proof.
  intros E Hf.
  destruct (action_undo_top a d f rest E) as (msg & a' & Hrun & _ & Hfail).
  destruct (Hfail e Hf) as [-> ->]. rewrite Hrun. cbn [snd].
  split; [reflexivity |]. split; [reflexivity |].
  rewrite E. unfold UndoStack.push. rewrite length_app. simpl. lia.
Qed.

(** C6.  The stack is last-in first-out.  After pushing [A] and then [B]
    on an empty stack, the first undo runs the closure of [B] and leaves
    [A] on the stack, the second undo runs the closure of [A] and leaves
    the stack empty, and the third undo runs nothing: it only reports
    that there is nothing to undo. *)
Theorem undo_lifo a dA fA dB fB :
  _undo a = [] ->
  let a0 := snd ((push_undo dA fA ;; push_undo dB fB)%se a) in
  let a1 := snd (action_undo a0) in
  let a2 := snd (action_undo a1) in
  let a3 := snd (action_undo a2) in
  (world a1 = snd (fB (world a)) /\ _undo a1 = UndoStack.push dA fA [])
  /\ (world a2 = snd (fA (world a1)) /\ _undo a2 = [])
  /\ (a3 = with_status "⚠  Nothing to undo." a2
      /\ fst (action_undo a2) = Ok tt).
Proof.
  intros E a0 a1 a2 a3.
  assert (E0 : _undo a0 = UndoStack.push dB fB (UndoStack.push dA fA [])).
  { unfold a0, push_undo, SE.bind, SE.modify. simpl. now rewrite E. }
  assert (W0 : world a0 = world a) by reflexivity.
  destruct (action_undo_top a0 dB fB _ E0) as (m1 & b1 & R1 & S1 & _).
  assert (E1 : _undo a1 = UndoStack.push dA fA [] /\ world a1 = snd (fB (world a))).
  { unfold a1. rewrite R1. cbn [snd].
    destruct S1 as (_ & _ & _ & _ & _ & _ & _ & Hu & _ & Hw).
    cbn [_undo world with_status]. rewrite Hu, Hw, <- W0. split; reflexivity. }
  destruct E1 as [E1 W1].
  destruct (action_undo_top a1 dA fA _ E1) as (m2 & b2 & R2 & S2 & _).
  assert (E2 : _undo a2 = [] /\ world a2 = snd (fA (world a1))).
  { unfold a2. rewrite R2. cbn [snd].
    destruct S2 as (_ & _ & _ & _ & _ & _ & _ & Hu & _ & Hw).
    cbn [_undo world with_status]. rewrite Hu, Hw. split; reflexivity. }
  destruct E2 as [E2 W2].
  repeat split; try assumption.
  - unfold a3. now rewrite (action_undo_empty a2 E2).
  - now rewrite (action_undo_empty a2 E2).
Qed.

End Undo.

Lemma undo_lifo_witness :
  let fA := Sim.unlink (Sim.docs ++ ["a.txt"]) in
  let fB := Sim.unlink (Sim.docs ++ ["b.txt"]) in
  let a0 := snd ((push_undo "create a.txt" fA ;; push_undo "create b.txt" fB)%se
                   (Sim.start Sim.docs Sim.w0)) in
  let a1 := snd (action_undo a0) in
  let a2 := snd (action_undo a1) in
  let a3 := snd (action_undo a2) in
  world a1 = snd (fB Sim.w0)
  /\ world a2 = snd (fA (snd (fB Sim.w0)))
  /\ a3 = with_status "⚠  Nothing to undo." a2.
Proof.
  intros fA fB a0 a1 a2 a3.
  destruct (undo_lifo (Sim.start Sim.docs Sim.w0) "create a.txt" fA "create b.txt" fB
              eq_refl) as ((H1 & _) & (H2 & _) & (H3 & _)).
  split; [exact H1 |]. split; [| exact H3].
  exact (eq_trans H2 (f_equal (fun w => snd (fA w)) H1)).
Defined.

Lemma undo_failure_drops_entry_witness :
  let f := Sim.move (Sim.inbox ++ ["gone.txt"]) (Sim.docs ++ ["gone.txt"]) in
  let a := with_undo (UndoStack.push "move gone.txt" f []) (Sim.start Sim.docs Sim.w0) in
  status (snd (action_undo a)) = "⚠  Undo failed: No such file or directory"
  /\ _undo (snd (action_undo a)) = [].
Proof.
  intros f a.
  assert (Hf : fst (f (world a)) = Raise (NotFoundError "No such file or directory"))
    by reflexivity.
  destruct (undo_failure_drops_entry a "move gone.txt" f [] _ eq_refl Hf)
    as (Hrun & Hstack & _).
  split; [now rewrite Hrun | exact Hstack].
Defined.

(* ------------------------------------------------------------------ *)
(** ** The clipboard *)

Section Clipboard.

Context {W : Type} {os : OS W}.

Implicit Types (a : App W) (src dst : Path).

Lemma Path_eqb_refl (p : Path) : Path_eqb p p = true.
Proof. induction p as [|x p IH]; simpl; [reflexivity |]. now rewrite String.eqb_refl. Qed.

Lemma Path_eqb_eq (p q : Path) : Path_eqb p q = true <-> p = q.
Proof.
  split; [| intros ->; apply Path_eqb_refl].
  revert q; induction p as [|x p IH]; intros [|y q] H; simpl in H;
    try discriminate; [reflexivity |].
  apply andb_prop in H as [Hx Hp]. apply String.eqb_eq in Hx.
  now rewrite Hx, (IH q Hp).
Qed.

Lemma Path_eqb_neq (p q : Path) : p <> q -> Path_eqb p q = false.
Proof.
  intros H. destruct (Path_eqb p q) eqn:E; [| reflexivity].
  apply Path_eqb_eq in E. contradiction.
Qed.







Lemma set_status_total msg : SE.total (@set_status W msg).
Proof. intros a. now exists tt. Qed.




End Clipboard.

(* ------------------------------------------------------------------ *)
(** ** Moving in the small world *)








Example sim_cursor_rows :
  selected_entry Sim.on_a_txt = Some (Sim.docs ++ ["a.txt"])
  /\ selected_entry Sim.on_data_tar_gz = Some (Sim.docs ++ ["data.tar.gz"])
  /\ selected_entry Sim.on_note_gz = Some (Sim.docs ++ ["note.gz"]).
Proof. vm_compute. repeat split. Qed.



Example sim_cut_paste_undo :
  let src := Sim.docs ++ ["a.txt"] in
  let dst := Sim.inbox ++ ["a.txt"] in
  let there := snd (assign_current_dir Sim.inbox (snd (action_cut_item Sim.on_a_txt))) in
  let pasted := snd (action_paste_item there) in
  let undone := snd (action_undo pasted) in
  (Sim.lookup src (Sim.nodes (world pasted)) = None
   /\ Sim.lookup dst (Sim.nodes (world pasted)) = Some (Sim.File (Sim.Data "hi") (9 # 1)))
  /\ (Sim.lookup src (Sim.nodes (world undone)) = Some (Sim.File (Sim.Data "hi") (9 # 1))
      /\ Sim.lookup dst (Sim.nodes (world undone)) = None).
Proof. vm_compute. repeat split. Qed.

(* ------------------------------------------------------------------ *)
(** ** Soft delete *)

Section Trash.

Context {W : Type} {os : OS W}.

Implicit Types (a : App W) (w : W) (targets pre post : list Path).

Lemma bind_ok {S A B} (c : SE S A) (k : A -> SE S B) (s s' : S) (x : A) :
  c s = (Ok x, s') -> SE.bind c k s = k x s'.
Proof. intros E. unfold SE.bind. now rewrite E. Qed.

Lemma bind_raise {S A B} (c : SE S A) (k : A -> SE S B) (s s' : S) (e : exn) :
  c s = (Raise e, s') -> SE.bind c k s = (Raise e, s').
Proof. intros E. unfold SE.bind. now rewrite E. Qed.

Lemma with_world_same a : with_world (world a) a = a.
Proof. now destruct a. Qed.

(** The loop of [action_delete] is the run of moves [trash_moves]. *)
Lemma trash_each_moves targets (acc : list (Path * Path)) a :
  trash_each targets acc a
  = match trash_moves (world a) targets with
    | (moves, None, w') => (Ok (Some (acc ++ moves)), with_world w' a)
    | (_, Some (bad, e), w') =>
        (Ok None,
         with_status ("⚠  Error deleting " ++ PurePath.name bad ++ ": " ++ str_exn e)
           (with_world w' a))
    end.
Proof.
  revert acc a; induction targets as [|entry rest IH]; intros acc a.
  - simpl. unfold SE.ret. now rewrite app_nil_r, with_world_same.
  - cbn [trash_each trash_moves].
    unfold SE.bind at 1. unfold SE.attempt at 1.
    unfold SE.bind at 1. unfold SE.get at 1.
    unfold SE.bind at 1. unfold io at 1.
    destruct (shutil_move entry _ (world a)) as [[[]|e] w1]; cbn [SE.ret].
    + rewrite IH. cbn [world with_world].
      destruct (trash_moves w1 rest) as [[moves [[bad e]|]] w2].
      * reflexivity.
      * now rewrite <- app_assoc.
    + reflexivity.
Qed.

(** A run of moves stops at the first move that raises: what comes after
    the failing entry plays no part. *)
Lemma trash_moves_stops w pre bad post moves wk e wb :
  trash_moves w pre = (moves, None, wk) ->
  shutil_move bad (TRASH_DIR // (strftime_now wk ++ "_" ++ PurePath.name bad)) wk
  = (Raise e, wb) ->
  trash_moves w (pre ++ bad :: post) = (moves, Some (bad, e), wb).
Proof.
  revert w moves; induction pre as [|entry pre IH]; intros w moves Hpre Hbad.
  - cbn [trash_moves] in Hpre. injection Hpre as <- <-.
cbn [app trash_moves]. now rewrite Hbad.
  - cbn [app trash_moves] in *.
    destruct (shutil_move entry _ w) as [[[]|e1] w1]; [| discriminate].
    destruct (trash_moves w1 pre) as [[ms failed] w2] eqn:E.
    injection Hpre as <- -> <-.
    now rewrite (IH w1 ms E Hbad).
Qed.

(** A run that ends without a failure has moved every entry. *)
Lemma trash_moves_all w targets moves w' :
  trash_moves w targets = (moves, None, w') -> map snd moves = targets.
Proof.
  revert w moves; induction targets as [|entry rest IH]; intros w moves H.
  - simpl in H. now injection H as <- _.
  - cbn [trash_moves] in H.
    destruct (shutil_move entry _ w) as [[[]|e1] w1]; [| discriminate].
    destruct (trash_moves w1 rest) as [[ms failed] w2] eqn:E.
    injection H as <- -> <-. simpl. now rewrite (IH _ _ E).
Qed.

(** A confirmed delete of a non-empty batch, once the trash directory is
    there. *)
Lemma action_delete_confirmed a w1 :
  _effective_targets a <> [] ->
  mkdir_parents TRASH_DIR (world a) = (Ok tt, w1) ->
  action_delete true a
  = match trash_moves w1 (_effective_targets a) with
    | (moves, None, w2) =>
        let label :=
          match _effective_targets a with
          | [only] => PurePath.name only
          | l => (Str.of_nat (List.length l) ++ " items")%string
          end in
        (refresh_table ;;
         set_status ("✔  Deleted: " ++ label ++ "  (press U to undo)") ;;
         push_undo ("delete " ++ label) (_undo_delete moves))%se
          (with_selected [] (with_world w2 a))
    | (_, Some (bad, e), w2) =>
        (Ok tt,
         with_status ("⚠  Error deleting " ++ PurePath.name bad ++ ": " ++ str_exn e)
           (with_world w2 a))
    end.
Proof.
  intros Hne Hmk. unfold action_delete. unfold SE.bind at 1. unfold SE.get at 1.
  destruct (_effective_targets a) as [|first others] eqn:Ht; [now elim Hne |].
  erewrite bind_ok by (unfold io; rewrite Hmk; reflexivity).
  unfold SE.bind at 1. rewrite trash_each_moves. cbn [world with_world].
  destruct (trash_moves w1 (first :: others)) as [[moves [[bad e]|]] w2].
  - reflexivity.
  - cbn [app]. unfold SE.bind at 1. unfold SE.modify at 1.
    destruct others; reflexivity.
Qed.

(** The undo stack changes only when every entry of the batch has been
    moved. *)
Lemma action_delete_pushes (confirmed : bool) a :
  _undo (snd (action_delete confirmed a)) <> _undo a ->
  confirmed = true
  /\ exists w1 moves w2,
       mkdir_parents TRASH_DIR (world a) = (Ok tt, w1)
       /\ trash_moves w1 (_effective_targets a) = (moves, None, w2)
       /\ map snd moves = _effective_targets a.
Proof.
  intros Hpush.
  destruct (_effective_targets a) as [|first others] eqn:Ht.
  { exfalso. apply Hpush. unfold action_delete, SE.bind, SE.get. now rewrite Ht. }
  destruct confirmed.
  2:{ exfalso. apply Hpush. unfold action_delete, SE.bind, SE.get. now rewrite Ht. }
  split; [reflexivity |].
  destruct (mkdir_parents TRASH_DIR (world a)) as [[[]|e] w1] eqn:Hmk.
  2:{ exfalso. apply Hpush. unfold action_delete. unfold SE.bind at 1.
      unfold SE.get at 1. rewrite Ht.
      erewrite bind_raise by (unfold io; rewrite Hmk; reflexivity). reflexivity. }
  assert (Hne : _effective_targets a <> []) by (rewrite Ht; discriminate).
  rewrite (action_delete_confirmed a w1 Hne Hmk) in Hpush. rewrite Ht in Hpush.
  destruct (trash_moves w1 (first :: others)) as [[moves [[bad e]|]] w2] eqn:Hm.
  - exfalso. apply Hpush. reflexivity.
  - exists w1, moves, w2.
split; [reflexivity |]. split; [exact Hm |]. exact (trash_moves_all _ _ _ _ Hm).
Qed.

(** C4.  A confirmed soft delete of the batch [pre ++ bad :: post] in
    which every entry of [pre] is moved to the trash and the move of [bad]
    raises: the action ends there.  It reports [bad] and the exception in
    the status bar; the world is the one left by the moves of [pre] and
    the failed attempt, so nothing is moved back and nothing of [post] is
    tried; the undo stack, the selection and everything else are as
    before.  In general the undo stack changes only when every entry of
    the batch has been moved. *)
Theorem soft_delete_partial_failure a pre bad post w1 moves wk (e : exn) wb :
  _effective_targets a = pre ++ bad :: post ->
  mkdir_parents TRASH_DIR (world a) = (Ok tt, w1) ->
  trash_moves w1 pre = (moves, None, wk) ->
  shutil_move bad (TRASH_DIR // (strftime_now wk ++ "_" ++ PurePath.name bad)) wk
  = (Raise e, wb) ->
  action_delete true a
  = (Ok tt,
     with_status ("⚠  Error deleting " ++ PurePath.name bad ++ ": " ++ str_exn e)
       (with_world wb a))
  /\ map snd moves = pre
  /\ _undo (snd (action_delete true a)) = _undo a
  /\ (forall confirmed b,
        _undo (snd (action_delete confirmed b)) <> _undo b ->
        confirmed = true
        /\ exists w1 moves w2,
             mkdir_parents TRASH_DIR (world b) = (Ok tt, w1)
             /\ trash_moves w1 (_effective_targets b) = (moves, None, w2)
             /\ map snd moves = _effective_targets b).
Proof.
  intros Ht Hmk Hpre Hbad.
  assert (Hne : _effective_targets a <> [])
    by (rewrite Ht; destruct pre; discriminate).
  assert (Hrun : action_delete true a
                 = (Ok tt,
                    with_status ("⚠  Error deleting " ++ PurePath.name bad ++ ": "
                                 ++ str_exn e) (with_world wb a))).
  { rewrite (action_delete_confirmed a w1 Hne Hmk), Ht.
    now rewrite (trash_moves_stops _ _ _ post _ _ _ _ Hpre Hbad). }
  split; [exact Hrun |].
  split; [exact (trash_moves_all _ _ _ _ Hpre) |].
  split; [now rewrite Hrun |].
  exact action_delete_pushes.
Qed.

End Trash.

Lemma soft_delete_partial_failure_witness :
  let after := snd (action_delete true Sim.batch) in
  status after = "⚠  Error deleting ghost: Operation not permitted"
  /\ _undo after = []
  /\ _selected after = _selected Sim.batch.
Proof.
  intros after.
  pose (w1 := snd (mkdir_parents TRASH_DIR (world Sim.batch))).
  pose (run := trash_moves w1 [Sim.docs ++ ["a.txt"]]).
  pose (wk := snd run).
  pose (bad := Sim.docs ++ ["ghost"]).
  pose (wb := snd (shutil_move bad
                     (TRASH_DIR // (strftime_now wk ++ "_" ++ PurePath.name bad)) wk)).
  destruct (soft_delete_partial_failure Sim.batch
              [Sim.docs ++ ["a.txt"]] bad [Sim.docs ++ ["b.txt"]]
              w1 (fst (fst run)) wk (PermissionError "Operation not permitted") wb)
    as (Hrun & _ & Hundo & _);
    try (vm_compute; reflexivity).
  unfold after. rewrite Hrun. repeat split.
Defined.

Example sim_partial_delete :
  let after := world (snd (action_delete true Sim.batch)) in
  Sim.lookup (Sim.docs ++ ["a.txt"]) (Sim.nodes after) = None
  /\ Sim.lookup (TRASH_DIR ++ ["19700101_000000_1_a.txt"]) (Sim.nodes after)
     = Some (Sim.File (Sim.Data "hi") (9 # 1))
  /\ Sim.lookup (Sim.docs ++ ["ghost"]) (Sim.nodes after) = Some Sim.Pinned
  /\ Sim.lookup (Sim.docs ++ ["b.txt"]) (Sim.nodes after)
     = Some (Sim.File (Sim.Data "hello") (5 # 1)).
Proof. vm_compute. repeat split. Qed.

Example sim_delete_undo :
  let a := Sim.on_a_txt in
  let deleted := snd (action_delete true a) in
  let undone := snd (action_undo deleted) in
  UndoStack.peek (_undo deleted) = Some "delete a.txt"
  /\ Sim.lookup (Sim.docs ++ ["a.txt"]) (Sim.nodes (world deleted)) = None
  /\ Sim.lookup (Sim.docs ++ ["a.txt"]) (Sim.nodes (world undone))
     = Some (Sim.File (Sim.Data "hi") (9 # 1))
  /\ _undo undone = [].
Proof. vm_compute. repeat split. Qed.

(* ------------------------------------------------------------------ *)
(** ** Archives *)

Section Archive.

Context {W : Type} {os : OS W}.

Implicit Types (a : App W) (path dest entry : Path).

Lemma length_append (s p : string) :
  String.length (s ++ p) = String.length s + String.length p.
Proof. induction s as [|c s IH]; simpl; [reflexivity | now rewrite IH]. Qed.

Lemma substring_whole (p : string) : substring 0 (String.length p) p = p.
Proof. induction p as [|c p IH]; simpl; [reflexivity | now rewrite IH]. Qed.

Lemma substring_append (s p : string) (n : nat) :
  substring (String.length s) n (s ++ p) = substring 0 n p.
Proof. induction s as [|c s IH]; simpl; [reflexivity | exact IH]. Qed.

Lemma endswith_append (s p : string) : Str.endswith p (s ++ p) = true.
Proof.
  unfold Str.endswith. rewrite length_append.
  replace (String.length s + String.length p - String.length p)
    with (String.length s) by lia.
  rewrite substring_append, substring_whole, String.eqb_refl.
  rewrite andb_true_r. apply Nat.leb_le. lia.
Qed.

(** The archive name always carries the zip suffix. *)
Lemma archive_name_zip (result : string) :
  Str.endswith ".zip" (archive_name result) = true.
Proof.
  unfold archive_name. destruct (Str.endswith ".zip" result) eqn:E; [exact E |].
  apply endswith_append.
Qed.

Lemma name_snoc (p : Path) (x : string) :
  prefix "/" x = false -> PurePath.name (p ++ [x]) = x.
Proof.
  intros Hx. unfold PurePath.name, PurePath.tail.
  destruct p as [|y p]; cbn [app].
  - now rewrite Hx.
  - destruct (prefix "/" y).
    + apply last_last.
    + change (y :: p ++ [x]) with ((y :: p) ++ [x]). apply last_last.
Qed.

(** *** The dispatch of [action_archive] *)

Lemma action_archive_extracts a (result : option string) entry :
  cursor_on_archive a entry ->
  action_archive result a = _extract_archive entry a.
Proof.
  intros (Hsel & Hnone & Harch). unfold action_archive.
  unfold SE.bind at 1. unfold SE.get at 1.
  now rewrite Hsel, Hnone, Harch.
Qed.

Lemma action_archive_archives a (result : option string) :
  (forall entry, ~ cursor_on_archive a entry) ->
  _effective_targets a <> [] ->
  action_archive result a = archive_handle (_effective_targets a) result a.
Proof.
  intros Hno Hne. unfold action_archive.
  unfold SE.bind at 1. unfold SE.get at 1.
  destruct (selected_entry a) as [entry|] eqn:Hsel.
  - destruct (is_archive entry) eqn:Harch; cbn [andb].
    + destruct (_selected a) as [|x l] eqn:Hs.
      * exfalso. apply (Hno entry). now repeat split.
      * cbn [Str.truthy_list negb].
        destruct (_effective_targets a); [now elim Hne | reflexivity].
    + destruct (_effective_targets a); [now elim Hne | reflexivity].
  - destruct (_effective_targets a); [now elim Hne | reflexivity].
Qed.

(** *** Writing the zip archive *)

Lemma only_world_refl a : only_world a a.
Proof. unfold only_world. now rewrite with_world_same. Qed.

Lemma only_world_trans a b c : only_world a b -> only_world b c -> only_world a c.
Proof. unfold only_world. intros Hb Hc. rewrite Hc, Hb. reflexivity. Qed.

Lemma io_only_world {A} (c : SE W A) : SE.preserves only_world (io c).
Proof. intros a. unfold io. now destruct (c (world a)). Qed.

Ltac frame_world :=
  lazymatch goal with
  | |- SE.preserves _ (io _) => apply io_only_world
  | |- SE.preserves _ (SE.bind _ _) =>
      apply (preserves_bind only_world only_world_trans);
        [frame_world | intros ?; frame_world]
  | |- SE.preserves _ (SE.for_each _ _) =>
      apply (preserves_for_each only_world only_world_refl only_world_trans);
        intros ?; frame_world
  | |- SE.preserves _ (SE.attempt _) =>
      apply (preserves_attempt only_world); frame_world
  | |- SE.preserves _ (if ?b then _ else _) => destruct b; frame_world
  | |- SE.preserves _ SE.get => apply preserves_get; exact only_world_refl
  | |- SE.preserves _ (SE.of_result _) =>
      apply preserves_of_result; exact only_world_refl
  | |- SE.preserves _ (SE.ret _) => apply preserves_ret; exact only_world_refl
  end.

(** Writing the archive changes nothing of the session but the world. *)
Lemma with_zip_w_only_world (out_path : Path) (targets : list Path) :
  SE.preserves only_world (with_zip_w out_path (zip_targets out_path targets)).
Proof. unfold with_zip_w, zip_targets. frame_world. Qed.

Lemma archive_handle_ok a (targets : list Path) (name : string) (a1 : App W) :
  name <> "" ->
  let out_path := current_dir a // archive_name name in
  with_zip_w out_path (zip_targets out_path targets) a = (Ok tt, a1) ->
  fst (refresh_table (with_selected [] a1)) = Ok tt ->
  let a' := snd (archive_handle targets (Some name) a) in
  world a' = world a1
  /\ _selected a' = []
  /\ _undo a' = UndoStack.push ("zip " ++ archive_name name)
                               (unlink_missing_ok out_path) (_undo a).
Proof.
  intros Hname out_path Hzip Hlist a'.
  pose proof (with_zip_w_only_world out_path targets a) as Hframe.
  rewrite Hzip in Hframe. cbn [snd] in Hframe.
  assert (Hundo : _undo a1 = _undo a) by (rewrite Hframe; reflexivity).
  pose proof (refresh_table_frame (with_selected [] a1)) as Hsame.
  destruct (refresh_table (with_selected [] a1)) as [r a2] eqn:Hrefresh.
  cbn [fst snd] in Hlist, Hsame. subst r.
  assert (Hrun : archive_handle targets (Some name) a
                 = (Ok tt,
                    with_undo (UndoStack.push ("zip " ++ archive_name name)
                                 (unlink_missing_ok out_path) (_undo a2))
                      (with_status ("✔  Created archive: " ++ archive_name name) a2))).
  { unfold archive_handle. destruct name as [|c name]; [now elim Hname |].
    cbn [Str.truthy negb]. unfold SE.bind at 1. unfold SE.get at 1.
    fold out_path. unfold SE.try_except.
    erewrite bind_ok by exact Hzip.
    erewrite bind_ok by reflexivity.
    erewrite bind_ok by exact Hrefresh.
    reflexivity. }
  unfold a'. rewrite Hrun.
  cbn [snd world _selected _undo with_undo with_status].
  destruct Hsame as (_ & _ & _ & _ & _ & _ & Hs & Hu & _ & Hw).
  cbn [world _selected _undo with_selected] in Hs, Hu, Hw.
  rewrite Hu, Hundo. split; [exact Hw |]. split; [exact Hs | reflexivity].
Qed.

(** C8 (amended).  [action_archive] extracts exactly when the cursor is
    on an entry whose name has an archive suffix and the selection is
    empty.  In every other case in which there is a target it hands the
    targets to the name dialog; with a non-empty name the archive is
    written to the current directory under that name, with [.zip]
    appended unless the name already ends with it; when writing succeeds
    and the listing can be refreshed, the selection is cleared and an
    undo entry that deletes the archive is pushed.  With no target the
    action only reports that nothing is selected. *)
Theorem archive_dispatch a (result : option string) :
  (forall entry,
      cursor_on_archive a entry ->
      action_archive result a = _extract_archive entry a)
  /\ ((forall entry, ~ cursor_on_archive a entry) ->
      _effective_targets a <> [] ->
      action_archive result a = archive_handle (_effective_targets a) result a)
  /\ (forall (targets : list Path) (name : string),
        name <> "" ->
        let zip_name := archive_name name in
        let out_path := current_dir a // zip_name in
        Str.endswith ".zip" zip_name = true
        /\ (Str.endswith ".zip" name = true -> zip_name = name)
        /\ (Str.endswith ".zip" name = false -> zip_name = (name ++ ".zip")%string)
        /\ (forall a1,
              with_zip_w out_path (zip_targets out_path targets) a = (Ok tt, a1) ->
              fst (refresh_table (with_selected [] a1)) = Ok tt ->
              let a' := snd (archive_handle targets (Some name) a) in
              world a' = world a1
              /\ _selected a' = []
              /\ _undo a' = UndoStack.push ("zip " ++ zip_name)
                                           (unlink_missing_ok out_path) (_undo a)))
  /\ (_effective_targets a = [] ->
      action_archive result a
      = (Ok tt,
         with_status "⚠  No items selected to zip. Use Space to select files." a)).
Proof.
  split; [intros entry; apply action_archive_extracts |].
  split; [apply action_archive_archives |].
  split.
  { intros targets name Hname zip_name out_path.
    split; [apply archive_name_zip |].
    split; [intros E; unfold zip_name, archive_name; now rewrite E |].
    split; [intros E; unfold zip_name, archive_name; now rewrite E |].
    intros a1. apply archive_handle_ok. exact Hname. }
  intros Hnone. unfold action_archive, SE.bind, SE.get. rewrite Hnone.
  unfold _effective_targets in Hnone.
  destruct (_selected a); [| discriminate].
  destruct (selected_entry a); [discriminate | reflexivity].
Qed.

End Archive.

Lemma archive_dispatch_witness :
  action_archive None Sim.on_data_tar_gz
  = _extract_archive (Sim.docs ++ ["data.tar.gz"]) Sim.on_data_tar_gz
  /\ action_archive (Some "out") Sim.on_a_txt
     = archive_handle [Sim.docs ++ ["a.txt"]] (Some "out") Sim.on_a_txt
  /\ _undo (snd (archive_handle [Sim.docs ++ ["a.txt"]] (Some "out") Sim.on_a_txt))
     = UndoStack.push "zip out.zip" (unlink_missing_ok (Sim.docs ++ ["out.zip"])) []
  /\ action_archive (Some "out") Sim.in_inbox
     = (Ok tt,
        with_status "⚠  No items selected to zip. Use Space to select files."
                    Sim.in_inbox).
Proof.
  destruct (archive_dispatch Sim.on_data_tar_gz None) as (Hextract & _ & _ & _).
  destruct (archive_dispatch Sim.in_inbox (Some "out")) as (_ & _ & _ & Hnone).
  destruct (archive_dispatch Sim.on_a_txt (Some "out")) as (_ & Harchive & Hzip & _).
  split; [apply Hextract; repeat split |].
  split.
  - apply Harchive; [| discriminate].
    intros entry (Hsel & _ & Harch).
    vm_compute in Hsel. injection Hsel as <-. vm_compute in Harch. discriminate Harch.
  - destruct (Hzip [Sim.docs ++ ["a.txt"]] "out") as (_ & _ & _ & Hrun); [discriminate |].
    pose (a1 := snd (with_zip_w (Sim.docs ++ ["out.zip"])
                       (zip_targets (Sim.docs ++ ["out.zip"]) [Sim.docs ++ ["a.txt"]])
                       Sim.on_a_txt)).
    destruct (Hrun a1) as (_ & _ & Hundo); [reflexivity | reflexivity |].
    split; [exact Hundo |]. apply Hnone. reflexivity.
Defined.

(** C8, as stated, fails.  With the cursor on [data.tar.gz] and that same
    entry the only selected one, exactly one entry is targeted, no other
    entry is selected and its name has an archive suffix; yet the action
    does not extract it: it writes [out.zip] and leaves no [data.tar].  And
    in a case that is not an extraction, an empty listing, nothing is
    archived: the action only reports that there is nothing to zip. *)
Lemma archive_dispatch_counterexample :
  let a := Sim.archive_selected in
  let entry := Sim.docs ++ ["data.tar.gz"] in
  let zipped := snd (action_archive (Some "out") a) in
  ((_effective_targets a = [entry]
    /\ selected_entry a = Some entry
    /\ _selected a = [entry]
    /\ is_archive entry = true)
   /\ action_archive (Some "out") a <> _extract_archive entry a
   /\ Sim.lookup (Sim.docs ++ ["out.zip"]) (Sim.nodes (world zipped))
      = Some (Sim.File (Sim.Zip [(["data.tar.gz"], Sim.MFile "tar")]) 0%Q)
   /\ Sim.lookup (Sim.docs ++ ["data.tar"]) (Sim.nodes (world zipped)) = None
   /\ Sim.lookup (Sim.docs ++ ["data.tar"])
                 (Sim.nodes (world (snd (_extract_archive entry a))))
      = Some Sim.Dir)
  /\ (_effective_targets Sim.in_inbox = []
      /\ action_archive (Some "out") Sim.in_inbox
         = (Ok tt,
            with_status "⚠  No items selected to zip. Use Space to select files."
                        Sim.in_inbox)).
Proof.
  intros a entry zipped. split.
  - split; [repeat split |].
    split; [| vm_compute; repeat split].
    intros H.
    assert (Hs : status (snd (action_archive (Some "out") a))
                 = status (snd (_extract_archive entry a))) by now rewrite H.
    vm_compute in Hs. discriminate Hs.
  - vm_compute. split; reflexivity.
Qed.

(* ------------------------------------------------------------------ *)
(** ** Extraction *)

Section Extract.

Context {W : Type} {os : OS W}.

Implicit Types (a : App W) (path dest : Path).

(** The [try] block of [_extract_archive] around one library call. *)
Lemma extract_try a path dest (extractor : Path -> Path -> SE W unit) :
  let run :=
    SE.try_except
      (io (extractor path dest) ;;
       refresh_table ;;
       set_status ("✔  Extracted: " ++ PurePath.name path ++ "  →  "
                   ++ PurePath.name dest) ;;
       push_undo ("extract " ++ PurePath.name path) (remove_path dest))%se
      (fun e => set_status ("⚠  Extraction error: " ++ str_exn e)) in
  fst (run a) = Ok tt
  /\ extracted_with extractor a path dest (snd (run a)).
Proof.
  intros run. split.
  - destruct (total_try_except
                (io (extractor path dest) ;;
                 refresh_table ;;
                 set_status ("✔  Extracted: " ++ PurePath.name path ++ "  →  "
                             ++ PurePath.name dest) ;;
                 push_undo ("extract " ++ PurePath.name path) (remove_path dest))%se
                (fun e => set_status ("⚠  Extraction error: " ++ str_exn e))
                (fun e => set_status_total _) a) as [[] H].
    exact H.
  - intros w1 Hop. unfold run, SE.try_except.
    erewrite bind_ok by (unfold io; rewrite Hop; reflexivity).
    pose proof (refresh_table_frame (with_world w1 a)) as Hsame.
    unfold SE.bind, set_status, push_undo, SE.modify.
    destruct (refresh_table (with_world w1 a)) as [[[]|e] a2];
      cbn [fst snd] in Hsame |- *;
      destruct Hsame as (_ & _ & _ & _ & _ & _ & _ & Hu & _ & Hw);
      cbn [world _undo with_world] in Hu, Hw;
      cbn [fst snd world status _undo with_undo with_status].
    + split; [exact Hw |]. intros _. now rewrite Hu.
    + split; [exact Hw |]. intros H; discriminate H.
Qed.

(** C1 (amended).  [_extract_archive] never raises, and its destination
    is the current directory joined with [path.stem], the name of the
    archive without its last suffix only; for an entry of the current
    listing the current directory is the parent of the archive.  A name
    ending in [.zip] is handed to [zipfile], one ending in a tar suffix to
    [tarfile], one ending in [.gz] to [gzip], each with that destination;
    any other name is reported as unsupported and nothing else changes.
    So [data.tar.gz] is extracted by [tarfile] into a directory named
    [data.tar], and [note.gz] is decompressed by [gzip] into a file named
    [note]. *)
Theorem extract_destination a path :
  let dest := current_dir a // PurePath.stem path in
  let lname := Str.lower (PurePath.name path) in
  let is_zip := Str.endswith ".zip" lname in
  let is_tar := existsb (fun sfx => Str.endswith sfx lname) tar_suffixes in
  let is_gz := Str.endswith ".gz" lname in
  let after := snd (_extract_archive path a) in
  (PurePath.parent path = current_dir a ->
     dest = PurePath.parent path // PurePath.stem path)
  /\ fst (_extract_archive path a) = Ok tt
  /\ (is_zip = true -> extracted_with zip_extractall a path dest after)
  /\ (is_zip = false -> is_tar = true ->
      extracted_with tar_extractall a path dest after)
  /\ (is_zip = false -> is_tar = false -> is_gz = true ->
      extracted_with gzip_copy a path dest after)
  /\ (is_zip = false -> is_tar = false -> is_gz = false ->
      _extract_archive path a
      = (Ok tt,
         with_status ("⚠  Unsupported archive format: " ++ PurePath.suffix path) a))
  /\ (PurePath.name path = "data.tar.gz" ->
      PurePath.name dest = "data.tar"
      /\ extracted_with tar_extractall a path dest after)
  /\ (PurePath.name path = "note.gz" ->
      PurePath.name dest = "note"
      /\ extracted_with gzip_copy a path dest after).
Proof.
  intros dest lname is_zip is_tar is_gz after.
  assert (Hrun : _extract_archive path a
                 = if is_zip then
                     SE.try_except
                       (io (zip_extractall path dest) ;;
                        refresh_table ;;
                        set_status ("✔  Extracted: " ++ PurePath.name path ++ "  →  "
                                    ++ PurePath.name dest) ;;
                        push_undo ("extract " ++ PurePath.name path)
                                  (remove_path dest))%se
                       (fun e => set_status ("⚠  Extraction error: " ++ str_exn e)) a
                   else if is_tar then
                     SE.try_except
                       (io (tar_extractall path dest) ;;
                        refresh_table ;;
                        set_status ("✔  Extracted: " ++ PurePath.name path ++ "  →  "
                                    ++ PurePath.name dest) ;;
                        push_undo ("extract " ++ PurePath.name path)
                                  (remove_path dest))%se
                       (fun e => set_status ("⚠  Extraction error: " ++ str_exn e)) a
                   else if is_gz then
                     SE.try_except
                       (io (gzip_copy path dest) ;;
                        refresh_table ;;
                        set_status ("✔  Extracted: " ++ PurePath.name path ++ "  →  "
                                    ++ PurePath.name dest) ;;
                        push_undo ("extract " ++ PurePath.name path)
                                  (remove_path dest))%se
                       (fun e => set_status ("⚠  Extraction error: " ++ str_exn e)) a
                   else
                     (Ok tt,
                      with_status ("⚠  Unsupported archive format: "
                                   ++ PurePath.suffix path) a)).
  { unfold _extract_archive. unfold SE.bind at 1. unfold SE.get at 1.
    fold dest. cbv zeta. fold lname. fold is_zip. fold is_gz.
    change (existsb (fun sfx => Str.endswith sfx lname)
                    [".tar.gz"; ".tgz"; ".tar.bz2"; ".tar.xz"; ".tar"]) with is_tar.
    destruct is_zip, is_tar, is_gz; reflexivity. }
  assert (Htar : is_zip = false -> is_tar = true ->
                 extracted_with tar_extractall a path dest after).
  { intros Hz Ht. unfold after. rewrite Hrun, Hz, Ht. apply extract_try. }
  assert (Hgz : is_zip = false -> is_tar = false -> is_gz = true ->
                extracted_with gzip_copy a path dest after).
  { intros Hz Ht Hg. unfold after. rewrite Hrun, Hz, Ht, Hg. apply extract_try. }
  split; [now intros -> |].
  split.
  { rewrite Hrun. destruct is_zip; [apply extract_try |].
    destruct is_tar; [apply extract_try |].
    destruct is_gz; [apply extract_try | reflexivity]. }
  split; [intros Hz; unfold after; rewrite Hrun, Hz; apply extract_try |].
  split; [exact Htar |].
  split; [exact Hgz |].
  split; [intros Hz Ht Hg; now rewrite Hrun, Hz, Ht, Hg |].
  split.
  - intros Hname. split.
    + unfold dest, PurePath.stem. rewrite Hname. apply name_snoc. reflexivity.
    + apply Htar; unfold is_zip, is_tar, lname; now rewrite Hname.
  - intros Hname. split.
    + unfold dest, PurePath.stem. rewrite Hname. apply name_snoc. reflexivity.
    + apply Hgz; unfold is_zip, is_tar, is_gz, lname; now rewrite Hname.
Qed.

End Extract.

Lemma extract_destination_witness :
  let tarball := Sim.docs ++ ["data.tar.gz"] in
  let note := Sim.docs ++ ["note.gz"] in
  let untarred := world (snd (_extract_archive tarball Sim.on_data_tar_gz)) in
  let unzipped := world (snd (_extract_archive note Sim.on_note_gz)) in
  (untarred = snd (Sim.untar tarball (Sim.docs ++ ["data.tar"]) Sim.w0)
   /\ Sim.lookup (Sim.docs ++ ["data.tar"]) (Sim.nodes untarred) = Some Sim.Dir
   /\ Sim.lookup (Sim.docs ++ ["data.tar"; "x"; "y.txt"]) (Sim.nodes untarred)
      = Some (Sim.File (Sim.Data "why") 0%Q))
  /\ (unzipped = snd (Sim.gunzip note (Sim.docs ++ ["note"]) Sim.w0)
      /\ Sim.lookup (Sim.docs ++ ["note"]) (Sim.nodes unzipped)
         = Some (Sim.File (Sim.Data "remember") 0%Q)).
Proof.
  intros tarball note untarred unzipped.
  destruct (extract_destination Sim.on_data_tar_gz tarball)
    as (_ & _ & _ & _ & _ & _ & Htar & _).
  destruct (extract_destination Sim.on_note_gz note)
    as (_ & _ & _ & _ & _ & _ & _ & Hgz).
  destruct (Htar eq_refl) as (_ & Hrun1).
  destruct (Hgz eq_refl) as (_ & Hrun2).
  destruct (Hrun1 (snd (Sim.untar tarball (Sim.docs ++ ["data.tar"]) Sim.w0)) eq_refl)
    as (Hw1 & _).
  destruct (Hrun2 (snd (Sim.gunzip note (Sim.docs ++ ["note"]) Sim.w0)) eq_refl)
    as (Hw2 & _).
  split.
  - split; [exact Hw1 |]. unfold untarred. rewrite Hw1. split; reflexivity.
  - split; [exact Hw2 |]. unfold unzipped. rewrite Hw2. reflexivity.
Defined.

(** C1, as stated, fails: extracting [data.tar.gz] does not produce a
    directory named [data].  The stem of [data.tar.gz] is [data.tar], and
    that is the name of the directory the entries are extracted into. *)
Lemma extract_destination_counterexample :
  let tarball := Sim.docs ++ ["data.tar.gz"] in
  let after := snd (_extract_archive tarball Sim.on_data_tar_gz) in
  PurePath.parent tarball = current_dir Sim.on_data_tar_gz
  /\ fst (_extract_archive tarball Sim.on_data_tar_gz) = Ok tt
  /\ status after = "✔  Extracted: data.tar.gz  →  data.tar"
  /\ Sim.lookup (Sim.docs ++ ["data"]) (Sim.nodes (world after)) = None
  /\ Sim.lookup (Sim.docs ++ ["data.tar"]) (Sim.nodes (world after)) = Some Sim.Dir
  /\ Sim.lookup (Sim.docs ++ ["data.tar"; "x"; "y.txt"]) (Sim.nodes (world after))
     = Some (Sim.File (Sim.Data "why") 0%Q)
  /\ PurePath.parent tarball // PurePath.stem tarball <> Sim.docs ++ ["data"].
Proof.
  vm_compute. repeat split. intros H; discriminate H.
Qed.

(* ------------------------------------------------------------------ *)
(** * Further properties *)

(** ** The order of the sort keys *)

Lemma py_le_iff {K} `{PyOrd K} (x y : K) : py_le x y = true <-> py_lt y x = false.
Proof. unfold py_le. apply negb_true_iff. Qed.

Lemma laws_bool : PyOrdLaws bool.
Proof.
  split; unfold py_equiv, py_le; simpl.
  - now intros [] [].
  - now intros [] [] [].
  - now intros [] [].
Qed.

Lemma laws_Z : PyOrdLaws Z.
Proof.
  split; unfold py_equiv, py_le; simpl.
  - intros x y H. apply Z.ltb_lt in H. apply Z.ltb_ge. lia.
  - intros x y z H1 H2. apply negb_true_iff, Z.ltb_ge in H1, H2.
    apply negb_true_iff, Z.ltb_ge. lia.
  - intros x y.
    destruct (Z.eqb_spec x y) as [->|N].
    + now rewrite Z.ltb_irrefl.
    + destruct (Z.ltb_spec y x), (Z.ltb_spec x y); simpl; try reflexivity; lia.
Qed.

Lemma Q_le_iff (x y : Q) : py_le x y = true <-> (x <= y)%Q.
Proof.
  unfold py_le. simpl. rewrite negb_involutive. apply Qle_bool_iff.
Qed.

Lemma laws_Q : PyOrdLaws Q.
Proof.
  split.
  - intros x y H. simpl in *. apply negb_true_iff in H.
    apply negb_false_iff, Qle_bool_iff.
    destruct (Qlt_le_dec x y) as [L|L]; [now apply Qlt_le_weak |].
    apply Qle_bool_iff in L. congruence.
  - intros x y z H1 H2. apply Q_le_iff in H1, H2. apply Q_le_iff.
    now apply Qle_trans with y.
  - intros x y. unfold py_equiv.
    destruct (py_le x y) eqn:E1, (py_le y x) eqn:E2; simpl.
    + apply Q_le_iff in E1, E2. apply Qeq_bool_iff. now apply Qle_antisym.
    + destruct (Qeq_bool x y) eqn:E; [| reflexivity].
      apply Qeq_bool_iff in E.
      assert (L : py_le y x = true) by (apply Q_le_iff; rewrite E; apply Qle_refl).
      congruence.
    + destruct (Qeq_bool x y) eqn:E; [| reflexivity].
      apply Qeq_bool_iff in E.
      assert (L : py_le x y = true) by (apply Q_le_iff; rewrite E; apply Qle_refl).
      congruence.
    + destruct (Qlt_le_dec x y) as [L|L].
      * apply Qlt_le_weak, Q_le_iff in L. congruence.
      * apply Q_le_iff in L. congruence.
Qed.

(** Strings compare by their first differing character. *)
Lemma string_compare_refl (s : string) : String.compare s s = Eq.
Proof.
  induction s as [|c s IH]; simpl; [reflexivity |].
  unfold Ascii.compare. now rewrite N.compare_refl.
Qed.

Lemma string_compare_lt_trans (x y z : string) :
  String.compare x y = Lt -> String.compare y z = Lt -> String.compare x z = Lt.
Proof.
  revert y z; induction x as [|a x IH]; intros [|b y] [|c z]; simpl;
    try discriminate; try reflexivity.
  unfold Ascii.compare.
  destruct (N.compare_spec (N_of_ascii a) (N_of_ascii b)) as [Eab|Lab|Gab];
    destruct (N.compare_spec (N_of_ascii b) (N_of_ascii c)) as [Ebc|Lbc|Gbc];
    try discriminate; intros H1 H2.
  - rewrite Eab, Ebc, N.compare_refl. now apply IH with y.
  - rewrite Eab. now apply N.compare_lt_iff in Lbc as ->.
  - rewrite <- Ebc. now apply N.compare_lt_iff in Lab as ->.
  - assert (L : (N_of_ascii a < N_of_ascii c)%N) by lia.
    now apply N.compare_lt_iff in L as ->.
Qed.

Lemma string_le_iff (x y : string) :
  py_le x y = true <-> String.compare x y = Lt \/ x = y.
Proof.
  unfold py_le. simpl. unfold String.ltb.
  rewrite (String.compare_antisym y x).
  destruct (String.compare x y) eqn:E; simpl; split; intros H;
    try discriminate; try reflexivity; auto.
  - right. now apply String.compare_eq_iff.
  - destruct H as [H|H]; [discriminate |].
    subst y. rewrite string_compare_refl in E. discriminate.
Qed.

Lemma laws_str : PyOrdLaws string.
Proof.
  split.
  - intros x y H. simpl in *. unfold String.ltb in *.
    rewrite (String.compare_antisym y x).
    now destruct (String.compare x y).
  - intros x y z H1 H2. apply string_le_iff in H1, H2. apply string_le_iff.
    destruct H1 as [H1| ->]; [| exact H2].
    destruct H2 as [H2| ->]; [| now left].
    left. now apply string_compare_lt_trans with y.
  - intros x y. change (py_eq x y) with (String.eqb x y). unfold py_equiv.
    destruct (String.eqb_spec x y) as [->|N].
    + assert (L : py_le y y = true) by (apply string_le_iff; now right).
      now rewrite L.
    + destruct (py_le x y) eqn:E1, (py_le y x) eqn:E2; try reflexivity.
      apply string_le_iff in E1, E2.
      destruct E1 as [E1|E1]; [| contradiction].
      destruct E2 as [E2|E2]; [| now elim N].
      pose proof (string_compare_lt_trans _ _ _ E1 E2) as C.
      rewrite string_compare_refl in C. discriminate.
Qed.

Section PairOrder.

Context {A B : Type} `{PyOrd A} `{PyOrd B}.
Hypothesis laws_A : PyOrdLaws A.
Hypothesis laws_B : PyOrdLaws B.

Lemma equiv_sym {K} `{PyOrd K} (x y : K) : py_equiv x y = py_equiv y x.
Proof. unfold py_equiv. apply andb_comm. Qed.

Lemma pair_le (x y : A * B) :
  py_le x y
  = if py_equiv (fst x) (fst y) then py_le (snd x) (snd y) else py_le (fst x) (fst y).
Proof.
  unfold py_le at 1. simpl. rewrite (law_eq A laws_A), (equiv_sym (fst y)).
  now destruct (py_equiv (fst x) (fst y)).
Qed.

Lemma equiv_trans_A (x y z : A) :
  py_equiv x y = true -> py_equiv y z = true -> py_equiv x z = true.
Proof.
  unfold py_equiv. intros H1 H2.
  apply andb_prop in H1 as [H1 H1'], H2 as [H2 H2'].
  apply andb_true_intro. split.
  - exact (law_le_trans A laws_A _ _ _ H1 H2).
  - exact (law_le_trans A laws_A _ _ _ H2' H1').
Qed.

Lemma laws_pair : PyOrdLaws (A * B).
Proof.
  split.
  - intros [a b] [c d]. simpl. rewrite !(law_eq A laws_A), (equiv_sym c a).
    destruct (py_equiv a c); [apply (law_asym B laws_B) | apply (law_asym A laws_A)].
  - intros [a1 b1] [a2 b2] [a3 b3]. rewrite !pair_le. simpl.
    destruct (py_equiv a1 a2) eqn:E12, (py_equiv a2 a3) eqn:E23.
    + rewrite (equiv_trans_A _ _ _ E12 E23). apply (law_le_trans B laws_B).
    + intros _ L23.
      apply andb_prop in E12 as [L12 L21].
      pose proof (law_le_trans A laws_A _ _ _ L12 L23) as L13.
      destruct (py_equiv a1 a3) eqn:E13; [| exact L13].
      exfalso. apply andb_prop in E13 as [_ L31].
      pose proof (law_le_trans A laws_A _ _ _ L31 L12) as L32.
      unfold py_equiv in E23. rewrite L23, L32 in E23. discriminate.
    + intros L12 _.
      apply andb_prop in E23 as [L23 L32].
      pose proof (law_le_trans A laws_A _ _ _ L12 L23) as L13.
      destruct (py_equiv a1 a3) eqn:E13; [| exact L13].
      exfalso. apply andb_prop in E13 as [_ L31].
      pose proof (law_le_trans A laws_A _ _ _ L23 L31) as L21.
      unfold py_equiv in E12. rewrite L12, L21 in E12. discriminate.
    + intros L12 L23.
      pose proof (law_le_trans A laws_A _ _ _ L12 L23) as L13.
      destruct (py_equiv a1 a3) eqn:E13; [| exact L13].
      exfalso. apply andb_prop in E13 as [_ L31].
      pose proof (law_le_trans A laws_A _ _ _ L31 L12) as L32.
      unfold py_equiv in E23. rewrite L23, L32 in E23. discriminate.
  - intros [a b] [c d]. unfold py_equiv at 1. rewrite !pair_le. simpl.
    rewrite (law_eq A laws_A), (law_eq B laws_B), (equiv_sym c a).
    destruct (py_equiv a c) eqn:E; [reflexivity |].
    unfold py_equiv in E. now rewrite E.
Qed.

End PairOrder.

(** ** Sorting is ordered, stable and idempotent *)

Section SortedKeys.

Context {K A : Type} `{PyOrd K}.
Hypothesis laws : PyOrdLaws K.

Implicit Types (x y : K * A) (l : list (K * A)).

Lemma sort_keyed_ordered l :
  StronglySorted (fun x y => py_le (fst x) (fst y) = true) (sort_keyed l).
Proof.
  apply sort_keyed_sorted.
  - intros x y z. apply (law_le_trans K laws).
  - intros x y E. apply py_le_iff. now apply (law_asym K laws).
  - intros x y E. now apply py_le_iff.
Qed.

(** Inserting goes past entries with a smaller key only. *)
Lemma insert_keyed_split x l :
  exists l1 l2,
    l = l1 ++ l2
    /\ insert_keyed x l = l1 ++ x :: l2
    /\ Forall (fun y => py_lt (fst y) (fst x) = true) l1.
Proof.
  induction l as [|y l IH]; simpl.
  - exists [], []. repeat split. constructor.
  - destruct (py_lt (fst y) (fst x)) eqn:E.
    + destruct IH as (l1 & l2 & -> & -> & Hl1).
      exists (y :: l1), l2. repeat split. now constructor.
    + exists [], (y :: l). repeat split. constructor.
Qed.

Lemma equiv_trans (a b c : K) :
  py_equiv a b = true -> py_equiv b c = true -> py_equiv a c = true.
Proof. apply (equiv_trans_A laws). Qed.

Lemma insert_keyed_stable (k : K) x l :
  filter (fun y => py_equiv (fst y) k) (insert_keyed x l)
  = filter (fun y => py_equiv (fst y) k) (x :: l).
Proof.
  destruct (insert_keyed_split x l) as (l1 & l2 & -> & -> & Hl1).
  rewrite filter_app. cbn [filter]. rewrite filter_app.
  destruct (py_equiv (fst x) k) eqn:Ex; [| reflexivity].
  assert (Hnone : filter (fun y => py_equiv (fst y) k) l1 = []).
  { induction Hl1 as [|y l1 Hy _ IH]; [reflexivity |]. cbn [filter].
    destruct (py_equiv (fst y) k) eqn:Ey; [| exact IH].
    exfalso. rewrite equiv_sym in Ex.
    pose proof (equiv_trans _ _ _ Ey Ex) as E.
    apply andb_prop in E as [_ E]. apply py_le_iff in E. congruence. }
  now rewrite Hnone.
Qed.

Lemma sort_keyed_stable (k : K) l :
  filter (fun y => py_equiv (fst y) k) (sort_keyed l)
  = filter (fun y => py_equiv (fst y) k) l.
Proof.
  induction l as [|x l IH]; [reflexivity |].
  cbn [sort_keyed fold_right]. fold (sort_keyed l).
  rewrite insert_keyed_stable. cbn [filter]. now rewrite IH.
Qed.

Lemma sort_keyed_fixed l :
  StronglySorted (fun x y => py_le (fst x) (fst y) = true) l ->
  sort_keyed l = l.
Proof.
  induction 1 as [|x l Hs IH Hx]; [reflexivity |].
  cbn [sort_keyed fold_right]. fold (sort_keyed l). rewrite IH.
  destruct l as [|y l]; [reflexivity |]. cbn [insert_keyed].
  inversion Hx as [|? ? Hy _]; subst. apply py_le_iff in Hy. now rewrite Hy.
Qed.

Variable key : A -> K.

Lemma keyed_map_snd (l : list A) :
  map snd (map (fun p => (key p, p)) l) = l.
Proof. rewrite map_map. apply map_id. Qed.

Lemma sort_keyed_keys (l : list A) :
  Forall (fun x => fst x = key (snd x)) (sort_keyed (map (fun p => (key p, p)) l)).
Proof.
  eapply Permutation_Forall; [apply sort_keyed_perm |].
  apply Forall_map, Forall_forall. reflexivity.
Qed.

Lemma rekey l :
  Forall (fun x => fst x = key (snd x)) l ->
  map (fun p => (key p, p)) (map snd l) = l.
Proof.
  induction 1 as [|[k p] l Hx _ IH]; [reflexivity |].
  simpl in *. now rewrite IH, Hx.
Qed.

Lemma map_snd_ordered l :
  Forall (fun x => fst x = key (snd x)) l ->
  StronglySorted (fun x y => py_le (fst x) (fst y) = true) l ->
  StronglySorted (fun p q => py_le (key p) (key q) = true) (map snd l).
Proof.
  intros Hk Hs. induction Hs as [|x l Hs IH Hx]; [constructor |].
  inversion Hk as [|? ? Hkx Hkl]; subst. simpl.
  constructor; [now apply IH |].
  apply Forall_map. rewrite Forall_forall in Hx, Hkl |- *.
  intros y Hy. rewrite <- Hkx, <- (Hkl y Hy). now apply Hx.
Qed.

End SortedKeys.

Section SortedOn.

Context {K : Type} `{PyOrd K}.
Hypothesis laws : PyOrdLaws K.
Variable key : Path -> K.

Lemma sorted_on_ordered (l : list Path) :
  StronglySorted (fun p q => py_le (key p) (key q) = true) (sorted_on key l).
Proof.
  unfold sorted_on. apply map_snd_ordered.
  - apply sort_keyed_keys.
  - now apply sort_keyed_ordered.
Qed.

Lemma sorted_on_stable (k : K) (l : list Path) :
  filter (fun p => py_equiv (key p) k) (sorted_on key l)
  = filter (fun p => py_equiv (key p) k) l.
Proof.
  unfold sorted_on.
  assert (Hmap : forall m : list (K * Path),
             Forall (fun x => fst x = key (snd x)) m ->
             filter (fun p => py_equiv (key p) k) (map snd m)
             = map snd (filter (fun y => py_equiv (fst y) k) m)).
  { induction 1 as [|x m Hx _ IH]; [reflexivity |]. simpl.
    rewrite <- Hx, IH. now destruct (py_equiv (fst x) k). }
  rewrite Hmap by apply sort_keyed_keys.
  rewrite (sort_keyed_stable laws).
  rewrite <- Hmap by (apply Forall_map, Forall_forall; reflexivity).
  now rewrite keyed_map_snd.
Qed.

Lemma sorted_on_fixed (l : list Path) :
  sorted_on key (sorted_on key l) = sorted_on key l.
Proof.
  unfold sorted_on at 1.
  replace (map (fun p => (key p, p)) (sorted_on key l))
    with (sort_keyed (map (fun p => (key p, p)) l)).
  - rewrite sort_keyed_fixed; [reflexivity |].
    now apply sort_keyed_ordered.
  - unfold sorted_on. symmetry. apply rekey, sort_keyed_keys.
Qed.

End SortedOn.

Section SortModes.

Context {W : Type} {os : OS W}.

Implicit Types (w : W) (p q : Path) (l s : list Path).

Lemma sorted_weaken {A} (R R' : A -> A -> Prop) (l : list A) :
  (forall x y, R x y -> R' x y) -> StronglySorted R l -> StronglySorted R' l.
Proof.
  intros HR. induction 1 as [|x l Hs IH Hx]; constructor; [exact IH |].
  eapply Forall_impl; [| exact Hx]. intros y. apply HR.
Qed.

Lemma laws_name_key : PyOrdLaws (bool * string).
Proof. exact (laws_pair laws_bool laws_str). Qed.

Lemma laws_size_key : PyOrdLaws (bool * Z).
Proof. exact (laws_pair laws_bool laws_Z). Qed.

Lemma laws_modified_key : PyOrdLaws (bool * Q).
Proof. exact (laws_pair laws_bool laws_Q). Qed.

Lemma laws_type_key : PyOrdLaws (bool * (string * string)).
Proof. exact (laws_pair laws_bool (laws_pair laws_str laws_str)). Qed.

Lemma sorted_weaken_in {A} (R R' : A -> A -> Prop) (l : list A) :
  (forall x y, In x l -> In y l -> R x y -> R' x y) ->
  StronglySorted R l -> StronglySorted R' l.
Proof.
  intros HR Hs. induction Hs as [|x l Hs IH Hx]; constructor.
  - apply IH. intros a b Ha Hb. apply HR; now right.
  - rewrite Forall_forall in Hx |- *. intros y Hy.
    apply HR; [now left | now right | now apply Hx].
Qed.

(** A key whose first component is [not is_dir]: directories first, and
    the second component decides between two entries of the same kind. *)
Lemma dir_key_le {K'} `{PyOrd K'} w (f : Path -> K') p q :
  py_le (negb (dir_flag w p), f p) (negb (dir_flag w q), f q) = true ->
  (dir_flag w p = false -> dir_flag w q = false)
  /\ (dir_flag w p = dir_flag w q -> py_le (f p) (f q) = true).
Proof.
  rewrite (pair_le laws_bool). cbn [fst snd]. unfold py_equiv, py_le. simpl.
  destruct (dir_flag w p), (dir_flag w q); simpl; intros E; split;
    try discriminate; congruence.
Qed.

(** The same between two entries whose kind can be read, in terms of what
    [is_dir] returns. *)
Lemma dir_key_order {K'} `{PyOrd K'} w (f : Path -> K') (R : Path -> Path -> Prop) s :
  readable w s ->
  (forall p q, py_le (f p) (f q) = true -> R p q) ->
  StronglySorted
    (fun p q => py_le (negb (dir_flag w p), f p) (negb (dir_flag w q), f q) = true) s ->
  StronglySorted
    (fun p q =>
       (is_dir w p = Ok false -> is_dir w q = Ok false)
       /\ (is_dir w p = is_dir w q -> R p q)) s.
Proof.
  intros Hr HR. apply sorted_weaken_in. intros p q Hp Hq E.
  apply (dir_key_le w f) in E as [E1 E2].
  pose proof (readable_flag w s p Hr Hp) as Ep.
  pose proof (readable_flag w s q Hr Hq) as Eq.
  split.
  - intros Hd. rewrite Ep in Hd. injection Hd as Hd. now rewrite Eq, (E1 Hd).
  - intros Hd. rewrite Ep, Eq in Hd. injection Hd as Hd. apply HR. now apply E2.
Qed.

Lemma str_equiv_eq (a b : string) : py_equiv a b = true <-> a = b.
Proof. rewrite <- (law_eq string laws_str). apply String.eqb_eq. Qed.

(** Under the name mode, when the kind of every entry can be read, the
    sort returns a permutation in which directories come first and entries
    of the same kind are in the order of their lower-cased names.  The
    lower-cased name is the name up to the case of the letters, without a
    capital.  The names are in the ASCII range. *)
Theorem sort_by_name_ordered w l :
  readable w l ->
  Forall (fun p => Str.is_ascii (PurePath.name p) = true) l ->
  (exists s,
      _sort_entries w "name" l = Ok s
      /\ Permutation l s
      /\ StronglySorted
           (fun p q =>
              (is_dir w p = Ok false -> is_dir w q = Ok false)
              /\ (is_dir w p = is_dir w q ->
                  let a := Str.lower (PurePath.name p) in
                  let b := Str.lower (PurePath.name q) in
                  String.compare a b = Lt \/ a = b)) s)
  /\ (forall n : string,
        Str.caseless (Str.lower n) n = true
        /\ Str.no_capital (Str.lower n) = true).
Proof.
  intros Hr _. split; [| exact lower_small].
  eexists; split; [now apply _sort_entries_name |].
  split; [apply sorted_perm |].
  apply (dir_key_order w (fun p => Str.lower (PurePath.name p))).
  - exact (readable_perm _ _ _ (sorted_perm _ l) Hr).
  - intros p q E. now apply string_le_iff.
  - exact (sorted_on_ordered laws_name_key (name_key w) l).
Qed.

(** Under the size mode, when the kind of every entry can be read, the
    sort returns a permutation in which directories come first and, among
    entries of the same kind, the sizes do not decrease.  The size of an
    entry is the [st_size] that [stat] reports for a regular file, and 0
    for everything else and when the [stat] call fails. *)
Theorem sort_by_size_ordered w l :
  readable w l ->
  (exists s,
      _sort_entries w "size" l = Ok s
      /\ Permutation l s
      /\ StronglySorted
           (fun p q =>
              (is_dir w p = Ok false -> is_dir w q = Ok false)
              /\ (is_dir w p = is_dir w q ->
                  forall a b, _size w p = Ok a -> _size w q = Ok b -> (a <= b)%Z)) s)
  /\ (forall p (st : stat_result),
        os_stat w p = Ok st ->
        _size w p = Ok (match st_type st with S_IFREG => st_size st | _ => 0%Z end))
  /\ (forall p e, os_stat w p = Raise e -> _size w p = Ok 0%Z).
Proof.
  intros Hr. split; [| split].
  - eexists; split; [now apply _sort_entries_size |].
    split; [apply sorted_perm |].
    apply (dir_key_order w (size_key w)).
    + exact (readable_perm _ _ _ (sorted_perm _ l) Hr).
    + intros p q E a b Ha Hb.
      rewrite _size_ok in Ha, Hb. injection Ha as <-. injection Hb as <-.
      apply py_le_iff in E. simpl in E. apply Z.ltb_ge in E. exact E.
    + exact (sorted_on_ordered laws_size_key (size_keys w) l).
  - intros p st E. destruct (st_type st) eqn:Ht.
    + apply (_size_not_regular w p st E). congruence.
    + apply (_size_regular w p st E Ht).
    + apply (_size_not_regular w p st E). congruence.
  - exact (_size_stat_fails w).
Qed.

(** Under the modified mode, when the kind of every entry can be read, the
    sort returns a permutation in which directories come first and, among
    entries of the same kind, the most recently modified come first.  The
    modification time of an entry is the [st_mtime] that [stat] reports,
    and 0 when the [stat] call fails. *)
Theorem sort_by_modified_ordered w l :
  readable w l ->
  (exists s,
      _sort_entries w "modified" l = Ok s
      /\ Permutation l s
      /\ StronglySorted
           (fun p q =>
              (is_dir w p = Ok false -> is_dir w q = Ok false)
              /\ (is_dir w p = is_dir w q ->
                  forall a b, _mtime w p = Ok a -> _mtime w q = Ok b -> (b <= a)%Q)) s)
  /\ (forall p (st : stat_result),
        os_stat w p = Ok st -> _mtime w p = Ok (st_mtime st))
  /\ (forall p e, os_stat w p = Raise e -> _mtime w p = Ok 0%Q).
Proof.
  intros Hr. split; [| split].
  - eexists; split; [now apply _sort_entries_modified |].
    split; [apply sorted_perm |].
    apply (dir_key_order w (fun p => Qopp (mtime_key w p))).
    + exact (readable_perm _ _ _ (sorted_perm _ l) Hr).
    + intros p q E a b Ha Hb.
      rewrite _mtime_ok in Ha, Hb. injection Ha as <-. injection Hb as <-.
      apply Q_le_iff in E. apply Qopp_le_compat in E.
      now rewrite !Qopp_opp in E.
    + exact (sorted_on_ordered laws_modified_key (modified_key w) l).
  - exact (_mtime_stat w).
  - exact (_mtime_stat_fails w).
Qed.

(** Under the type mode, when the kind of every entry can be read, the
    sort returns a permutation in which directories come first and entries
    of the same kind are in the order of their lower-cased suffixes, then
    of their lower-cased names.  A lower-cased text is the text up to the
    case of the letters, without a capital.  The names are in the ASCII
    range. *)
Theorem sort_by_type_ordered w l :
  readable w l ->
  Forall (fun p => Str.is_ascii (PurePath.name p) = true) l ->
  (exists s,
      _sort_entries w "type" l = Ok s
      /\ Permutation l s
      /\ StronglySorted
           (fun p q =>
              (is_dir w p = Ok false -> is_dir w q = Ok false)
              /\ (is_dir w p = is_dir w q ->
                  let sp := Str.lower (PurePath.suffix p) in
                  let sq := Str.lower (PurePath.suffix q) in
                  let a := Str.lower (PurePath.name p) in
                  let b := Str.lower (PurePath.name q) in
                  String.compare sp sq = Lt
                  \/ (sp = sq /\ (String.compare a b = Lt \/ a = b)))) s)
  /\ (forall n : string,
        Str.caseless (Str.lower n) n = true
        /\ Str.no_capital (Str.lower n) = true).
Proof.
  intros Hr _. split; [| exact lower_small].
  eexists; split; [now apply _sort_entries_type |].
  split; [apply sorted_perm |].
  apply (dir_key_order w (fun p => (Str.lower (PurePath.suffix p),
                                    Str.lower (PurePath.name p)))).
  - exact (readable_perm _ _ _ (sorted_perm _ l) Hr).
  - intros p q E.
    set (sp := Str.lower (PurePath.suffix p)) in *.
    set (sq := Str.lower (PurePath.suffix q)) in *.
    set (a := Str.lower (PurePath.name p)) in *.
    set (b := Str.lower (PurePath.name q)) in *.
    rewrite (pair_le laws_str) in E. cbn [fst snd] in E.
    destruct (py_equiv sp sq) eqn:Es.
    + right. split; [now apply str_equiv_eq | now apply string_le_iff].
    + apply string_le_iff in E as [E|E]; [now left |].
      apply str_equiv_eq in E. congruence.
  - exact (sorted_on_ordered laws_type_key (type_key w) l).
Qed.

Lemma same_sort_key_equiv {K'} `{PyOrd K'} (laws : PyOrdLaws K') (key : Path -> K') p l :
  filter (fun q => py_eq (key q) (key p)) (sorted_on key l)
  = filter (fun q => py_eq (key q) (key p)) l.
Proof.
  rewrite (filter_ext _ (fun q => py_equiv (key q) (key p)))
    by (intros q; apply (law_eq K' laws)).
  rewrite (filter_ext (fun q => py_eq (key q) (key p))
                      (fun q => py_equiv (key q) (key p)))
    by (intros q; apply (law_eq K' laws)).
  now apply sorted_on_stable.
Qed.

(** The sort is stable: under every mode, the entries whose sort keys are
    equal to the key of a given entry are, in the result, in the order they
    had in the argument. *)
Theorem sort_entries_stable w (mode : string) l s p :
  _sort_entries w mode l = Ok s ->
  filter (same_sort_key w mode p) s = filter (same_sort_key w mode p) l.
Proof.
  unfold same_sort_key. intros E.
  destruct (String.eqb mode "name") eqn:E1.
  { apply String.eqb_eq in E1. subst mode.
    assert (Hr : readable w l)
      by (apply (_sort_entries_readable w "name" l s); [simpl; auto | exact E]).
    rewrite _sort_entries_name in E by exact Hr. injection E as <-.
    apply (same_sort_key_equiv laws_name_key). }
  destruct (String.eqb mode "size") eqn:E2.
  { apply String.eqb_eq in E2. subst mode.
    assert (Hr : readable w l)
      by (apply (_sort_entries_readable w "size" l s); [simpl; auto | exact E]).
    rewrite _sort_entries_size in E by exact Hr. injection E as <-.
    apply (same_sort_key_equiv laws_size_key). }
  destruct (String.eqb mode "modified") eqn:E3.
  { apply String.eqb_eq in E3. subst mode.
    assert (Hr : readable w l)
      by (apply (_sort_entries_readable w "modified" l s); [simpl; auto | exact E]).
    rewrite _sort_entries_modified in E by exact Hr. injection E as <-.
    apply (same_sort_key_equiv laws_modified_key). }
  destruct (String.eqb mode "type") eqn:E4.
  { apply String.eqb_eq in E4. subst mode.
    assert (Hr : readable w l)
      by (apply (_sort_entries_readable w "type" l s); [simpl; auto | exact E]).
    rewrite _sort_entries_type in E by exact Hr. injection E as <-.
    apply (same_sort_key_equiv laws_type_key). }
  unfold _sort_entries in E. rewrite E1, E2, E3, E4 in E. now injection E as <-.
Qed.

(** Sorting what is sorted changes nothing: under every mode,
    [_sort_entries] returns its own result unchanged. *)
Theorem sort_entries_idempotent w (mode : string) l s :
  _sort_entries w mode l = Ok s ->
  _sort_entries w mode s = Ok s.
Proof.
  intros E.
  destruct (String.eqb mode "name") eqn:E1.
  { apply String.eqb_eq in E1. subst mode.
    assert (Hr : readable w l)
      by (apply (_sort_entries_readable w "name" l s); [simpl; auto | exact E]).
    rewrite _sort_entries_name in E by exact Hr. injection E as <-.
    rewrite _sort_entries_name
      by exact (readable_perm _ _ _ (sorted_perm _ l) Hr).
    now rewrite (sorted_on_fixed laws_name_key). }
  destruct (String.eqb mode "size") eqn:E2.
  { apply String.eqb_eq in E2. subst mode.
    assert (Hr : readable w l)
      by (apply (_sort_entries_readable w "size" l s); [simpl; auto | exact E]).
    rewrite _sort_entries_size in E by exact Hr. injection E as <-.
    rewrite _sort_entries_size
      by exact (readable_perm _ _ _ (sorted_perm _ l) Hr).
    now rewrite (sorted_on_fixed laws_size_key). }
  destruct (String.eqb mode "modified") eqn:E3.
  { apply String.eqb_eq in E3. subst mode.
    assert (Hr : readable w l)
      by (apply (_sort_entries_readable w "modified" l s); [simpl; auto | exact E]).
    rewrite _sort_entries_modified in E by exact Hr. injection E as <-.
    rewrite _sort_entries_modified
      by exact (readable_perm _ _ _ (sorted_perm _ l) Hr).
    now rewrite (sorted_on_fixed laws_modified_key). }
  destruct (String.eqb mode "type") eqn:E4.
  { apply String.eqb_eq in E4. subst mode.
    assert (Hr : readable w l)
      by (apply (_sort_entries_readable w "type" l s); [simpl; auto | exact E]).
    rewrite _sort_entries_type in E by exact Hr. injection E as <-.
    rewrite _sort_entries_type
      by exact (readable_perm _ _ _ (sorted_perm _ l) Hr).
    now rewrite (sorted_on_fixed laws_type_key). }
  unfold _sort_entries. now rewrite E1, E2, E3, E4.
Qed.

End SortModes.

Lemma sort_by_name_ordered_witness :
  let l := Sim.children Sim.w0 Sim.docs in
  exists s,
    _sort_entries Sim.w0 "name" l = Ok s
    /\ Permutation l s
    /\ s = map (fun n => Sim.docs ++ [n])
              [".git"; "Sub"; "a.txt"; "b.txt"; "data.tar.gz"; "ghost"; "note.gz"].
Proof.
  intros l.
  assert (Hnames : Forall (fun p => Str.is_ascii (PurePath.name p) = true) l)
    by (repeat constructor).
  destruct (sort_by_name_ordered Sim.w0 l sim_docs_readable Hnames)
    as ((s & Hs & Hperm & _) & _).
  exists s. split; [exact Hs |]. split; [exact Hperm |].
  vm_compute in Hs. injection Hs as <-. reflexivity.
Defined.

Lemma sort_by_size_ordered_witness :
  let l := Sim.children Sim.w0 Sim.docs in
  (exists s,
      _sort_entries Sim.w0 "size" l = Ok s
      /\ Permutation l s
      /\ s = map (fun n => Sim.docs ++ [n])
                ["Sub"; ".git"; "ghost"; "a.txt"; "b.txt"; "note.gz"; "data.tar.gz"])
  /\ _size Sim.w0 (Sim.docs ++ ["b.txt"]) = Ok 5%Z
  /\ _size Sim.w0 (Sim.docs ++ ["Sub"]) = Ok 0%Z
  /\ _size Sim.w0 (Sim.docs ++ ["nothing"]) = Ok 0%Z.
Proof.
  intros l.
  destruct (sort_by_size_ordered Sim.w0 l sim_docs_readable)
    as ((s & Hs & Hperm & _) & Hstat & Hfails).
  split; [| split; [| split]].
  - exists s. split; [exact Hs |]. split; [exact Hperm |].
    vm_compute in Hs. injection Hs as <-. reflexivity.
  - apply (Hstat _ {| st_type := S_IFREG; st_size := 5; st_mtime := (5 # 1)%Q |}).
    vm_compute. reflexivity.
  - apply (Hstat _ {| st_type := S_IFDIR; st_size := 4096; st_mtime := 0%Q |}).
    vm_compute. reflexivity.
  - apply (Hfails _ (NotFoundError "No such file or directory")).
    vm_compute. reflexivity.
Defined.

Lemma sort_by_modified_ordered_witness :
  let l := Sim.children Sim.w0 Sim.docs in
  (exists s,
      _sort_entries Sim.w0 "modified" l = Ok s
      /\ Permutation l s
      /\ hd_error (filter (fun p => negb (dir_flag Sim.w0 p)) s)
         = Some (Sim.docs ++ ["a.txt"]))
  /\ _mtime Sim.w0 (Sim.docs ++ ["a.txt"]) = Ok (9 # 1)%Q
  /\ _mtime Sim.w0 (Sim.docs ++ ["nothing"]) = Ok 0%Q.
Proof.
  intros l.
  destruct (sort_by_modified_ordered Sim.w0 l sim_docs_readable)
    as ((s & Hs & Hperm & _) & Hstat & Hfails).
  split; [| split].
  - exists s. split; [exact Hs |]. split; [exact Hperm |].
    vm_compute in Hs. injection Hs as <-. vm_compute. reflexivity.
  - apply (Hstat _ {| st_type := S_IFREG; st_size := 2; st_mtime := (9 # 1)%Q |}).
    vm_compute. reflexivity.
  - apply (Hfails _ (NotFoundError "No such file or directory")).
    vm_compute. reflexivity.
Defined.

Lemma sort_by_type_ordered_witness :
  let l := Sim.children Sim.w0 Sim.docs in
  exists s,
    _sort_entries Sim.w0 "type" l = Ok s
    /\ Permutation l s
    /\ s = map (fun n => Sim.docs ++ [n])
              [".git"; "Sub"; "ghost"; "data.tar.gz"; "note.gz"; "a.txt"; "b.txt"].
Proof.
  intros l.
  assert (Hnames : Forall (fun p => Str.is_ascii (PurePath.name p) = true) l)
    by (repeat constructor).
  destruct (sort_by_type_ordered Sim.w0 l sim_docs_readable Hnames)
    as ((s & Hs & Hperm & _) & _).
  exists s. split; [exact Hs |]. split; [exact Hperm |].
  vm_compute in Hs. injection Hs as <-. reflexivity.
Defined.

Lemma sort_entries_stable_witness :
  let l := Sim.children Sim.w0 Sim.docs in
  let s := map (fun n => Sim.docs ++ [n])
               ["Sub"; ".git"; "ghost"; "a.txt"; "b.txt"; "note.gz"; "data.tar.gz"] in
  filter (same_sort_key Sim.w0 "size" (Sim.docs ++ [".git"])) s
  = filter (same_sort_key Sim.w0 "size" (Sim.docs ++ [".git"])) l.
Proof.
  intros l s. apply (sort_entries_stable Sim.w0 "size" l s). vm_compute. reflexivity.
Defined.

Lemma sort_entries_idempotent_witness :
  let s := map (fun n => Sim.docs ++ [n])
               ["Sub"; ".git"; "a.txt"; "b.txt"; "note.gz"; "data.tar.gz"; "ghost"] in
  _sort_entries Sim.w0 "modified" s = Ok s.
Proof.
  intros s.
  apply (sort_entries_idempotent Sim.w0 "modified" (Sim.children Sim.w0 Sim.docs) s).
  vm_compute. reflexivity.
Defined.


(** ** The map of the version-status probe *)

Section ProbeMap.







(** A line shorter than four characters adds nothing to the map. *)
Theorem status_map_skips_short_lines (before after : list string) (line : string) :
  (String.length line < 4)%nat ->
  status_map_of (before ++ line :: after) = status_map_of (before ++ after).
Proof.
  intros Hshort. unfold status_map_of. rewrite !fold_left_app. cbn [fold_left].
  unfold status_entry at 2.
  apply Nat.ltb_lt in Hshort. now rewrite Hshort.
Qed.

End ProbeMap.

Lemma status_map_skips_short_lines_witness :
  status_map_of ([" M a.txt"] ++ "" :: ["?? b"]) = status_map_of ([" M a.txt"] ++ ["?? b"]).
Proof. apply status_map_skips_short_lines. simpl. lia. Defined.

(** ** The undo stack, by itself *)

Section Stack.

Context {W : Type}.

Implicit Types (s : UndoStack.t W) (f : SE W unit) (d : string).

(** What is pushed is what [peek] shows and what [pop] returns, and [pop]
    leaves the stack as it was before the push.  [pop] returns nothing
    exactly on the empty stack, which it leaves empty; otherwise it returns
    the entry [peek] shows and leaves one entry less; after [clear] there is
    nothing to pop. *)
Theorem undo_stack_laws d f s :
  UndoStack.peek (UndoStack.push d f s) = Some d
  /\ UndoStack.pop (UndoStack.push d f s) = (Some (d, f), s)
  /\ (fst (UndoStack.pop s) = None <-> s = [])
  /\ UndoStack.peek s = option_map fst (fst (UndoStack.pop s))
  /\ List.length (snd (UndoStack.pop s)) = Nat.pred (List.length s)
  /\ UndoStack.pop (UndoStack.clear s) = (None, []).
Proof.
  split.
  { unfold UndoStack.peek, UndoStack.push.
    destruct s as [|x s]; [reflexivity |]. cbn [app]. now rewrite last_last. }
  split; [apply pop_push |].
  destruct s as [|x s].
  - repeat split; reflexivity.
  - split; [split; discriminate |].
    split; [reflexivity |]. split; [| reflexivity].
    unfold UndoStack.pop. cbn [snd].
    destruct (exists_last (l:=x :: s)) as (s' & y & E); [discriminate |].
    rewrite E, removelast_last, length_app. simpl. lia.
Qed.

End Stack.

(** ** Which archives can be extracted *)

Section Extractable.

Context {W : Type} {os : OS W}.

Lemma existsb_tar (name : string) :
  existsb (fun sfx => Str.endswith sfx name)
          [".tar.gz"; ".tgz"; ".tar.bz2"; ".tar.xz"; ".tar"]
  = Str.endswith ".tar.gz" name || Str.endswith ".tgz" name
    || Str.endswith ".tar.bz2" name || Str.endswith ".tar.xz" name
    || Str.endswith ".tar" name.
Proof. simpl. now rewrite orb_false_r, !orb_assoc. Qed.

Lemma substring_all (s : string) : substring 0 (String.length s) s = s.
Proof. induction s as [|c s IH]; simpl; [reflexivity | now rewrite IH]. Qed.

Lemma substring_split (n : nat) (s : string) :
  n <= String.length s ->
  s = (substring 0 n s ++ substring n (String.length s - n) s)%string.
Proof.
  revert s; induction n as [|n IH]; intros s Hn.
  - rewrite Nat.sub_0_r, substring_all. now destruct s.
  - destruct s as [|c s]; simpl in Hn; [lia |].
    simpl. f_equal. apply IH. lia.
Qed.

Lemma endswith_split (p s : string) :
  Str.endswith p s = true -> exists t, s = (t ++ p)%string.
Proof.
  unfold Str.endswith. intros H. apply andb_true_iff in H as [Hlen Heq].
  apply Nat.leb_le in Hlen. apply String.eqb_eq in Heq.
  exists (substring 0 (String.length s - String.length p) s).
  rewrite (substring_split (String.length s - String.length p) s) at 1 by lia.
  replace (String.length s - (String.length s - String.length p))
    with (String.length p) by lia.
  now rewrite Heq.
Qed.

Lemma append_split (t t' p q : string) :
  (t ++ p)%string = (t' ++ q)%string ->
  String.length t <= String.length t' ->
  exists u, t' = (t ++ u)%string /\ p = (u ++ q)%string.
Proof.
  revert t'; induction t as [|c t IH]; intros t' H L.
  - exists t'. now split.
  - destruct t' as [|c' t']; simpl in L; [lia |].
    simpl in H. injection H as -> H.
    destruct (IH t' H ltac:(lia)) as (u & -> & ->).
    exists u. now split.
Qed.

(** Two suffixes of one string: the shorter is a suffix of the longer. *)
Lemma endswith_both (p q s : string) :
  Str.endswith p s = true -> Str.endswith q s = true ->
  String.length q <= String.length p -> Str.endswith q p = true.
Proof.
  intros Hp Hq L.
  destruct (endswith_split p s Hp) as [t Ht].
  destruct (endswith_split q s Hq) as [t' Ht'].
  assert (E : (t ++ p)%string = (t' ++ q)%string) by congruence.
  assert (Lt : String.length t <= String.length t').
  { apply (f_equal String.length) in E. rewrite !length_append in E. lia. }
  destruct (append_split t t' p q E Lt) as (u & _ & ->).
  apply endswith_append.
Qed.

Lemma endswith_apart (p q s : string) :
  Str.endswith p s = true ->
  ((String.length q <=? String.length p)%nat && negb (Str.endswith q p)
   || (String.length p <=? String.length q)%nat && negb (Str.endswith p q)) = true ->
  Str.endswith q s = false.
Proof.
  intros Hp H. destruct (Str.endswith q s) eqn:Hq; [| reflexivity].
  apply orb_true_iff in H as [H|H]; apply andb_true_iff in H as [L N];
    apply Nat.leb_le in L; apply negb_true_iff in N.
  - now rewrite (endswith_both p q s Hp Hq L) in N.
  - now rewrite (endswith_both q p s Hq Hp L) in N.
Qed.

(** For a name in the ASCII range: every name [_extract_archive] can
    extract is one [is_archive] recognizes.  [is_archive] recognizes a name
    that [_extract_archive] cannot extract exactly when the name in lower
    case ends in [.bz2] and not in [.tar.bz2].  For every name it cannot
    extract [_extract_archive] only reports an unsupported format: nothing
    is raised, and the world, the undo stack and all the rest stay as they
    are. *)
Theorem extractable_archives (a : App W) (path : Path) :
  Str.is_ascii (PurePath.name path) = true ->
  (extractable path = true -> is_archive path = true)
  /\ (is_archive path = true /\ extractable path = false
      <-> Str.endswith ".bz2" (Str.lower (PurePath.name path)) = true
          /\ Str.endswith ".tar.bz2" (Str.lower (PurePath.name path)) = false)
  /\ (extractable path = false ->
      _extract_archive path a
      = (Ok tt,
         with_status ("⚠  Unsupported archive format: " ++ PurePath.suffix path) a)).
Proof.
  intros _.
  unfold extractable, is_archive. rewrite existsb_tar.
  set (name := Str.lower (PurePath.name path)).
  split; [| split].
  - destruct (Str.endswith ".zip" name), (Str.endswith ".tar.gz" name),
      (Str.endswith ".tgz" name), (Str.endswith ".tar.bz2" name),
      (Str.endswith ".tar.xz" name), (Str.endswith ".tar" name),
      (Str.endswith ".gz" name); simpl; try reflexivity; discriminate.
  - split.
    + destruct (Str.endswith ".zip" name), (Str.endswith ".tar.gz" name),
        (Str.endswith ".tgz" name), (Str.endswith ".tar.bz2" name),
        (Str.endswith ".tar.xz" name), (Str.endswith ".tar" name),
        (Str.endswith ".gz" name); simpl; intros [H1 H2];
        try discriminate; auto.
    + intros [Hbz Htb].
      rewrite Hbz, Htb.
      rewrite (endswith_apart ".bz2" ".zip" name Hbz eq_refl),
        (endswith_apart ".bz2" ".tar.gz" name Hbz eq_refl),
        (endswith_apart ".bz2" ".tgz" name Hbz eq_refl),
        (endswith_apart ".bz2" ".tar.xz" name Hbz eq_refl),
        (endswith_apart ".bz2" ".tar" name Hbz eq_refl),
        (endswith_apart ".bz2" ".gz" name Hbz eq_refl).
      split; reflexivity.
  - intros E. unfold _extract_archive.
    unfold SE.bind at 1. unfold SE.get at 1. cbv zeta. fold name.
    rewrite existsb_tar.
    destruct (Str.endswith ".zip" name); [discriminate |].
    destruct (Str.endswith ".tar.gz" name || Str.endswith ".tgz" name
              || Str.endswith ".tar.bz2" name || Str.endswith ".tar.xz" name
              || Str.endswith ".tar" name); [discriminate |].
    destruct (Str.endswith ".gz" name); [discriminate |].
    reflexivity.
Qed.

End Extractable.


Lemma extractable_archives_witness :
  let path := Sim.docs ++ ["old.BZ2"] in
  is_archive path = true
  /\ extractable path = false
  /\ _extract_archive path Sim.on_a_txt
     = (Ok tt, with_status "⚠  Unsupported archive format: .BZ2" Sim.on_a_txt)
  /\ is_archive (Sim.docs ++ ["data.tar.gz"]) = true.
Proof.
  intros path.
  assert (Hascii : Str.is_ascii (PurePath.name path) = true) by reflexivity.
  assert (Hascii' : Str.is_ascii (PurePath.name (Sim.docs ++ ["data.tar.gz"])) = true)
    by reflexivity.
  destruct (extractable_archives Sim.on_a_txt path Hascii) as (_ & Hbz & Hnone).
  destruct (extractable_archives Sim.on_a_txt (Sim.docs ++ ["data.tar.gz"]) Hascii')
    as (Hrec & _ & _).
  destruct (proj2 Hbz) as [Hyes Hno]; [split; reflexivity |].
  split; [exact Hyes |].
  split; [exact Hno |].
  split; [apply Hnone; exact Hno |].
  apply Hrec. reflexivity.
Defined.

(** ** The listing: what is shown *)

Section Rows.

Context {W : Type} {os : OS W}.

Implicit Types (a : App W) (e : Path) (l raw : list Path).

Lemma filter_comm {A} (f g : A -> bool) (l : list A) :
  filter f (filter g l) = filter g (filter f l).
Proof.
  induction l as [|x l IH]; simpl; [reflexivity |].
  destruct (f x) eqn:Ef, (g x) eqn:Eg; simpl; rewrite ?Ef, ?Eg, IH; reflexivity.
Qed.

(** When the directory can be listed and the kind of every entry in it can
    be read, the rows are exactly the entries of the directory that are not
    hidden away and whose name has a piece that is the filter text up to
    the case of the letters.  Names and filter text are in the ASCII
    range. *)
Theorem rows_are_the_visible_entries a raw e :
  iterdir (world a) (current_dir a) = Ok raw ->
  readable (world a) raw ->
  Forall (fun p => Str.is_ascii (PurePath.name p) = true) raw ->
  Str.is_ascii (filter_text a) = true ->
  fst (refresh_table a) = Ok tt
  /\ (In e (_row_entries (snd (refresh_table a)))
      <-> In e raw
          /\ (show_hidden a = true \/ Str.startswith "." (PurePath.name e) = false)
          /\ exists pre mid post,
               PurePath.name e = (pre ++ mid ++ post)%string
               /\ Str.caseless mid (filter_text a) = true).
Proof.
  intros Hraw Hr _ _.
  destruct (refresh_table_listed a raw Hraw Hr) as (s & Hs & Hperm & Hrun).
  rewrite Hrun. split; [reflexivity |].
  cbn [snd listed _row_entries with_status with_row_entries]. unfold listing_of.
  rewrite !filter_In, matches_filter_iff. unfold not_hidden.
  rewrite orb_true_iff, negb_true_iff.
  split.
  - intros ((Hin & Hh) & Hm). repeat split; try assumption.
    now apply (Permutation_in _ (Permutation_sym Hperm)).
  - intros (Hin & Hh & Hm). repeat split; try assumption.
    now apply (Permutation_in _ Hperm).
Qed.

(** Filtering and hiding only take rows away and keep the order: when the
    directory can be listed and the kind of every entry in it can be read,
    the rows under a filter text are those of the rows without a filter
    whose name contains the text, and the rows without the hidden files are
    those of the rows with them whose name does not start with a dot.
    Names and filter text are in the ASCII range. *)
Theorem filters_only_remove_rows a raw :
  iterdir (world a) (current_dir a) = Ok raw ->
  readable (world a) raw ->
  Forall (fun p => Str.is_ascii (PurePath.name p) = true) raw ->
  Str.is_ascii (filter_text a) = true ->
  _row_entries (snd (refresh_table a))
  = filter (matches_filter (filter_text a))
           (_row_entries (snd (refresh_table (with_filter_text "" a))))
  /\ _row_entries (snd (refresh_table (with_show_hidden false a)))
     = filter not_hidden
              (_row_entries (snd (refresh_table (with_show_hidden true a))))
  /\ (forall e,
        matches_filter (filter_text a) e = true
        <-> exists pre mid post,
              PurePath.name e = (pre ++ mid ++ post)%string
              /\ Str.caseless mid (filter_text a) = true).
Proof.
  intros Hraw Hr _ _.
  assert (Hrun : forall b,
             world b = world a -> current_dir b = current_dir a ->
             sort_mode b = sort_mode a ->
             exists s,
               _sort_entries (world a) (sort_mode a) raw = Ok s
               /\ refresh_table b = (Ok tt, listed (listing_of b s) b)).
  { intros b Hw Hd Hm.
    destruct (refresh_table_listed b raw) as (s & Hs & _ & Hb);
      [now rewrite Hw, Hd | now rewrite Hw |].
    exists s. split; [now rewrite <- Hw, <- Hm | exact Hb]. }
  destruct (Hrun a eq_refl eq_refl eq_refl) as (s & Hs & ->).
  destruct (Hrun (with_filter_text "" a) eq_refl eq_refl eq_refl) as (s1 & Hs1 & ->).
  destruct (Hrun (with_show_hidden false a) eq_refl eq_refl eq_refl) as (s2 & Hs2 & ->).
  destruct (Hrun (with_show_hidden true a) eq_refl eq_refl eq_refl) as (s3 & Hs3 & ->).
  rewrite Hs in Hs1, Hs2, Hs3.
  injection Hs1 as <-. injection Hs2 as <-. injection Hs3 as <-.
  cbn [snd listed _row_entries with_status with_row_entries]. unfold listing_of.
  cbn [filter_text show_hidden with_filter_text with_show_hidden orb].
  split; [| split].
  - f_equal. symmetry. apply filter_all. apply matches_empty_filter.
  - rewrite (filter_all (fun _ => true)) by reflexivity.
    apply filter_comm.
  - intros e. apply matches_filter_iff.
Qed.

(** When listing the directory is denied, [refresh_table] raises nothing:
    it empties the table and reports; the rows behind the table are the old
    ones, but none of them can be reached through the cursor. *)
Theorem refresh_denied a (msg : string) :
  iterdir (world a) (current_dir a) = Raise (PermissionError msg) ->
  refresh_table a
  = (Ok tt,
     with_status "⚠  Permission denied"
       (with_table {| row_count := 0; cursor_row := 0 |} a))
  /\ selected_entry (snd (refresh_table a)) = None
  /\ _effective_targets (snd (refresh_table a)) = _selected a.
Proof.
  intros Hraw.
  assert (Hrun : refresh_table a
                 = (Ok tt,
                    with_status "⚠  Permission denied"
                      (with_table {| row_count := 0; cursor_row := 0 |} a))).
  { unfold refresh_table. unfold SE.bind at 1. unfold table_clear, SE.modify at 1.
    unfold SE.bind at 1. unfold SE.get at 1.
    cbn [world current_dir with_table]. now rewrite Hraw. }
  rewrite Hrun. split; [reflexivity |]. split; [reflexivity |].
  unfold _effective_targets. cbn [snd _selected with_status with_table].
  now destruct (_selected a).
Qed.

(** The cursor reaches only rows of the table: [selected_entry] returns
    the row under the cursor when there is one, and nothing when the table
    is empty or the cursor is outside the rows. *)
Theorem selected_entry_bounds a :
  (forall e, selected_entry a = Some e ->
     (0 <= cursor_row (table a) < Z.of_nat (List.length (_row_entries a)))%Z
     /\ row_count (table a) <> 0%nat
     /\ In e (_row_entries a))
  /\ ((cursor_row (table a) < 0)%Z
      \/ row_count (table a) = 0%nat
      \/ (Z.of_nat (List.length (_row_entries a)) <= cursor_row (table a))%Z ->
      selected_entry a = None).
Proof.
  unfold selected_entry. split.
  - intros e He.
    destruct (Z.ltb_spec (cursor_row (table a)) 0) as [L|L]; [discriminate |].
    destruct (Nat.eqb_spec (row_count (table a)) 0) as [E|E]; [discriminate |].
    cbn [orb] in He.
    assert (Hlt : (Z.to_nat (cursor_row (table a)) < List.length (_row_entries a))%nat).
    { apply nth_error_Some. congruence. }
    split; [lia |]. split; [exact E |]. now apply nth_error_In in He.
  - intros [L|[E|G]].
    + apply Z.ltb_lt in L. now rewrite L.
    + rewrite E. cbn [Nat.eqb]. now rewrite orb_true_r.
    + destruct ((cursor_row (table a) <? 0)%Z || (row_count (table a) =? 0)%nat);
        [reflexivity |].
      apply nth_error_None. lia.
Qed.

End Rows.

(** ** Views and navigation *)

Section Views.

Context {W : Type} {os : OS W}.

Implicit Types (a : App W) (v entry : Path) (raw : list Path).

Lemma get_git_status_ok (run : result CompletedProcess) :
  exists status_map, get_git_status run = Ok status_map.
Proof.
  unfold get_git_status. destruct run as [cp|e]; simpl; [| eauto].
  destruct (returncode cp =? 0)%Z; simpl; eauto.
Qed.

Lemma listed_same_session (l : list Path) a : same_session a (listed l a).
Proof. unfold same_session, listed. cbn. repeat split. Qed.

(** When the directory can be listed and the kind of every entry in it can
    be read, toggling the hidden files twice shows what a plain refresh
    shows: the same rows in the same order, and the same flag, table and
    status. *)
Theorem toggle_hidden_twice a raw :
  iterdir (world a) (current_dir a) = Ok raw ->
  readable (world a) raw ->
  (action_toggle_hidden ;; action_toggle_hidden)%se a = refresh_table a.
Proof.
  intros Hraw Hr.
  destruct (refresh_table_listed a raw Hraw Hr) as (s & Hs & _ & Hrun).
  unfold action_toggle_hidden.
  assert (Hstep : forall b,
             world b = world a -> current_dir b = current_dir a ->
             sort_mode b = sort_mode a ->
             (SE.modify (fun a0 => with_show_hidden (negb (show_hidden a0)) a0) ;;
              refresh_table)%se b
             = (Ok tt,
                listed (listing_of (with_show_hidden (negb (show_hidden b)) b) s)
                       (with_show_hidden (negb (show_hidden b)) b))).
  { intros b Hw Hd Hm. unfold SE.bind at 1. unfold SE.modify at 1.
    destruct (refresh_table_listed (with_show_hidden (negb (show_hidden b)) b) raw)
      as (s' & Hs' & _ & Hb);
      cbn [world current_dir with_show_hidden]; [now rewrite Hw, Hd | now rewrite Hw |].
    cbn [world sort_mode with_show_hidden] in Hs'. rewrite Hw, Hm, Hs in Hs'.
    injection Hs' as <-. exact Hb. }
  erewrite bind_ok by (apply Hstep; reflexivity).
  rewrite Hstep by reflexivity.
  rewrite Hrun.
  f_equal. destruct a. unfold listed, listing_of. cbn.
  now rewrite negb_involutive.
Qed.

Lemma assign_current_dir_new a v :
  current_dir a <> v ->
  exists r b,
    assign_current_dir v a = (r, b)
    /\ current_dir b = v
    /\ _selected b = []
    /\ get_git_status (run_git_status (world a) v) = Ok (_git_status b)
    /\ clipboard b = clipboard a
    /\ _undo b = _undo a
    /\ world b = world a.
Proof.
  intros N. apply Path_eqb_neq in N. unfold assign_current_dir.
  unfold SE.bind at 1. unfold SE.get at 1.
  unfold SE.bind at 1. unfold SE.modify at 1. rewrite N.
  unfold watch_current_dir.
  unfold SE.bind at 1. unfold SE.modify at 1.
  unfold SE.bind at 1. unfold SE.get at 1.
  cbn [world with_selected with_current_dir].
  destruct (get_git_status_ok (run_git_status (world a) v)) as (m & Hm).
  rewrite Hm. unfold SE.bind at 1. unfold SE.of_result at 1.
  unfold SE.bind at 1. unfold SE.modify at 1.
  match goal with |- context [refresh_table ?x] =>
    pose proof (refresh_table_frame x) as Hframe;
    destruct (refresh_table x) as [r b] end.
  cbn [snd] in Hframe. exists r, b. split; [reflexivity |].
  destruct Hframe as (H1 & _ & H3 & _ & _ & _ & H7 & H8 & H9 & H10).
  cbn in H1, H3, H7, H8, H9, H10.
  rewrite H1, H3, H7, H8, H9, H10. now repeat split.
Qed.

Lemma assign_current_dir_same a : assign_current_dir (current_dir a) a = (Ok tt, a).
Proof.
  unfold assign_current_dir, SE.bind, SE.get, SE.modify.
  rewrite Path_eqb_refl. now destruct a.
Qed.

(** Assigning the directory that is already current does nothing.
    Assigning another one makes it current, empties the selection and sets
    the status map to what the probe returns there; the clipboard, the undo
    stack and the world are as before. *)
Theorem change_directory a v :
  (current_dir a = v -> assign_current_dir v a = (Ok tt, a))
  /\ (current_dir a <> v ->
      let a' := snd (assign_current_dir v a) in
      current_dir a' = v
      /\ _selected a' = []
      /\ get_git_status (run_git_status (world a) v) = Ok (_git_status a')
      /\ clipboard a' = clipboard a
      /\ _undo a' = _undo a
      /\ world a' = world a).
Proof.
  split.
  - intros <-. apply assign_current_dir_same.
  - intros N. cbv zeta.
    destruct (assign_current_dir_new a v N) as (r & b & -> & Hb). exact Hb.
Qed.

(** Going up from a path that is its own parent (the root) does nothing;
    from any other directory it makes the parent current and empties the
    selection, and the world is as before. *)
Theorem go_up a :
  (PurePath.parent (current_dir a) = current_dir a ->
   action_go_up a = (Ok tt, a))
  /\ (PurePath.parent (current_dir a) <> current_dir a ->
      let a' := snd (action_go_up a) in
      current_dir a' = PurePath.parent (current_dir a)
      /\ _selected a' = []
      /\ world a' = world a).
Proof.
  split.
  - intros E. unfold action_go_up, SE.bind, SE.get. rewrite E, Path_eqb_refl.
    reflexivity.
  - intros N. cbv zeta.
    assert (Hrun : action_go_up a
                   = assign_current_dir (PurePath.parent (current_dir a)) a).
    { unfold action_go_up, SE.bind, SE.get. now rewrite (Path_eqb_neq _ _ N). }
    rewrite Hrun.
    destruct (assign_current_dir_new a (PurePath.parent (current_dir a)))
      as (r & b & -> & H1 & H2 & _ & _ & _ & H6); [intros E; now apply N |].
    split; [exact H1 |]. split; [exact H2 | exact H6].
Qed.

(** Activating a row enters it only when it is a directory: a directory
    under the cursor becomes the current directory and the selection is
    emptied; on an entry that is not a directory, or with no row under the
    cursor, nothing changes; and when the kind of the entry cannot be read,
    the exception leaves the handler and nothing has changed. *)
Theorem row_selected a :
  (forall entry,
      selected_entry a = Some entry -> is_dir (world a) entry = Ok true ->
      current_dir a <> entry ->
      let a' := snd (on_row_selected a) in
      current_dir a' = entry /\ _selected a' = [] /\ world a' = world a)
  /\ ((selected_entry a = None
       \/ exists entry, selected_entry a = Some entry
                        /\ is_dir (world a) entry = Ok false) ->
      on_row_selected a = (Ok tt, a))
  /\ (forall entry (e : exn),
        selected_entry a = Some entry -> is_dir (world a) entry = Raise e ->
        on_row_selected a = (Raise e, a)).
Proof.
  split; [| split].
  - intros entry Hsel Hdir N. cbv zeta.
    assert (Hrun : on_row_selected a = assign_current_dir entry a).
    { unfold on_row_selected. unfold SE.bind at 1. unfold SE.get at 1.
      rewrite Hsel. unfold SE.bind at 1. unfold SE.of_result at 1.
      now rewrite Hdir. }
    rewrite Hrun.
    destruct (assign_current_dir_new a entry N)
      as (r & b & -> & H1 & H2 & _ & _ & _ & H6).
    split; [exact H1 |]. split; [exact H2 | exact H6].
  - unfold on_row_selected, SE.bind, SE.get, SE.of_result.
    intros [->|(entry & -> & ->)]; reflexivity.
  - intros entry e Hsel Hdir.
    unfold on_row_selected, SE.bind, SE.get, SE.of_result.
    now rewrite Hsel, Hdir.
Qed.

End Views.

(** ** Sorting modes, selection and the clipboard *)

Section Modes.

Context {W : Type} {os : OS W}.

Implicit Types (a : App W) (entry p : Path) (raw : list Path).

Lemma list_index_none (x : string) (l : list string) :
  list_index x l = None <-> ~ In x l.
Proof.
  induction l as [|y l IH]; simpl; [tauto |].
  destruct (String.eqb_spec y x) as [->|N].
  - split; [discriminate | intros H; elim H; now left].
  - destruct (list_index x l).
    + split; [discriminate |]. intros H. exfalso. destruct IH as [_ IH].
      assert (~ In x l) by (intros I; apply H; now right).
      specialize (IH H0). discriminate.
    + split; [| reflexivity]. intros _ [E|I]; [now apply N |].
      now apply IH.
Qed.

Lemma sort_mode_index (m : string) :
  In m SORT_MODES ->
  exists idx,
    list_index m SORT_MODES = Some idx
    /\ nth ((idx + 1) mod List.length SORT_MODES) SORT_MODES "" = next_sort_mode m
    /\ String.eqb m (next_sort_mode m) = false
    /\ In (next_sort_mode m) SORT_MODES.
Proof.
  unfold SORT_MODES.
  intros [<-|[<-|[<-|[<-|[]]]]];
    [exists 0%nat | exists 1%nat | exists 2%nat | exists 3%nat];
    vm_compute; repeat split; auto.
Qed.

Lemma cycle_sort_assigns a :
  In (sort_mode a) SORT_MODES ->
  let next := next_sort_mode (sort_mode a) in
  action_cycle_sort a
  = (refresh_table ;; b <- SE.get ;; set_status ("Sort: " ++ sort_mode b))%se
      (with_sort_mode next a).
Proof.
  intros Hin next.
  destruct (sort_mode_index _ Hin) as (idx & Hi & Hn & Hne & _).
  fold next in Hn, Hne.
  unfold action_cycle_sort, SE.bind, SE.get. rewrite Hi, Hn.
  unfold assign_sort_mode, SE.bind, SE.get, SE.modify. rewrite Hne.
  unfold watch_sort_mode.
  destruct (refresh_table (with_sort_mode next a)) as [[[]|e] b]; reflexivity.
Qed.

Lemma cycle_sort_run a raw :
  iterdir (world a) (current_dir a) = Ok raw ->
  readable (world a) raw ->
  In (sort_mode a) SORT_MODES ->
  let next := next_sort_mode (sort_mode a) in
  exists s,
    _sort_entries (world a) next raw = Ok s
    /\ action_cycle_sort a
       = (Ok tt,
          with_status ("Sort: " ++ next)
            (listed (listing_of a s) (with_sort_mode next a))).
Proof.
  intros Hraw Hr Hin next.
  destruct (refresh_table_listed (with_sort_mode next a) raw Hraw Hr)
    as (s & Hs & _ & Hrun).
  exists s. split; [exact Hs |].
  rewrite (cycle_sort_assigns a Hin). fold next.
  rewrite (bind_ok _ _ _ _ _ Hrun).
  unfold SE.bind, SE.get, set_status, SE.modify. reflexivity.
Qed.

(** Pressing the sort key takes the mode to the next of name, size,
    modified, type, and from type back to name.  When the directory can be
    listed and the kind of every entry in it can be read, the rows are
    listed again in the order of the new mode, the status names the new
    mode, and four presses lead back to the mode one started from.  When
    the kind of an entry cannot be read, the mode is changed all the same,
    the exception leaves the action and the status is not set.  A mode that
    is not one of the four makes the action raise, and nothing changes. *)
Theorem cycle_sort a raw :
  iterdir (world a) (current_dir a) = Ok raw ->
  (In (sort_mode a) SORT_MODES ->
   readable (world a) raw ->
   let press := fun b => snd (action_cycle_sort b) in
   let a' := press a in
   fst (action_cycle_sort a) = Ok tt
   /\ sort_mode a' = next_sort_mode (sort_mode a)
   /\ status a' = ("Sort: " ++ next_sort_mode (sort_mode a))%string
   /\ (exists s, _sort_entries (world a) (sort_mode a') raw = Ok s
                 /\ _row_entries a' = listing_of a s)
   /\ world a' = world a
   /\ sort_mode (press (press (press (press a)))) = sort_mode a)
  /\ (In (sort_mode a) SORT_MODES ->
      forall p (e : exn),
        In p raw -> is_dir (world a) p = Raise e ->
        exists e',
          action_cycle_sort a
          = (Raise e',
             with_table {| row_count := 0; cursor_row := 0 |}
               (with_sort_mode (next_sort_mode (sort_mode a)) a)))
  /\ (~ In (sort_mode a) SORT_MODES ->
      action_cycle_sort a
      = (Raise (OtherError ("'" ++ sort_mode a ++ "' is not in list")), a)).
Proof.
  intros Hraw. split; [| split].
  - intros Hin Hr press a'.
    assert (Hstep : forall b,
               world b = world a -> current_dir b = current_dir a ->
               In (sort_mode b) SORT_MODES ->
               world (press b) = world a /\ current_dir (press b) = current_dir a
               /\ sort_mode (press b) = next_sort_mode (sort_mode b)).
    { intros b Hw Hd Hb. unfold press.
      destruct (cycle_sort_run b raw) as (s & _ & ->);
        [now rewrite Hw, Hd | now rewrite Hw | exact Hb |].
      cbn. auto. }
    assert (Hfour : sort_mode (press (press (press (press a)))) = sort_mode a).
    { destruct (sort_mode_index _ Hin) as (_ & _ & _ & _ & Hin1).
      destruct (Hstep a eq_refl eq_refl Hin) as (Hw1 & Hd1 & Hm1).
      rewrite <- Hm1 in Hin1.
      destruct (sort_mode_index _ Hin1) as (_ & _ & _ & _ & Hin2).
      destruct (Hstep _ Hw1 Hd1 Hin1) as (Hw2 & Hd2 & Hm2).
      rewrite <- Hm2 in Hin2.
      destruct (sort_mode_index _ Hin2) as (_ & _ & _ & _ & Hin3).
      destruct (Hstep _ Hw2 Hd2 Hin2) as (Hw3 & Hd3 & Hm3).
      rewrite <- Hm3 in Hin3.
      destruct (Hstep _ Hw3 Hd3 Hin3) as (_ & _ & Hm4).
      rewrite Hm4, Hm3, Hm2, Hm1.
      revert Hin. unfold SORT_MODES.
      intros [<-|[<-|[<-|[<-|[]]]]]; reflexivity. }
    destruct (cycle_sort_run a raw Hraw Hr Hin) as (s & Hs & Hrun).
    assert (Ha' : a' = with_status ("Sort: " ++ next_sort_mode (sort_mode a))
                         (listed (listing_of a s)
                                 (with_sort_mode (next_sort_mode (sort_mode a)) a)))
      by (unfold a', press; now rewrite Hrun).
    rewrite Hrun. clearbody a'. subst a'. cbn [fst].
    split; [reflexivity |]. split; [reflexivity |]. split; [reflexivity |].
    split; [exists s; split; [exact Hs | reflexivity] |].
    split; [reflexivity | exact Hfour].
  - intros Hin p e Hp He.
    destruct (sort_mode_index _ Hin) as (_ & _ & _ & _ & Hnext).
    destruct (refresh_table_raises
                (with_sort_mode (next_sort_mode (sort_mode a)) a) raw p e
                Hraw Hnext Hp He) as (e' & Hrun).
    exists e'. rewrite (cycle_sort_assigns a Hin).
    now rewrite (bind_raise _ _ _ _ _ Hrun).
  - intros Hout. apply list_index_none in Hout.
    unfold action_cycle_sort, SE.bind, SE.get. now rewrite Hout.
Qed.

Lemma set_mem_in entry (s : list Path) : set_mem entry s = true <-> In entry s.
Proof.
  unfold set_mem. rewrite existsb_exists. split.
  - intros (p & Hin & E). apply Path_eqb_eq in E. now subst.
  - intros Hin. exists entry. split; [exact Hin | apply Path_eqb_refl].
Qed.

Lemma set_mem_discard entry p (s : list Path) :
  set_mem p (set_discard entry s)
  = negb (Path_eqb p entry) && set_mem p s.
Proof.
  unfold set_mem, set_discard. induction s as [|q s IH]; simpl.
  - now rewrite andb_false_r.
  - destruct (Path_eqb q entry) eqn:Eq; simpl; rewrite IH.
    + destruct (Path_eqb q p) eqn:Ep; simpl; [| reflexivity].
      apply Path_eqb_eq in Eq, Ep. subst. rewrite Path_eqb_refl. reflexivity.
    + destruct (Path_eqb q p) eqn:Ep; simpl; [| reflexivity].
      apply Path_eqb_eq in Ep. subst. now rewrite Eq.
Qed.

Lemma set_mem_add entry p (s : list Path) :
  set_mem p (set_add entry s) = set_mem p s || Path_eqb entry p.
Proof.
  unfold set_mem, set_add. rewrite existsb_app. simpl. now rewrite orb_false_r.
Qed.

Lemma Path_eqb_sym p q : Path_eqb p q = Path_eqb q p.
Proof.
  destruct (Path_eqb p q) eqn:E.
  - apply Path_eqb_eq in E. subst. symmetry. apply Path_eqb_refl.
  - destruct (Path_eqb q p) eqn:E'; [| reflexivity].
    apply Path_eqb_eq in E'. subst. now rewrite Path_eqb_refl in E.
Qed.

(** What [on_key] leaves in the selection when Space is pressed on the
    row [entry]. *)
Lemma on_key_space_selected a entry :
  selected_entry a = Some entry ->
  exists r b,
    on_key "space" true a = (r, b)
    /\ _selected b
       = (if set_mem entry (_selected a) then set_discard entry (_selected a)
          else set_add entry (_selected a))
    /\ world b = world a
    /\ _undo b = _undo a
    /\ clipboard b = clipboard a.
Proof.
  intros Hsel. unfold on_key.
  change (String.eqb "space" "space") with true. cbv iota.
  unfold SE.bind at 1. unfold SE.get at 1. rewrite Hsel.
  set (S' := if set_mem entry (_selected a) then set_discard entry (_selected a)
             else set_add entry (_selected a)).
  assert (Hmod : (if set_mem entry (_selected a)
                  then SE.modify (with_selected (set_discard entry (_selected a)))
                  else SE.modify (with_selected (set_add entry (_selected a)))) a
                 = (Ok tt, with_selected S' a)).
  { unfold S'. now destruct (set_mem entry (_selected a)). }
  rewrite (bind_ok _ _ _ _ _ Hmod).
  pose proof (refresh_table_frame (with_selected S' a)) as Hframe.
  unfold SE.bind at 1.
  destruct (refresh_table (with_selected S' a)) as [[[]|e] b]; cbn [snd] in Hframe;
    destruct Hframe as (_ & _ & H3 & _ & _ & _ & H7 & H8 & _ & H10);
    cbn [clipboard _selected _undo world with_selected] in H3, H7, H8, H10.
  - unfold SE.bind at 1. unfold SE.get at 1.
    destruct (cursor_row (table b) <? Z.of_nat (row_count (table b)) - 1)%Z.
    + eexists _, _. split; [reflexivity |].
      cbn [clipboard _selected _undo world with_table]. auto.
    + exists (Ok tt), b. auto.
  - exists (Raise e), b. auto.
Qed.

(** Space on a row toggles that row in the selection and touches no other
    row of it: an unselected row becomes selected, a selected one
    unselected.  The selection stays free of duplicates, and the files, the
    undo stack and the clipboard are not touched.  Any other key, Space
    while the table does not have the focus, and Space with no row under
    the cursor change nothing. *)
Theorem space_toggles_selection a :
  (forall entry,
      selected_entry a = Some entry ->
      let a' := snd (on_key "space" true a) in
      set_mem entry (_selected a') = negb (set_mem entry (_selected a))
      /\ (forall p, p <> entry ->
            set_mem p (_selected a') = set_mem p (_selected a))
      /\ (NoDup (_selected a) -> NoDup (_selected a'))
      /\ world a' = world a
      /\ _undo a' = _undo a
      /\ clipboard a' = clipboard a)
  /\ (forall (key : string) (has_focus : bool),
        key <> "space" \/ has_focus = false \/ selected_entry a = None ->
        on_key key has_focus a = (Ok tt, a)).
Proof.
  split.
  - intros entry Hsel a'.
    destruct (on_key_space_selected a entry Hsel) as (r & b & Hrun & HS & Hw & Hu & Hc).
    unfold a'. rewrite Hrun. cbn [snd]. rewrite HS.
    split; [| split; [| split; [| now repeat split]]].
    + destruct (set_mem entry (_selected a)) eqn:Em.
      * rewrite set_mem_discard, Path_eqb_refl. reflexivity.
      * rewrite set_mem_add, Em, Path_eqb_refl. reflexivity.
    + intros p Np.
      destruct (set_mem entry (_selected a)).
      * rewrite set_mem_discard, (Path_eqb_neq _ _ Np). reflexivity.
      * rewrite set_mem_add, Path_eqb_sym, (Path_eqb_neq _ _ Np).
        apply orb_false_r.
    + intros Hnd. destruct (set_mem entry (_selected a)) eqn:Em.
      * unfold set_discard. now apply NoDup_filter.
      * unfold set_add. apply NoDup_app; [exact Hnd | repeat constructor; auto | ].
        intros x Hx [<-|[]].
        apply set_mem_in in Hx. congruence.
  - intros key has_focus H. unfold on_key.
    destruct (String.eqb_spec key "space") as [->|N]; [| reflexivity].
    destruct has_focus; [| reflexivity].
    destruct H as [H|[H|H]]; [now elim H | discriminate |].
    unfold SE.bind, SE.get. now rewrite H.
Qed.

(** Copy and cut put the row under the cursor on the clipboard and record
    which of the two it was; they touch neither the files nor the undo
    stack nor the selection.  With no row under the cursor they only
    report, and the clipboard keeps what it held. *)
Theorem copy_and_cut_only_mark a :
  (forall entry,
      selected_entry a = Some entry ->
      let c := snd (action_copy_item a) in
      let t := snd (action_cut_item a) in
      fst (action_copy_item a) = Ok tt
      /\ fst (action_cut_item a) = Ok tt
      /\ clipboard c = Some entry /\ clipboard_op c = "copy"
      /\ clipboard t = Some entry /\ clipboard_op t = "cut"
      /\ world c = world a /\ world t = world a
      /\ _undo c = _undo a /\ _undo t = _undo a
      /\ _selected c = _selected a /\ _selected t = _selected a)
  /\ (selected_entry a = None ->
      action_copy_item a = (Ok tt, with_status "⚠  No item selected." a)
      /\ action_cut_item a = (Ok tt, with_status "⚠  No item selected." a)).
Proof.
  split.
  - intros entry Hsel.
    unfold action_copy_item, action_cut_item, SE.bind, SE.get. rewrite Hsel.
    unfold assign_clipboard, SE.bind, SE.get, SE.modify.
    destruct (clipboard_eqb (clipboard a) (Some entry));
      unfold watch_clipboard, SE.bind, SE.get, set_status, SE.modify, SE.ret;
      cbn; repeat split.
  - intros Hsel.
    unfold action_copy_item, action_cut_item, SE.bind, SE.get. rewrite Hsel.
    split; reflexivity.
Qed.

End Modes.

(** ** Creating, renaming and the name dialog *)

Section Create.

Context {W : Type} {os : OS W} {osf : OSFiles W}.

Implicit Types (a : App W) (entry : Path) (name : string).

Lemma truthy_nonempty (s : string) : s <> "" -> Str.truthy s = true.
Proof. destruct s; [intros H; now elim H | reflexivity]. Qed.

(** The body of the three [try] blocks once the file system has been
    changed: list again, report, push the undo entry; an exception of the
    listing is reported instead and nothing is pushed. *)
Lemma report_and_push a (done failed_prefix description : string) (undo_fn : SE W unit) :
  exists b,
    SE.try_except
      (refresh_table ;; set_status done ;; push_undo description undo_fn)%se
      (fun e => set_status (failed_prefix ++ str_exn e)) a
    = (Ok tt, b)
    /\ world b = world a
    /\ current_dir b = current_dir a
    /\ clipboard b = clipboard a
    /\ _selected b = _selected a
    /\ match fst (refresh_table a) with
       | Ok _ =>
           status b = done
           /\ _undo b = UndoStack.push description undo_fn (_undo a)
       | Raise e =>
           status b = (failed_prefix ++ str_exn e)%string /\ _undo b = _undo a
       end.
Proof.
  pose proof (refresh_table_frame a) as Hframe.
  unfold SE.try_except. unfold SE.bind at 1.
  destruct (refresh_table a) as [[[]|e] b]; cbn [fst snd] in *;
    destruct Hframe as (H1 & _ & H3 & _ & _ & _ & H7 & H8 & _ & H10).
  - unfold SE.bind, set_status, push_undo, SE.modify.
    eexists. split; [reflexivity |].
    cbn [world current_dir clipboard _selected status _undo with_status with_undo].
    rewrite H8. repeat split; auto.
  - unfold set_status, SE.modify.
    eexists. split; [reflexivity |].
    cbn [world current_dir clipboard _selected status _undo with_status].
    repeat split; auto.
Qed.

(** Creating a file named [name] never raises.  The world is the one
    [touch] leaves.  When the name is taken this is reported as such, any
    other failure with its text, and the undo stack is as before; when the
    file is made the undo stack gets one entry that deletes it, unless
    listing the directory again fails, which is reported and pushes
    nothing. *)
Theorem new_file_outcomes a name :
  name <> "" ->
  let target := current_dir a // name in
  let made := touch_new target (world a) in
  exists b,
    action_new_file (Some name) a = (Ok tt, b)
    /\ world b = snd made
    /\ current_dir b = current_dir a
    /\ clipboard b = clipboard a
    /\ _selected b = _selected a
    /\ match fst made with
       | Some (FileExistsError _) =>
           status b = ("⚠  File already exists: " ++ name)%string
           /\ _undo b = _undo a
       | Some (CreateError e) =>
           status b = ("⚠  Error: " ++ str_exn e)%string /\ _undo b = _undo a
       | None =>
           match fst (refresh_table (with_world (snd made) a)) with
           | Ok _ =>
               status b = ("✔  Created file: " ++ name)%string
               /\ _undo b = UndoStack.push ("create " ++ name)
                                           (unlink_missing_ok target) (_undo a)
           | Raise e =>
               status b = ("⚠  Error: " ++ str_exn e)%string /\ _undo b = _undo a
           end
       end.
Proof.
  intros Hname target made. subst made target.
  unfold action_new_file. rewrite (truthy_nonempty _ Hname). cbn [negb].
  unfold SE.bind at 1. unfold SE.get at 1. cbv zeta.
  destruct (touch_new (current_dir a // name) (world a)) as [[[msg|e]|] w];
    cbn [fst snd]; unfold SE.bind at 1; unfold SE.modify at 1.
  - unfold set_status, SE.modify. eexists. split; [reflexivity |].
    cbn. repeat split; auto.
  - unfold set_status, SE.modify. eexists. split; [reflexivity |].
    cbn. repeat split; auto.
  - destruct (report_and_push (with_world w a) ("✔  Created file: " ++ name)
                "⚠  Error: " ("create " ++ name)
                (unlink_missing_ok (current_dir a // name)))
      as (b & Hrun & Hw & Hd & Hc & Hs & Hrest).
    exists b. split; [exact Hrun |]. repeat split; auto.
Qed.

(** Creating a directory named [name] never raises.  The world is the one
    [mkdir] leaves.  When the name is taken this is reported as such, any
    other failure with its text, and the undo stack is as before; when the
    directory is made the undo stack gets one entry that removes it, unless
    listing the directory again fails, which is reported and pushes
    nothing. *)
Theorem new_dir_outcomes a name :
  name <> "" ->
  let target := current_dir a // name in
  let made := mkdir_new target (world a) in
  exists b,
    action_new_dir (Some name) a = (Ok tt, b)
    /\ world b = snd made
    /\ current_dir b = current_dir a
    /\ clipboard b = clipboard a
    /\ _selected b = _selected a
    /\ match fst made with
       | Some (FileExistsError _) =>
           status b = ("⚠  Directory already exists: " ++ name)%string
           /\ _undo b = _undo a
       | Some (CreateError e) =>
           status b = ("⚠  Error: " ++ str_exn e)%string /\ _undo b = _undo a
       | None =>
           match fst (refresh_table (with_world (snd made) a)) with
           | Ok _ =>
               status b = ("✔  Created directory: " ++ name)%string
               /\ _undo b = UndoStack.push ("mkdir " ++ name)
                                           (path_rmdir target) (_undo a)
           | Raise e =>
               status b = ("⚠  Error: " ++ str_exn e)%string /\ _undo b = _undo a
           end
       end.
Proof.
  intros Hname target made. subst made target.
  unfold action_new_dir. rewrite (truthy_nonempty _ Hname). cbn [negb].
  unfold SE.bind at 1. unfold SE.get at 1. cbv zeta.
  destruct (mkdir_new (current_dir a // name) (world a)) as [[[msg|e]|] w];
    cbn [fst snd]; unfold SE.bind at 1; unfold SE.modify at 1.
  - unfold set_status, SE.modify. eexists. split; [reflexivity |].
    cbn. repeat split; auto.
  - unfold set_status, SE.modify. eexists. split; [reflexivity |].
    cbn. repeat split; auto.
  - destruct (report_and_push (with_world w a) ("✔  Created directory: " ++ name)
                "⚠  Error: " ("mkdir " ++ name)
                (path_rmdir (current_dir a // name)))
      as (b & Hrun & Hw & Hd & Hc & Hs & Hrest).
    exists b. split; [exact Hrun |]. repeat split; auto.
Qed.

(** Renaming the row under the cursor.  An empty name and the name the
    entry already has change nothing.  Otherwise the action never raises
    and the world is the one the rename leaves; a failed rename is reported
    and pushes nothing; a rename that was made pushes one undo entry, the
    rename back from the new path to the old one, unless listing the
    directory again fails. *)
Theorem rename_outcomes a entry name :
  selected_entry a = Some entry ->
  (name = "" \/ name = PurePath.name entry ->
   action_rename (Some name) a = (Ok tt, a))
  /\ (name <> "" -> name <> PurePath.name entry ->
      let target := current_dir a // name in
      let renamed := path_rename entry target (world a) in
      exists b,
        action_rename (Some name) a = (Ok tt, b)
        /\ world b = snd renamed
        /\ current_dir b = current_dir a
        /\ clipboard b = clipboard a
        /\ _selected b = _selected a
        /\ match fst renamed with
           | Raise e =>
               status b = ("⚠  Error: " ++ str_exn e)%string /\ _undo b = _undo a
           | Ok _ =>
               match fst (refresh_table (with_world (snd renamed) a)) with
               | Ok _ =>
                   status b = ("✔  Renamed to: " ++ name)%string
                   /\ _undo b = UndoStack.push ("rename " ++ PurePath.name entry)
                                               (path_rename target entry) (_undo a)
               | Raise e =>
                   status b = ("⚠  Error: " ++ str_exn e)%string
                   /\ _undo b = _undo a
               end
           end).
Proof.
  intros Hsel. split.
  - intros H. unfold action_rename, SE.bind, SE.get. rewrite Hsel.
    destruct H as [->| ->]; [reflexivity |].
    now rewrite String.eqb_refl, andb_false_r.
  - intros Hname Hother target renamed. subst renamed target.
    unfold action_rename. unfold SE.bind at 1. unfold SE.get at 1. rewrite Hsel.
    rewrite (truthy_nonempty _ Hname).
    apply String.eqb_neq in Hother. rewrite Hother. cbn [negb andb].
    destruct (path_rename entry (current_dir a // name) (world a))
      as [[[]|e] w] eqn:Hren; cbn [fst snd].
    + destruct (report_and_push (with_world w a) ("✔  Renamed to: " ++ name)
                  "⚠  Error: " ("rename " ++ PurePath.name entry)
                  (path_rename (current_dir a // name) entry))
        as (b & Hrun & Hw & Hd & Hc & Hs & Hrest).
      exists b. split; [| repeat split; auto].
      revert Hrun. unfold SE.try_except. intros Hrun.
      rewrite (bind_ok (io (path_rename entry (current_dir a // name))) _
                       a (with_world w a) tt);
        [exact Hrun | unfold io; now rewrite Hren].
    + unfold SE.try_except.
      rewrite (bind_raise (io (path_rename entry (current_dir a // name))) _
                          a (with_world w a) e)
        by (unfold io; now rewrite Hren).
      unfold set_status, SE.modify.
      eexists. split; [reflexivity |]. cbn. repeat split; auto.
Qed.

Lemma lstrip_blank (s : string) : blank s = true -> Str.lstrip s = "".
Proof.
  induction s as [|c s IH]; [reflexivity |].
  cbn [blank Str.lstrip]. intros H. apply andb_true_iff in H as [Hc Hs].
  rewrite Hc. now apply IH.
Qed.

(** A text of white space only is taken for none: the dialog hands over
    the stripped text, and on the empty text creating a file, creating a
    directory, zipping, renaming and going to a path do nothing at all. *)
Theorem blank_name_is_ignored a (value : string) :
  blank value = true ->
  InputModal_confirm value = Some ""
  /\ action_new_file (InputModal_confirm value) a = (Ok tt, a)
  /\ action_new_dir (InputModal_confirm value) a = (Ok tt, a)
  /\ (forall targets, archive_handle targets (InputModal_confirm value) a = (Ok tt, a))
  /\ (forall entry, selected_entry a = Some entry ->
        action_rename (InputModal_confirm value) a = (Ok tt, a))
  /\ action_goto (InputModal_confirm value) a = (Ok tt, a).
Proof.
  intros Hblank.
  assert (E : InputModal_confirm value = Some "").
  { unfold InputModal_confirm, Str.strip. now rewrite (lstrip_blank _ Hblank). }
  rewrite E. split; [reflexivity |].
  split; [reflexivity |]. split; [reflexivity |]. split; [reflexivity |].
  split; [| reflexivity].
  intros entry Hsel. unfold action_rename, SE.bind, SE.get. now rewrite Hsel.
Qed.

End Create.

(** ** A delete that goes through, and what a zip archive holds *)

Section Batch.

Context {W : Type} {os : OS W}.

Implicit Types (a : App W) (w : W) (t out : Path).

(** Every move of [trash_moves] goes from the entry to a path in the trash
    directory whose name ends in the name of the entry. *)
Lemma trash_moves_into_trash w (targets : list Path) moves failed w' :
  trash_moves w targets = (moves, failed, w') ->
  Forall (fun m => exists ts : string,
                     fst m = TRASH_DIR // (ts ++ "_" ++ PurePath.name (snd m)))
         moves.
Proof.
  revert w moves failed w'.
  induction targets as [|entry rest IH]; intros w moves failed w' E.
  - cbn [trash_moves] in E. injection E as <- _ _. constructor.
  - cbn [trash_moves] in E.
    destruct (shutil_move entry _ w) as [[[]|e] w1].
    + destruct (trash_moves w1 rest) as [[ms f] w2] eqn:Er.
      injection E as <- _ _. constructor; [| exact (IH _ _ _ _ Er)].
      exists (strftime_now w). reflexivity.
    + injection E as <- _ _. constructor.
Qed.

Ltac status_kept :=
  lazymatch goal with
  | |- SE.preserves _ (SE.bind _ _) =>
      apply (preserves_bind same_status); [unfold same_status; congruence | status_kept | intros ?; status_kept]
  | |- SE.preserves _ SE.get => apply preserves_get; reflexivity
  | |- SE.preserves _ (SE.of_result _) => apply preserves_of_result; reflexivity
  | |- SE.preserves _ (SE.for_each _ _) =>
      apply (preserves_for_each same_status);
        [reflexivity | unfold same_status; congruence | intros ?; status_kept]
  | |- SE.preserves _ (SE.modify _) => apply preserves_modify; intros ?; reflexivity
  | |- SE.preserves _ table_clear => unfold table_clear; status_kept
  | |- SE.preserves _ table_add_row => unfold table_add_row; status_kept
  end.

(** When [refresh_table] raises, the status bar is as it was. *)
Lemma refresh_table_raises_status (a : App W) (e : exn) :
  fst (refresh_table a) = Raise e -> status (snd (refresh_table a)) = status a.
Proof.
  revert a e. change (SE.raising same_status (@refresh_table W os)).
  assert (Htrans : forall s t u : App W, same_status s t -> same_status t u -> same_status s u)
    by (unfold same_status; congruence).
  assert (Hset : forall msg, SE.raising same_status (@set_status W msg))
    by (intros msg s e He; discriminate He).
  unfold refresh_table; cbv zeta.
  apply (raising_bind same_status Htrans); [status_kept | intros _].
  apply (raising_bind same_status Htrans); [status_kept | intros a].
  destruct (iterdir (world a) (current_dir a)) as [raw | [m|m|m]].
  - apply (raising_bind same_status Htrans); [status_kept | intros entries].
    apply (raising_bind same_status Htrans); [status_kept | intros _].
    apply (raising_bind same_status Htrans); [status_kept | intros _].
    apply (raising_bind same_status Htrans); [status_kept | intros b].
    apply Hset.
  - apply Hset.
  - apply raising_preserves, preserves_raise. reflexivity.
  - apply raising_preserves, preserves_raise. reflexivity.
Qed.

(** A confirmed delete in which every entry is moved: the entries are in
    the trash, each under a name that ends in its own.  When the listing
    that follows returns, the selection is empty, the deletion is reported
    and the undo stack has one more entry, which moves every entry back
    from the trash to where it was, in the order they were trashed; running
    undo next runs exactly these moves and leaves the stack as it was
    before the delete.  When the listing raises, the exception leaves the
    action: the entries stay in the trash, the selection is empty, and
    nothing is reported or pushed. *)
Theorem soft_delete_success a w1 moves w2 :
  _effective_targets a <> [] ->
  mkdir_parents TRASH_DIR (world a) = (Ok tt, w1) ->
  trash_moves w1 (_effective_targets a) = (moves, None, w2) ->
  let label :=
    match _effective_targets a with
    | [only] => PurePath.name only
    | l => (Str.of_nat (List.length l) ++ " items")%string
    end in
  let listing := refresh_table (with_selected [] (with_world w2 a)) in
  map snd moves = _effective_targets a
  /\ Forall (fun m => exists ts : string,
                fst m = TRASH_DIR // (ts ++ "_" ++ PurePath.name (snd m))) moves
  /\ (fst listing = Ok tt ->
      exists b,
        action_delete true a = (Ok tt, b)
        /\ world b = w2
        /\ _selected b = []
        /\ status b = ("✔  Deleted: " ++ label ++ "  (press U to undo)")%string
        /\ _undo b = UndoStack.push ("delete " ++ label) (_undo_delete moves) (_undo a)
        /\ world (snd (action_undo b)) = snd (_undo_delete moves w2)
        /\ _undo (snd (action_undo b)) = _undo a)
  /\ (forall e : exn,
        fst listing = Raise e ->
        exists b,
          action_delete true a = (Raise e, b)
          /\ world b = w2
          /\ _selected b = []
          /\ status b = status a
          /\ _undo b = _undo a).
Proof.
  intros Hne Hmk Hm label listing.
  split; [exact (trash_moves_all _ _ _ _ Hm) |].
  split; [exact (trash_moves_into_trash _ _ _ _ _ Hm) |].
  assert (Hrun : action_delete true a
                 = (refresh_table ;;
                    set_status ("✔  Deleted: " ++ label ++ "  (press U to undo)") ;;
                    push_undo ("delete " ++ label) (_undo_delete moves))%se
                     (with_selected [] (with_world w2 a)))
    by (rewrite (action_delete_confirmed a w1 Hne Hmk), Hm; reflexivity).
  rewrite Hrun.
  pose proof (refresh_table_frame (with_selected [] (with_world w2 a))) as Hframe.
  fold listing in Hframe. unfold SE.bind at 1 3. fold listing.
  destruct listing as [[[]|e] b0] eqn:Elist; cbn [snd fst] in *;
    destruct Hframe as (_ & _ & _ & _ & _ & _ & H7 & H8 & _ & H10);
    cbn [_selected _undo world with_selected with_world] in H7, H8, H10.
  - split; [| intros e; discriminate]. intros _.
    unfold SE.bind, set_status, push_undo, SE.modify.
    eexists. split; [reflexivity |].
    cbn [world _selected status _undo with_status with_undo].
    rewrite H8.
    split; [exact H10 |]. split; [exact H7 |]. split; [reflexivity |].
    split; [reflexivity |].
    match goal with |- context [action_undo ?b] =>
      destruct (action_undo_top b ("delete " ++ label) (_undo_delete moves) (_undo a))
        as (msg & b' & Hundo & Hsess & _) end.
    { cbn [_undo with_undo with_status]. reflexivity. }
    rewrite Hundo. cbn [snd world _undo with_status].
    destruct Hsess as (_ & _ & _ & _ & _ & _ & _ & H8' & _ & H10').
    cbn [_undo world with_world with_undo with_status] in H8', H10'.
    rewrite H10 in H10'. split; assumption.
  - split; [discriminate |]. intros e' [= <-].
    exists b0. split; [reflexivity |].
    split; [exact H10 |]. split; [exact H7 |]. split; [| exact H8].
    pose proof (refresh_table_raises_status (with_selected [] (with_world w2 a)) e) as Hs.
    fold listing in Hs. rewrite Elist in Hs. exact (Hs eq_refl).
Qed.

Lemma relative_to_app (base rest : Path) : relative_to (base ++ rest) base = Ok rest.
Proof.
  induction base as [|b base IH]; [now destruct rest |].
  cbn [app relative_to]. now rewrite String.eqb_refl.
Qed.

Lemma relative_to_under (f base r : Path) :
  relative_to f base = Ok r -> f = base ++ r.
Proof.
  revert f. induction base as [|b base IH]; intros f E.
  - destruct f; cbn in E; now injection E as <-.
  - destruct f as [|x f]; cbn [relative_to] in E; [discriminate |].
    destruct (String.eqb_spec b x) as [<-|_]; [| discriminate].
    cbn [app]. f_equal. now apply IH.
Qed.

Lemma parent_name t :
  PurePath.tail t <> [] -> t = PurePath.parent t ++ [PurePath.name t].
Proof.
  intros Ht. unfold PurePath.parent, PurePath.name.
  destruct (PurePath.tail t) as [|x r] eqn:E; [now elim Ht |].
  assert (Hlast : last t "" = last (x :: r) "").
  { unfold PurePath.tail in E. destruct t as [|y t']; [discriminate |].
    destruct (prefix "/" y); [| now rewrite E].
    subst t'. reflexivity. }
  rewrite <- Hlast. apply app_removelast_last.
  intros ->. discriminate.
Qed.

Lemma bind_ret_unit {S} (c : SE S unit) (s : S) :
  SE.bind c (fun _ => SE.ret tt) s = c s.
Proof. unfold SE.bind, SE.ret. now destruct (c s) as [[[]|e] s']. Qed.

Lemma bind_ext {S A B} (c c' : SE S A) (k k' : A -> SE S B) (s : S) :
  (forall s0, c s0 = c' s0) -> (forall x s0, k x s0 = k' x s0) ->
  SE.bind c k s = SE.bind c' k' s.
Proof.
  intros Hc Hk. unfold SE.bind. rewrite Hc.
  destruct (c' s) as [[x|e] s']; [apply Hk | reflexivity].
Qed.

(** In the archive a directory keeps its own name as the top folder: the
    file at [t/r] is written under the name [t.name/r].  A target that is
    not a directory is written under its bare name.  When the kind of the
    target cannot be read, nothing is written and the exception leaves the
    loop. *)
Theorem zip_member_names a out t (under : list Path) :
  PurePath.tail t <> [] ->
  (is_dir (world a) t = Ok true ->
   rglob (world a) t = Ok (map (fun r => t ++ r) under) ->
   zip_targets out [t] a
   = SE.for_each under
       (fun r => io (zip_write out (t ++ r) (PurePath.name t :: r))) a)
  /\ (is_dir (world a) t = Ok false ->
      zip_targets out [t] a = io (zip_write out t [PurePath.name t]) a)
  /\ (forall e : exn,
        is_dir (world a) t = Raise e -> zip_targets out [t] a = (Raise e, a)).
Proof.
  intros Ht. unfold zip_targets. cbn [SE.for_each]. rewrite !bind_ret_unit.
  split; [| split].
  - unfold SE.bind at 1. unfold SE.get at 1.
    unfold SE.bind at 1. unfold SE.of_result at 1.
    intros -> ->. unfold SE.bind at 1. unfold SE.of_result at 1.
    generalize a. induction under as [|r under IH]; intros s; [reflexivity |].
    cbn [map SE.for_each].
    assert (Hone : forall s0,
               (arcname <- SE.of_result
                             (relative_to (t ++ r) (PurePath.parent t)) ;;
                io (zip_write out (t ++ r) arcname))%se s0
               = io (zip_write out (t ++ r) (PurePath.name t :: r)) s0).
    { intros s0. rewrite (parent_name t Ht) at 1. rewrite <- app_assoc.
      rewrite relative_to_app. reflexivity. }
    apply bind_ext; [exact Hone | intros _ s0; apply IH].
  - unfold SE.bind at 1. unfold SE.get at 1.
    unfold SE.bind at 1. unfold SE.of_result at 1. intros ->. reflexivity.
  - intros e He. unfold SE.bind, SE.get, SE.of_result. now rewrite He.
Qed.

End Batch.

(** ** The path dialog and the filter bar *)

Section Goto.

Context {W : Type} {os : OS W} {osf : OSFiles W}.

Implicit Types (a : App W) (p : Path) (raw : list Path).

(** Going to a path typed in the dialog.  If the home directory of a path
    in [~] cannot be found, or the kind of the path cannot be read, the
    exception leaves the handler and nothing has changed.  A path that is
    not a directory is only reported.  A directory other than the current
    one becomes the current directory, with an empty selection.  A path
    whose first component does not begin with [~] is taken as it is. *)
Theorem goto_outcomes a (result : string) :
  result <> "" ->
  (forall e, expanduser (world a) (PurePath.parts result) = Raise e ->
     action_goto (Some result) a = (Raise e, a))
  /\ (forall p e, expanduser (world a) (PurePath.parts result) = Ok p ->
        is_dir (world a) p = Raise e ->
        action_goto (Some result) a = (Raise e, a))
  /\ (forall p, expanduser (world a) (PurePath.parts result) = Ok p ->
        is_dir (world a) p = Ok false ->
        action_goto (Some result) a
        = (Ok tt, with_status ("⚠  Not a directory: " ++ result) a))
  /\ (forall p, expanduser (world a) (PurePath.parts result) = Ok p ->
        is_dir (world a) p = Ok true -> current_dir a <> p ->
        let a' := snd (action_goto (Some result) a) in
        current_dir a' = p /\ _selected a' = [] /\ world a' = world a)
  /\ (forall first rest,
        PurePath.parts result = first :: rest -> prefix "~" first = false ->
        expanduser (world a) (PurePath.parts result) = Ok (PurePath.parts result)).
Proof.
  intros Hres. pose proof (truthy_nonempty _ Hres) as Ht.
  split; [| split; [| split; [| split]]].
  - intros e He. unfold action_goto. rewrite Ht. cbn [negb].
    unfold SE.bind, SE.get, SE.of_result. now rewrite He.
  - intros p e Hp Hdir. unfold action_goto. rewrite Ht. cbn [negb].
    unfold SE.bind, SE.get, SE.of_result. now rewrite Hp, Hdir.
  - intros p Hp Hdir. unfold action_goto. rewrite Ht. cbn [negb].
    unfold SE.bind, SE.get, SE.of_result. now rewrite Hp, Hdir.
  - intros p Hp Hdir N. cbv zeta.
    assert (Hrun : action_goto (Some result) a = assign_current_dir p a).
    { unfold action_goto. rewrite Ht. cbn [negb].
      unfold SE.bind at 1. unfold SE.get at 1.
      unfold SE.bind at 1. unfold SE.of_result at 1. rewrite Hp.
      unfold SE.bind at 1. unfold SE.of_result at 1. now rewrite Hdir. }
    rewrite Hrun.
    destruct (assign_current_dir_new a p N)
      as (r & b & -> & H1 & H2 & _ & _ & _ & H6).
    split; [exact H1 |]. split; [exact H2 | exact H6].
  - intros first rest -> Hfirst. unfold expanduser. now rewrite Hfirst.
Qed.

Lemma with_filter_text_same a : with_filter_text (filter_text a) a = a.
Proof. now destruct a. Qed.

Lemma assign_filter_text_run a raw (text : string) :
  iterdir (world a) (current_dir a) = Ok raw ->
  readable (world a) raw ->
  exists s,
    _sort_entries (world a) (sort_mode a) raw = Ok s
    /\ assign_filter_text text a
       = (Ok tt,
          if String.eqb (filter_text a) text then a
          else listed (listing_of (with_filter_text text a) s)
                      (with_filter_text text a)).
Proof.
  intros Hraw Hr.
  destruct (refresh_table_listed (with_filter_text text a) raw Hraw Hr)
    as (s & Hs & _ & Hrun).
  exists s. split; [exact Hs |].
  unfold assign_filter_text. unfold SE.bind at 1. unfold SE.get at 1.
  unfold SE.bind at 1. unfold SE.modify at 1.
  destruct (String.eqb_spec (filter_text a) text) as [<-|N].
  - now rewrite with_filter_text_same.
  - unfold watch_filter_text. exact Hrun.
Qed.

(** The filter bar, when the directory can be listed and the kind of every
    entry in it can be read.  Typing a new text lists the directory again
    through that text: the rows are the entries the hidden-file policy
    allows whose name has a piece that is the text up to the case of the
    letters.  Closing the bar, by the toggle or by the clear action,
    empties the filter text, so that every entry the hidden-file policy
    allows is a row again; with an empty text already, closing changes
    nothing.  With the bar closed, the clear action does nothing and the
    toggle only opens the bar.  Names and texts are in the ASCII range. *)
Theorem filter_bar a (raw : list Path) :
  iterdir (world a) (current_dir a) = Ok raw ->
  readable (world a) raw ->
  Forall (fun p => Str.is_ascii (PurePath.name p) = true) raw ->
  exists s,
    _sort_entries (world a) (sort_mode a) raw = Ok s
    /\ (forall text : string,
          text <> filter_text a ->
          Str.is_ascii text = true ->
          on_filter_changed text a
          = (Ok tt,
             listed (listing_of (with_filter_text text a) s)
                    (with_filter_text text a))
          /\ forall e,
               In e (_row_entries (snd (on_filter_changed text a)))
               <-> In e s
                   /\ (show_hidden a = true
                       \/ Str.startswith "." (PurePath.name e) = false)
                   /\ exists pre mid post,
                        PurePath.name e = (pre ++ mid ++ post)%string
                        /\ Str.caseless mid text = true)
    /\ action_toggle_filter true a = action_clear_filter true a
    /\ fst (action_clear_filter true a) = Ok false
    /\ filter_text (snd (action_clear_filter true a)) = ""
    /\ (filter_text a <> "" ->
        _row_entries (snd (action_clear_filter true a))
        = filter (fun e => show_hidden a || not_hidden e) s)
    /\ (filter_text a = "" -> snd (action_clear_filter true a) = a)
    /\ action_clear_filter false a = (Ok false, a)
    /\ action_toggle_filter false a = (Ok true, a).
Proof.
  intros Hraw Hr _.
  destruct (_sort_entries_returns (world a) (sort_mode a) raw Hr) as (s & Hs & _).
  exists s. split; [exact Hs |].
  assert (Hassign : forall text : string,
             assign_filter_text text a
             = (Ok tt,
                if String.eqb (filter_text a) text then a
                else listed (listing_of (with_filter_text text a) s)
                            (with_filter_text text a))).
  { intros text.
    destruct (assign_filter_text_run a raw text Hraw Hr) as (s' & Hs' & E).
    rewrite Hs in Hs'. injection Hs' as <-. exact E. }
  assert (Hclear : action_clear_filter true a
                   = (Ok false,
                      if String.eqb (filter_text a) "" then a
                      else listed (listing_of (with_filter_text "" a) s)
                                  (with_filter_text "" a))).
  { unfold action_clear_filter. now rewrite (bind_ok _ _ _ _ _ (Hassign "")). }
  split.
  { intros text N _.
    assert (Hrun : on_filter_changed text a
                   = (Ok tt,
                      listed (listing_of (with_filter_text text a) s)
                             (with_filter_text text a))).
    { unfold on_filter_changed. rewrite Hassign.
      destruct (String.eqb_spec (filter_text a) text) as [E|_]; [| reflexivity].
      now elim N. }
    split; [exact Hrun |]. intros e. rewrite Hrun.
    cbn [snd listed _row_entries with_status with_row_entries]. unfold listing_of.
    cbn [filter_text show_hidden with_filter_text].
    rewrite !filter_In, matches_filter_iff. unfold not_hidden.
    rewrite orb_true_iff, negb_true_iff. tauto. }
  split; [reflexivity |]. rewrite Hclear. cbn [fst snd].
  split; [reflexivity |].
  split.
  { destruct (String.eqb_spec (filter_text a) "") as [E|_]; [exact E | reflexivity]. }
  split.
  { intros N. destruct (String.eqb_spec (filter_text a) "") as [E|_]; [now elim N |].
    unfold listed, listing_of.
    cbn [_row_entries with_status with_row_entries filter_text show_hidden
         with_filter_text].
    apply filter_all. apply matches_empty_filter. }
  split.
  { intros E. now rewrite E. }
  split; reflexivity.
Qed.

End Goto.

(** ** The size shown for a file *)

Section HumanSize.

Local Open Scope Z_scope.

Lemma py_lt_Q_iff (x y : Q) : py_lt x y = true <-> (x < y)%Q.
Proof.
  change (py_lt x y) with (negb (Qle_bool y x)).
  rewrite negb_true_iff, <- not_true_iff_false, Qle_bool_iff.
  split; [apply Qnot_le_lt | apply Qlt_not_le].
Qed.

Lemma pow1024_pos (k : nat) : Zpos (pow1024 k) = 1024 ^ Z.of_nat k.
Proof.
  induction k as [|k IH]; [reflexivity |].
  change (pow1024 (S k)) with (1024 * pow1024 k)%positive.
  rewrite Pos2Z.inj_mul, IH.
  rewrite Nat2Z.inj_succ, Z.pow_succ_r by lia. reflexivity.
Qed.

Lemma scaled_make (k : nat) (n : Z) : (scaled k (inject_Z n) == n # pow1024 k)%Q.
Proof.
  induction k as [|k IH]; [reflexivity |].
  change (scaled (S k) (inject_Z n)) with (scaled k (inject_Z n) / 1024)%Q.
  change (pow1024 (S k)) with (1024 * pow1024 k)%positive.
  rewrite IH.
  unfold Qeq, Qdiv, Qmult, Qinv. cbn [Qnum Qden inject_Z].
  rewrite !Pos2Z.inj_mul. ring.
Qed.

Lemma scaled_div (k : nat) (n : Z) :
  (scaled k (inject_Z n) == inject_Z n / inject_Z (1024 ^ Z.of_nat k))%Q.
Proof.
  rewrite scaled_make, <- pow1024_pos. rewrite (Qmake_Qdiv n (pow1024 k)).
  reflexivity.
Qed.

Lemma scaled_below (k : nat) (n : Z) :
  py_lt (scaled k (inject_Z n)) 1024%Q = true <-> n < 1024 ^ Z.of_nat (S k).
Proof.
  rewrite py_lt_Q_iff, scaled_make. unfold Qlt. cbn [Qnum Qden].
  rewrite pow1024_pos, Nat2Z.inj_succ, Z.pow_succ_r by lia. lia.
Qed.

Lemma scaled_succ (k : nat) (q : Q) : scaled (S k) q = scaled k (q / 1024)%Q.
Proof. unfold scaled. exact (Nat.iter_succ_r k Q (fun x => (x / 1024)%Q) q). Qed.

Lemma human_size_loop_unit (units : list string) (q : Q) (k : nat) :
  (k < List.length units)%nat ->
  (forall j, (j < k)%nat -> py_lt (scaled j q) 1024%Q = false) ->
  py_lt (scaled k q) 1024%Q = true ->
  human_size_loop units q
  = (format_1f (scaled k q) ++ " " ++ nth k units "")%string.
Proof.
  revert q k. induction units as [|u units IH]; intros q k Hk Hlow Hup.
  - cbn in Hk. lia.
  - cbn [human_size_loop]. destruct k as [|k].
    + change (scaled 0 q) with q in Hup. now rewrite Hup.
    + assert (H0 : py_lt q 1024%Q = false) by (apply (Hlow 0%nat); lia).
      rewrite H0. rewrite scaled_succ. cbn [nth].
      apply IH; [cbn in Hk; lia | | now rewrite <- scaled_succ].
      intros j Hj. rewrite <- scaled_succ. apply Hlow. lia.
Qed.

Lemma human_size_loop_top (units : list string) (q : Q) :
  (forall j, (j < List.length units)%nat -> py_lt (scaled j q) 1024%Q = false) ->
  human_size_loop units q
  = (format_1f (scaled (List.length units) q) ++ " PB")%string.
Proof.
  revert q. induction units as [|u units IH]; intros q Hlow; [reflexivity |].
  cbn [human_size_loop List.length].
  assert (H0 : py_lt q 1024%Q = false) by (apply (Hlow 0%nat); cbn; lia).
  rewrite H0, scaled_succ. apply IH.
  intros j Hj. rewrite <- scaled_succ. apply Hlow. cbn. lia.
Qed.

Lemma round_half_even_comp (x y : Q) :
  (x == y)%Q -> round_half_even x = round_half_even y.
Proof.
  intros E. unfold round_half_even.
  rewrite (Qfloor_comp _ _ E).
  assert (E' : (x - inject_Z (Qfloor y) == y - inject_Z (Qfloor y))%Q)
    by now rewrite E.
  now rewrite (Qcompare_comp _ _ E' _ _ (Qeq_refl (1 # 2))).
Qed.

Lemma format_1f_comp (x y : Q) : (x == y)%Q -> format_1f x = format_1f y.
Proof.
  intros E. unfold format_1f.
  assert (Hr : round_half_even (Qabs x * 10) = round_half_even (Qabs y * 10)).
  { apply round_half_even_comp. now rewrite E. }
  rewrite Hr.
  assert (Hs : py_lt x 0%Q = py_lt y 0%Q).
  { change (negb (Qle_bool 0 x) = negb (Qle_bool 0 y)). f_equal.
    apply Qleb_comp; [reflexivity | exact E]. }
  now rewrite Hs.
Qed.

Lemma format_1f_whole (n : Z) :
  0 <= n -> format_1f (inject_Z n) = (str_Z n ++ ".0")%string.
Proof.
  intros Hn. unfold format_1f.
  assert (Hs : py_lt (inject_Z n) 0%Q = false).
  { apply not_true_iff_false. rewrite py_lt_Q_iff. apply Qle_not_lt.
    unfold Qle. cbn. lia. }
  rewrite Hs.
  assert (Hr : round_half_even (Qabs (inject_Z n) * 10) = n * 10).
  { rewrite (round_half_even_comp _ (inject_Z (n * 10))).
    - unfold round_half_even. rewrite Qfloor_Z.
      assert (Hc : (inject_Z (n * 10) - inject_Z (n * 10) ?= 1 # 2)%Q = Lt).
      { apply (proj1 (Qlt_alt _ _)).
        unfold Qlt, Qminus, Qplus, Qopp, inject_Z. cbn [Qnum Qden]. lia. }
      now rewrite Hc.
    - unfold Qeq, Qabs, Qmult, inject_Z. cbn [Qnum Qden]. rewrite Z.abs_eq by lia. lia. }
  rewrite Hr. rewrite Z.div_mul by lia. rewrite Z.mod_mul by lia.
  reflexivity.
Qed.

(** The unit [human_size] shows is the largest power of 1024 that is not
    above the size, from bytes up to petabytes, and the number is the size
    in that unit to one decimal; a size below 1024 is shown whole, as
    bytes. *)
Theorem human_size_unit (n : Z) (k : nat) :
  0 <= n < 2 ^ 53 ->
  (k <= 5)%nat ->
  k = 0%nat \/ 1024 ^ Z.of_nat k <= n ->
  k = 5%nat \/ n < 1024 ^ Z.of_nat (S k) ->
  human_size n
  = (format_1f (inject_Z n / inject_Z (1024 ^ Z.of_nat k))
     ++ " " ++ nth k size_units "")%string
  /\ (k = 0%nat -> human_size n = (str_Z n ++ ".0 B")%string).
Proof.
  intros Hn Hk Hlow Hup.
  assert (Hbelow : forall j, (j < k)%nat ->
             py_lt (scaled j (inject_Z n)) 1024%Q = false).
  { intros j Hj. apply not_true_iff_false. rewrite scaled_below.
    destruct Hlow as [->|Hlow]; [lia |].
    assert (1024 ^ Z.of_nat (S j) <= 1024 ^ Z.of_nat k)
      by (apply Z.pow_le_mono_r; lia).
    lia. }
  assert (Hmain : human_size n
                  = (format_1f (scaled k (inject_Z n)) ++ " " ++ nth k size_units "")%string).
  { unfold human_size. destruct (Nat.eq_dec k 5) as [->|Hk'].
    - rewrite human_size_loop_top; [reflexivity |]. exact Hbelow.
    - destruct Hup as [->|Hup]; [now elim Hk' |].
      rewrite (human_size_loop_unit _ _ k); [| cbn; lia | exact Hbelow
                                             | now apply scaled_below].
      do 5 (destruct k as [|k]; [reflexivity |]). lia. }
  split.
  - rewrite Hmain. f_equal. apply format_1f_comp. apply scaled_div.
  - intros ->. rewrite Hmain. change (scaled 0 (inject_Z n)) with (inject_Z n).
    rewrite format_1f_whole by lia. cbn [nth size_units].
    now rewrite append_assoc.
Qed.

End HumanSize.

(** ** The further properties in the small world *)

Lemma rows_are_the_visible_entries_witness :
  let a := Sim.start Sim.docs Sim.w0 in
  fst (refresh_table a) = Ok tt
  /\ In (Sim.docs ++ ["a.txt"]) (_row_entries (snd (refresh_table a)))
  /\ ~ In (Sim.docs ++ [".git"]) (_row_entries (snd (refresh_table a))).
Proof.
  intros a.
  assert (Hraw : iterdir (world a) (current_dir a) = Ok (Sim.children Sim.w0 Sim.docs))
    by (vm_compute; reflexivity).
  assert (Hnames : Forall (fun p => Str.is_ascii (PurePath.name p) = true)
                          (Sim.children Sim.w0 Sim.docs))
    by (repeat constructor).
  destruct (rows_are_the_visible_entries a _ (Sim.docs ++ ["a.txt"])
              Hraw sim_docs_readable Hnames eq_refl) as [Hok Hyes].
  destruct (rows_are_the_visible_entries a _ (Sim.docs ++ [".git"])
              Hraw sim_docs_readable Hnames eq_refl) as [_ Hno].
  split; [exact Hok |]. split.
  - apply Hyes.
    split; [vm_compute; auto 20 |]. split; [right; vm_compute; reflexivity |].
    exists "", "", "a.txt". split; reflexivity.
  - intros Hin. apply Hno in Hin.
    destruct Hin as (_ & [H|H] & _); vm_compute in H; discriminate H.
Defined.

Lemma filters_only_remove_rows_witness :
  let a := with_filter_text ".TXT" (Sim.start Sim.docs Sim.w0) in
  _row_entries (snd (refresh_table a))
  = filter (matches_filter (filter_text a))
           (_row_entries (snd (refresh_table (with_filter_text "" a))))
  /\ _row_entries (snd (refresh_table (with_show_hidden false a)))
     = filter not_hidden
              (_row_entries (snd (refresh_table (with_show_hidden true a))))
  /\ _row_entries (snd (refresh_table a))
     = [Sim.docs ++ ["a.txt"]; Sim.docs ++ ["b.txt"]].
Proof.
  intros a.
  assert (Hnames : Forall (fun p => Str.is_ascii (PurePath.name p) = true)
                          (Sim.children Sim.w0 Sim.docs))
    by (repeat constructor).
  destruct (filters_only_remove_rows a (Sim.children Sim.w0 Sim.docs))
    as (H1 & H2 & _);
    [vm_compute; reflexivity | exact sim_docs_readable | exact Hnames
     | reflexivity |].
  split; [exact H1 |]. split; [exact H2 |]. vm_compute. reflexivity.
Defined.

Lemma refresh_denied_witness :
  let a := Sim.start (Sim.vault ++ ["key"]) Sim.w_vault in
  refresh_table a
  = (Ok tt,
     with_status "⚠  Permission denied"
       (with_table {| row_count := 0; cursor_row := 0 |} a))
  /\ selected_entry (snd (refresh_table a)) = None.
Proof.
  intros a.
  destruct (refresh_denied a "Permission denied") as (Hrun & Hsel & _);
    [vm_compute; reflexivity |].
  split; [exact Hrun | exact Hsel].
Defined.

Lemma selected_entry_bounds_witness :
  In (Sim.docs ++ ["a.txt"]) (_row_entries Sim.on_a_txt)
  /\ selected_entry (Sim.cursor_at 9 Sim.on_a_txt) = None.
Proof.
  destruct (selected_entry_bounds Sim.on_a_txt) as [Hin _].
  destruct (selected_entry_bounds (Sim.cursor_at 9 Sim.on_a_txt)) as [_ Hout].
  split.
  - apply (Hin (Sim.docs ++ ["a.txt"])). vm_compute. reflexivity.
  - apply Hout. right. right. vm_compute. intros H. discriminate H.
Defined.

Lemma toggle_hidden_twice_witness :
  (action_toggle_hidden ;; action_toggle_hidden)%se Sim.on_a_txt
  = refresh_table Sim.on_a_txt.
Proof.
  apply (toggle_hidden_twice Sim.on_a_txt (Sim.children Sim.w0 Sim.docs)).
  - vm_compute. reflexivity.
  - exact sim_docs_readable.
Defined.

Lemma change_directory_witness :
  let a' := snd (assign_current_dir Sim.inbox Sim.on_a_txt) in
  current_dir a' = Sim.inbox
  /\ _selected a' = []
  /\ world a' = world Sim.on_a_txt
  /\ assign_current_dir (current_dir Sim.on_a_txt) Sim.on_a_txt = (Ok tt, Sim.on_a_txt).
Proof.
  destruct (change_directory Sim.on_a_txt Sim.inbox) as [_ Hnew].
  destruct (change_directory Sim.on_a_txt (current_dir Sim.on_a_txt)) as [Hsame _].
  cbv zeta in Hnew |- *.
  destruct Hnew as (H1 & H2 & _ & _ & _ & H6);
    [intros E; vm_compute in E; discriminate E |].
  split; [exact H1 |]. split; [exact H2 |]. split; [exact H6 |].
  apply Hsame. reflexivity.
Defined.

Lemma go_up_witness :
  let a' := snd (action_go_up Sim.on_a_txt) in
  current_dir a' = PurePath.parent (current_dir Sim.on_a_txt)
  /\ _selected a' = []
  /\ action_go_up (Sim.start ["/"] Sim.w0) = (Ok tt, Sim.start ["/"] Sim.w0).
Proof.
  destruct (go_up Sim.on_a_txt) as [_ Hup].
  destruct (go_up (Sim.start ["/"] Sim.w0)) as [Hroot _].
  cbv zeta in Hup |- *.
  destruct Hup as (H1 & H2 & _);
    [intros E; vm_compute in E; discriminate E |].
  split; [exact H1 |]. split; [exact H2 |].
  apply Hroot. reflexivity.
Defined.

Lemma row_selected_witness :
  let on_sub := Sim.cursor_at 0 Sim.on_a_txt in
  let a' := snd (on_row_selected on_sub) in
  current_dir a' = Sim.docs ++ ["Sub"]
  /\ _selected a' = []
  /\ on_row_selected Sim.on_a_txt = (Ok tt, Sim.on_a_txt).
Proof.
  intros on_sub.
  destruct (row_selected on_sub) as (Hdir & _ & _).
  destruct (row_selected Sim.on_a_txt) as (_ & Hfile & _).
  specialize (Hdir (Sim.docs ++ ["Sub"])).
  cbv zeta in Hdir |- *.
  destruct Hdir as (H1 & H2 & _);
    [vm_compute; reflexivity | vm_compute; reflexivity
     | intros E; vm_compute in E; discriminate E |].
  split; [exact H1 |]. split; [exact H2 |].
  apply Hfile. right. exists (Sim.docs ++ ["a.txt"]).
  split; vm_compute; reflexivity.
Defined.

Lemma cycle_sort_witness :
  let press := fun b => snd (action_cycle_sort b) in
  sort_mode (press Sim.on_a_txt) = next_sort_mode (sort_mode Sim.on_a_txt)
  /\ next_sort_mode (sort_mode Sim.on_a_txt) = "size"
  /\ sort_mode (press (press (press (press Sim.on_a_txt)))) = sort_mode Sim.on_a_txt.
Proof.
  destruct (cycle_sort Sim.on_a_txt (Sim.children Sim.w0 Sim.docs)) as [Hin _];
    [vm_compute; reflexivity |].
  cbv zeta in Hin |- *.
  destruct Hin as (_ & H2 & _ & _ & _ & H6);
    [vm_compute; auto | exact sim_docs_readable |].
  split; [exact H2 |]. split; [vm_compute; reflexivity | exact H6].
Defined.

Lemma space_toggles_selection_witness :
  let entry := Sim.docs ++ ["a.txt"] in
  let a' := snd (on_key "space" true Sim.on_a_txt) in
  set_mem entry (_selected a') = negb (set_mem entry (_selected Sim.on_a_txt))
  /\ world a' = world Sim.on_a_txt
  /\ on_key "enter" true Sim.on_a_txt = (Ok tt, Sim.on_a_txt).
Proof.
  intros entry.
  destruct (space_toggles_selection Sim.on_a_txt) as [Hspace Hother].
  specialize (Hspace entry). cbv zeta in Hspace |- *.
  destruct Hspace as (H1 & _ & _ & H4 & _); [vm_compute; reflexivity |].
  split; [exact H1 |]. split; [exact H4 |].
  apply Hother. left. discriminate.
Defined.

Lemma copy_and_cut_only_mark_witness :
  let entry := Sim.docs ++ ["a.txt"] in
  clipboard (snd (action_cut_item Sim.on_a_txt)) = Some entry
  /\ clipboard_op (snd (action_cut_item Sim.on_a_txt)) = "cut"
  /\ world (snd (action_cut_item Sim.on_a_txt)) = world Sim.on_a_txt
  /\ action_copy_item Sim.in_inbox
     = (Ok tt, with_status "⚠  No item selected." Sim.in_inbox).
Proof.
  intros entry.
  destruct (copy_and_cut_only_mark Sim.on_a_txt) as [Hrow _].
  destruct (copy_and_cut_only_mark Sim.in_inbox) as [_ Hnone].
  specialize (Hrow entry). cbv zeta in Hrow.
  destruct Hrow as (_ & _ & _ & _ & H5 & H6 & _ & H8 & _);
    [vm_compute; reflexivity |].
  split; [exact H5 |]. split; [exact H6 |]. split; [exact H8 |].
  apply Hnone. vm_compute. reflexivity.
Defined.

Lemma new_file_outcomes_witness :
  let a := Sim.on_a_txt in
  let target := current_dir a // "new.txt" in
  exists b,
    action_new_file (Some "new.txt") a = (Ok tt, b)
    /\ world b = snd (touch_new target (world a))
    /\ status b = "✔  Created file: new.txt"
    /\ _undo b = UndoStack.push "create new.txt" (unlink_missing_ok target) (_undo a).
Proof.
  intros a target.
  destruct (new_file_outcomes a "new.txt") as (b & Hrun & Hw & _ & _ & _ & Hrest);
    [discriminate |].
  exists b. split; [exact Hrun |]. split; [exact Hw |].
  vm_compute in Hrest |- *. exact Hrest.
Defined.

Lemma new_dir_outcomes_witness :
  let a := Sim.on_a_txt in
  exists b,
    action_new_dir (Some "Sub") a = (Ok tt, b)
    /\ status b = "⚠  Directory already exists: Sub"
    /\ _undo b = _undo a.
Proof.
  intros a.
  destruct (new_dir_outcomes a "Sub") as (b & Hrun & _ & _ & _ & _ & Hrest);
    [discriminate |].
  exists b. split; [exact Hrun |].
  vm_compute in Hrest |- *. exact Hrest.
Defined.

Lemma rename_outcomes_witness :
  let a := Sim.on_a_txt in
  let entry := Sim.docs ++ ["a.txt"] in
  let target := current_dir a // "c.txt" in
  action_rename (Some "a.txt") a = (Ok tt, a)
  /\ exists b,
       action_rename (Some "c.txt") a = (Ok tt, b)
       /\ world b = snd (path_rename entry target (world a))
       /\ status b = "✔  Renamed to: c.txt"
       /\ _undo b = UndoStack.push "rename a.txt" (path_rename target entry) (_undo a).
Proof.
  intros a entry target.
  destruct (rename_outcomes a entry "a.txt") as [Hsame _];
    [vm_compute; reflexivity |].
  destruct (rename_outcomes a entry "c.txt") as [_ Hnew];
    [vm_compute; reflexivity |].
  split; [apply Hsame; right; vm_compute; reflexivity |].
  destruct Hnew as (b & Hrun & Hw & _ & _ & _ & Hrest);
    [discriminate | vm_compute; discriminate |].
  exists b. split; [exact Hrun |]. split; [exact Hw |].
  vm_compute in Hrest |- *. exact Hrest.
Defined.

Lemma blank_name_is_ignored_witness :
  action_new_file (InputModal_confirm "   ") Sim.on_a_txt = (Ok tt, Sim.on_a_txt)
  /\ action_rename (InputModal_confirm "   ") Sim.on_a_txt = (Ok tt, Sim.on_a_txt).
Proof.
  destruct (blank_name_is_ignored Sim.on_a_txt "   ") as (_ & Hfile & _ & _ & Hren & _);
    [reflexivity |].
  split; [exact Hfile |].
  apply (Hren (Sim.docs ++ ["a.txt"])). vm_compute. reflexivity.
Defined.

Lemma soft_delete_success_witness :
  let a := Sim.on_a_txt in
  let w1 := snd (mkdir_parents TRASH_DIR (world a)) in
  let moves := fst (fst (trash_moves w1 (_effective_targets a))) in
  let w2 := snd (trash_moves w1 (_effective_targets a)) in
  exists b,
    action_delete true a = (Ok tt, b)
    /\ world b = w2
    /\ _selected b = []
    /\ map snd moves = _effective_targets a
    /\ world (snd (action_undo b)) = snd (_undo_delete moves w2)
    /\ _undo (snd (action_undo b)) = _undo a.
Proof.
  intros a w1 moves w2.
  assert (Hne : _effective_targets a <> []) by (vm_compute; discriminate).
  assert (Hmk : mkdir_parents TRASH_DIR (world a) = (Ok tt, w1))
    by (vm_compute; reflexivity).
  assert (Hmv : trash_moves w1 (_effective_targets a) = (moves, None, w2))
    by (vm_compute; reflexivity).
  pose proof (soft_delete_success a w1 moves w2 Hne Hmk Hmv) as H.
  cbv zeta in H. destruct H as (Hm & _ & Hok & _).
  destruct Hok as (b & Hrun & Hw & Hs & _ & _ & Hu & Hu');
    [vm_compute; reflexivity |].
  exists b. repeat split; assumption.
Defined.

Lemma zip_member_names_witness :
  let out := Sim.inbox ++ ["docs.zip"] in
  let under := [["b.txt"]; ["Sub"]; ["a.txt"]; [".git"]; ["ghost"];
                ["data.tar.gz"]; ["note.gz"]] in
  zip_targets out [Sim.docs] Sim.on_a_txt
  = SE.for_each under
      (fun r => io (zip_write out (Sim.docs ++ r) (PurePath.name Sim.docs :: r)))
      Sim.on_a_txt.
Proof.
  intros out under.
  destruct (zip_member_names Sim.on_a_txt out Sim.docs under) as (Hdir & _ & _);
    [vm_compute; discriminate |].
  apply Hdir; vm_compute; reflexivity.
Defined.

Lemma goto_outcomes_witness :
  let a' := snd (action_goto (Some "~/inbox") Sim.on_a_txt) in
  current_dir a' = Sim.inbox
  /\ _selected a' = []
  /\ action_goto (Some "/nowhere") Sim.on_a_txt
     = (Ok tt, with_status "⚠  Not a directory: /nowhere" Sim.on_a_txt).
Proof.
  destruct (goto_outcomes Sim.on_a_txt "~/inbox") as (_ & _ & _ & Hdir & _);
    [discriminate |].
  destruct (goto_outcomes Sim.on_a_txt "/nowhere") as (_ & _ & Hnot & _ & _);
    [discriminate |].
  specialize (Hdir Sim.inbox). cbv zeta in Hdir |- *.
  destruct Hdir as (H1 & H2 & _);
    [vm_compute; reflexivity | vm_compute; reflexivity
     | intros E; vm_compute in E; discriminate E |].
  split; [exact H1 |]. split; [exact H2 |].
  apply (Hnot ["/"; "nowhere"]); vm_compute; reflexivity.
Defined.

Lemma filter_bar_witness :
  let a := snd (on_filter_changed "txt" Sim.on_a_txt) in
  fst (action_clear_filter true a) = Ok false
  /\ filter_text (snd (action_clear_filter true a)) = ""
  /\ action_toggle_filter false a = (Ok true, a)
  /\ _row_entries (snd (on_filter_changed "B.T" a)) = [Sim.docs ++ ["b.txt"]]
  /\ In (Sim.docs ++ ["b.txt"]) (_row_entries (snd (on_filter_changed "B.T" a))).
Proof.
  intros a.
  assert (Hraw : iterdir (world a) (current_dir a) = Ok (Sim.children Sim.w0 Sim.docs))
    by (vm_compute; reflexivity).
  assert (Hw : world a = Sim.w0) by (vm_compute; reflexivity).
  assert (Hr : readable (world a) (Sim.children Sim.w0 Sim.docs))
    by (rewrite Hw; exact sim_docs_readable).
  assert (Hnames : Forall (fun p => Str.is_ascii (PurePath.name p) = true)
                          (Sim.children Sim.w0 Sim.docs))
    by (repeat constructor).
  destruct (filter_bar a (Sim.children Sim.w0 Sim.docs) Hraw Hr Hnames)
    as (s & Hs & Htext & _ & H4 & H5 & _ & _ & _ & H9).
  split; [exact H4 |]. split; [exact H5 |]. split; [exact H9 |].
  split; [vm_compute; reflexivity |].
  destruct (Htext "B.T") as [_ Hin];
    [intros E; vm_compute in E; discriminate E | reflexivity |].
  apply (proj2 (Hin (Sim.docs ++ ["b.txt"]))).
  assert (Es : s = map (fun n => Sim.docs ++ [n])
                       [".git"; "Sub"; "a.txt"; "b.txt"; "data.tar.gz";
                        "ghost"; "note.gz"]).
  { vm_compute in Hs. injection Hs as <-. reflexivity. }
  split; [rewrite Es; vm_compute; auto 20 |].
  split; [right; reflexivity |].
  exists "", "b.t", "xt". split; reflexivity.
Defined.

Lemma human_size_unit_witness :
  human_size 1536
  = (format_1f (inject_Z 1536 / inject_Z (1024 ^ Z.of_nat 1))
     ++ " " ++ nth 1 size_units "")%string
  /\ human_size 7 = (str_Z 7 ++ ".0 B")%string.
Proof.
  destruct (human_size_unit 1536 1) as [Hkb _];
    [lia | lia | right; vm_compute; discriminate | right; vm_compute; reflexivity |].
  destruct (human_size_unit 7 0) as [_ Hb];
    [lia | lia | left; reflexivity | right; vm_compute; reflexivity |].
  split; [exact Hkb | apply Hb; reflexivity].
Defined.

